(** * roomctl: device protocol layer and power sequencing

    A shallow embedding of the drivers of [app/drivers] (the DSP408 mixer
    link, the PJLink projector link, the Shelly relay client), of the
    power sequence of [app/api] and of the merge of the device
    configuration of [app/config], with the properties the specification
    states about them and further properties of the code itself.

    Conventions of the embedding.
    - Python integers are [Z]; bytes on the wire are [byte]; Python floats
      are the kernel's binary64 floats, so decibel arithmetic rounds as it
      does in the program.
    - A method that reads the clock, sleeps or touches a socket is a
      computation in the monad [M W]: it takes the world [W] (the object's
      mutable fields together with the scripted environment) and returns a
      result or a raised exception, and the world after it. A raised
      exception keeps the world reached so far, as in Python.
    - Times are integer counts of nanoseconds of the monotonic clock.
    - Texts are strings of 8-bit characters and stand for ASCII text, on
      which the text functions of the model agree with Python's. *)

From stdpp Require Import gmap strings pretty.
From Stdlib Require Import ZArith Lia List Bool Strings.Byte.
From Stdlib Require Strings.Ascii Strings.String.
From Stdlib Require Import Floats.PrimFloat Floats.FloatOps Floats.SpecFloat.
From Stdlib Require Floats.FloatAxioms.
From Stdlib Require Import Numbers.Cyclic.Int63.Uint63.

Set Warnings "-inexact-float,-clear-no-such-hyp,-register-all".
Open Scope Z_scope.

(* ================================================================== *)
(** * Part I: the embedding *)

(* ================================================================== *)
(** ** Exceptions and the effect monad *)

(** The exception classes the modelled code raises or lets through. *)
Inductive exn : Type :=
| ValueError | TypeError | KeyError | IndexError | NameError
| RuntimeError | TimeoutError | ConnectionError | OSError
| IncompleteReadError | OverflowError.

Definition exn_eqb (a b : exn) : bool :=
  match a, b with
  | ValueError, ValueError | TypeError, TypeError | KeyError, KeyError
  | IndexError, IndexError | NameError, NameError | RuntimeError, RuntimeError
  | TimeoutError, TimeoutError | ConnectionError, ConnectionError
  | OSError, OSError | IncompleteReadError, IncompleteReadError
  | OverflowError, OverflowError => true
  | _, _ => false
  end.

(** The outcome of a call: a value, a raised exception, or [Diverge] when
    a loop of the model ran out of its fuel. [Diverge] is no Python
    outcome: no handler and no [finally] clause sees it, and the theorems
    on calls that return show that it does not occur. *)
Inductive result (A : Type) : Type :=
| Ok (a : A)
| Raise (e : exn)
| Diverge.

Arguments Ok {A} a.

Arguments Raise {A} e.

Arguments Diverge {A}.

(** Sequencing of two calls that touch no state. *)
Definition and_then {A B} (r : result A) (k : A -> result B) : result B :=
  match r with
  | Ok a => k a
  | Raise e => Raise e
  | Diverge => Diverge
  end.

Definition M (W A : Type) : Type := W -> result A * W.

Definition ret {W A} (a : A) : M W A := fun w => (Ok a, w).

Definition bind {W A B} (m : M W A) (k : A -> M W B) : M W B :=
  fun w => match m w with
           | (Ok a, w') => k a w'
           | (Raise e, w') => (Raise e, w')
           | (Diverge, w') => (Diverge, w')
           end.

Definition raise {W A} (e : exn) : M W A := fun w => (Raise e, w).

Definition diverge {W A} : M W A := fun w => (Diverge, w).

Definition gets {W A} (f : W -> A) : M W A := fun w => (Ok (f w), w).

Definition modify {W} (f : W -> W) : M W unit := fun w => (Ok tt, f w).

Definition lift {W A} (r : result A) : M W A := fun w => (r, w).

(** [try: m except Exception as e: h e]. *)
Definition try_except {W A} (m : M W A) (h : exn -> M W A) : M W A :=
  fun w => match m w with
           | (Ok a, w') => (Ok a, w')
           | (Raise e, w') => h e w'
           | (Diverge, w') => (Diverge, w')
           end.

(** [try: m except cls: h], for one exception class. *)
Definition try_except_only {W A} (cls : exn) (m : M W A) (h : M W A) : M W A :=
  fun w => match m w with
           | (Ok a, w') => (Ok a, w')
           | (Raise e, w') => if exn_eqb e cls then h w' else (Raise e, w')
           | (Diverge, w') => (Diverge, w')
           end.

(** [try: m finally: f]; an exception of [f] replaces the outcome of [m]. *)
Definition try_finally {W A} (m : M W A) (f : M W unit) : M W A :=
  fun w => match m w with
           | (Diverge, w') => (Diverge, w')
           | (r, w') => match f w' with
                        | (Ok _, w'') => (r, w'')
                        | (Raise e, w'') => (Raise e, w'')
                        | (Diverge, w'') => (Diverge, w'')
                        end
           end.

Declare Scope eff_scope.

Delimit Scope eff_scope with eff.

Notation "x <- c ;; k" := (bind c (fun x => k))
  (at level 100, c at next level, right associativity) : eff_scope.

Notation "c ;;; k" := (bind c (fun _ => k))
  (at level 100, right associativity) : eff_scope.

Open Scope eff_scope.

(** [for x in xs: body x]. *)
Fixpoint for_each {W A} (xs : list A) (body : A -> M W unit) : M W unit :=
  match xs with
  | [] => ret tt
  | x :: rest => body x ;;; for_each rest body
  end.

Definition exec {W A} (m : M W A) (w : W) : W := snd (m w).

Definition eval {W A} (m : M W A) (w : W) : result A := fst (m w).

(** One millisecond and one second on the clock. *)
Definition ms : Z := 1000000.

Definition sec : Z := 1000000000.

(** [respects R m]: whatever [m] returns or raises, the world it leaves is
    [R]-related to the world it started from. *)
Definition respects {W A} (R : W -> W -> Prop) (m : M W A) : Prop :=
  forall w, R w (snd (m w)).

(** [total m]: [m] returns or raises from every world. *)
Definition total {W A} (m : M W A) : Prop := forall w, fst (m w) <> Diverge.

(* ================================================================== *)
(** ** DbCodeTable: [code_to_db] and [db_to_code] *)

Module DbCode.

(** Conversion of a Python [int] operand to float in mixed arithmetic;
    exact for the magnitudes below 2^53 that reach it. *)
Definition float_of_int (z : Z) : float :=
  if z <? 0 then PrimFloat.opp (PrimFloat.of_uint63 (Uint63.of_Z (- z)))
  else PrimFloat.of_uint63 (Uint63.of_Z z).

(** Nearest integer of [m * 2^e], ties to the even one, with the sign [s]. *)
Definition round_half_even (s : bool) (m : positive) (e : Z) : Z :=
  let mag :=
    if 0 <=? e then Z.pos m * 2 ^ e
    else
      let d := 2 ^ (- e) in
      let q := Z.pos m / d in
      let r := Z.pos m mod d in
      if 2 * r <? d then q
      else if d <? 2 * r then q + 1
      else if Z.even q then q else q + 1 in
  if s then - mag else mag.

(** [int(round(x))]: Python's [round] of a float is round-half-to-even;
    it raises [ValueError] on NaN and [OverflowError] on an infinity. *)
Definition py_round (x : float) : result Z :=
  match Prim2SF x with
  | S754_zero _ => Ok 0
  | S754_finite s m e => Ok (round_half_even s m e)
  | S754_infinity _ => Raise OverflowError
  | S754_nan => Raise ValueError
  end.

Definition code_to_db (code : Z) : result float :=
  if negb ((0 <=? code) && (code <=? 400)) then Raise ValueError
  else if code <=? 80 then
    Ok (-60.0 + float_of_int code * 0.5)%float
  else if code <=? 280 then
    Ok (-20.0 + float_of_int (code - 80) * 0.1)%float
  else
    Ok (0.0 + float_of_int (code - 280) * 0.1)%float.

Definition db_to_code (db : float) : result Z :=
  let db := if (db <? -60.0)%float then (-60.0)%float else db in
  let db := if (12.0 <? db)%float then (12.0)%float else db in
  if (db <=? -20.0)%float then
    py_round ((db + 60.0) / 0.5)%float
  else if (db <=? 0.0)%float then
    py_round (80 + (db + 20.0) / 0.1)%float
  else
    py_round (280 + (db - 0.0) / 0.1)%float.

(** [db_to_code(code_to_db(c))], an exception of either call propagating. *)
Definition roundtrip (c : Z) : result Z := and_then (code_to_db c) db_to_code.

Definition knots : list Z := [0; 80; 280; 400].

Definition probes : list Z := [0; 1; 80; 81; 280; 281; 400].

(** Every code of the table, in increasing order. *)
Definition all_codes : list Z := map Z.of_nat (seq 0 401).

Definition roundtrips (c : Z) : bool :=
  match roundtrip c with
  | Ok c' => c' =? c
  | _ => false
  end.

(** *** Specification vocabulary *)

(** The table, each code with its decibel value. *)
Definition table : list (Z * result float) := map (fun c => (c, code_to_db c)) all_codes.

Definition db_lt (a b : result float) : bool :=
  match a, b with
  | Ok x, Ok y => (x <? y)%float
  | _, _ => false
  end.

(** Every two entries of a table lie in the order of their codes. *)
Definition ordered (tbl : list (Z * result float)) : bool :=
  forallb (fun p => forallb (fun q => if fst p <? fst q then db_lt (snd p) (snd q) else true) tbl)
    tbl.

(** The decibel value of a code lies between -60 and +12. *)
Definition db_in_range (c : Z) : bool :=
  match code_to_db c with
  | Ok d => ((-60.0 <=? d) && (d <=? 12.0))%float
  | _ => false
  end.

End DbCode.

(* ================================================================== *)
(** ** MixerLink: [RS232TCPClient] and the [DSP408Client] facade *)

Module Mixer.

Definition DLE : Z := 0x7B.

Definition STX : Z := 0x7D.

Definition CMD_GAIN : Z := 0x41.

Definition CMD_MUTE : Z := 0x42.

Definition CMD_LOAD_PRESET : Z := 0x43.

Definition CMD_INPUT_VOLUME : Z := 0x44.

Definition CMD_OUTPUT_VOLUME : Z := 0x45.

Definition CMD_GET_GAIN : Z := 0x48.

Definition CMD_GET_MUTE : Z := 0x49.

Definition CMD_GET_PRESET : Z := 0x4A.

Definition CMDS_WITH_REPLY : list Z := [0x48; 0x49; 0x4A].

(** The fields [__init__] fixes for the life of the client. *)
Record Config : Type := {
  addr : Z;
  min_step : Z;
  timeout : Z;
}.

(** [RS232TCPClient.__init__]: [min_step_ms] in milliseconds, [timeout] in
    nanoseconds. *)
Definition new_client (device_address min_step_ms timeout_ns : Z) : result Config :=
  if negb ((1 <=? device_address) && (device_address <=? 254)) then Raise ValueError
  else Ok {| addr := device_address;
             min_step := Z.max 20 min_step_ms * ms;
             timeout := timeout_ns |}.

(** What the peer does at a [recv]: bytes become readable, nothing arrives
    within the socket timeout, or the connection is at end of file. *)
Inductive rx_event : Type :=
| RxData (bs : list byte)
| RxTimeout
| RxEof.

(** The client's mutable fields ([sock], [sock_timeout], [last_send_ts]),
    the clock, the frames the transport has taken ([sent], newest first,
    each with the time of its write), and the script of the environment:
    how long each coming primitive takes ([latency]), and how each coming
    [create_connection], [sendall] and [recv] turns out. An exhausted
    script means no delay, success, and silence. *)
Record World : Type := {
  clock : Z;
  sock : bool;
  sock_timeout : Z;
  last_send_ts : Z;
  sent : list (Z * list byte);
  latency : list N;
  connects : list (option exn);
  sends : list (option exn);
  rx : list rx_event;
}.

Definition set_clock (t : Z) (w : World) : World :=
  {| clock := t; sock := sock w; sock_timeout := sock_timeout w;
     last_send_ts := last_send_ts w; sent := sent w; latency := latency w;
     connects := connects w; sends := sends w; rx := rx w |}.

Definition set_sock (s : bool) (w : World) : World :=
  {| clock := clock w; sock := s; sock_timeout := sock_timeout w;
     last_send_ts := last_send_ts w; sent := sent w; latency := latency w;
     connects := connects w; sends := sends w; rx := rx w |}.

Definition set_sock_timeout (t : Z) (w : World) : World :=
  {| clock := clock w; sock := sock w; sock_timeout := t;
     last_send_ts := last_send_ts w; sent := sent w; latency := latency w;
     connects := connects w; sends := sends w; rx := rx w |}.

Definition set_last_send_ts (t : Z) (w : World) : World :=
  {| clock := clock w; sock := sock w; sock_timeout := sock_timeout w;
     last_send_ts := t; sent := sent w; latency := latency w;
     connects := connects w; sends := sends w; rx := rx w |}.

Definition set_sent (l : list (Z * list byte)) (w : World) : World :=
  {| clock := clock w; sock := sock w; sock_timeout := sock_timeout w;
     last_send_ts := last_send_ts w; sent := l; latency := latency w;
     connects := connects w; sends := sends w; rx := rx w |}.

Definition set_latency (l : list N) (w : World) : World :=
  {| clock := clock w; sock := sock w; sock_timeout := sock_timeout w;
     last_send_ts := last_send_ts w; sent := sent w; latency := l;
     connects := connects w; sends := sends w; rx := rx w |}.

Definition set_connects (l : list (option exn)) (w : World) : World :=
  {| clock := clock w; sock := sock w; sock_timeout := sock_timeout w;
     last_send_ts := last_send_ts w; sent := sent w; latency := latency w;
     connects := l; sends := sends w; rx := rx w |}.

Definition set_sends (l : list (option exn)) (w : World) : World :=
  {| clock := clock w; sock := sock w; sock_timeout := sock_timeout w;
     last_send_ts := last_send_ts w; sent := sent w; latency := latency w;
     connects := connects w; sends := l; rx := rx w |}.

Definition set_rx (l : list rx_event) (w : World) : World :=
  {| clock := clock w; sock := sock w; sock_timeout := sock_timeout w;
     last_send_ts := last_send_ts w; sent := sent w; latency := latency w;
     connects := connects w; sends := sends w; rx := l |}.

(** A client just constructed, in a given environment. *)
Definition fresh (t0 : Z) (lat : list N) (conn snd : list (option exn))
    (peer : list rx_event) : World :=
  {| clock := t0; sock := false; sock_timeout := 0; last_send_ts := 0;
     sent := []; latency := lat; connects := conn; sends := snd; rx := peer |}.

(** *** Primitives of the environment *)

(** The next primitive takes its scripted time. *)
Definition tick : M World unit :=
  fun w => match latency w with
           | [] => (Ok tt, w)
           | d :: rest => (Ok tt, set_clock (clock w + Z.of_N d) (set_latency rest w))
           end.

(** [time.monotonic()]. *)
Definition monotonic : M World Z := tick ;;; gets clock.

(** [time.sleep(d)]: at least [d]; a negative length is a [ValueError]. *)
Definition sleep (d : Z) : M World unit :=
  if d <? 0 then raise ValueError
  else tick ;;; modify (fun w => set_clock (clock w + d) w).

(** [socket.create_connection(...)], then [settimeout]. *)
Definition create_connection (tmo : Z) : M World unit :=
  tick ;;;
  o <- gets connects ;;
  match o with
  | [] => modify (fun w => set_sock_timeout tmo (set_sock true w))
  | None :: rest =>
      modify (fun w => set_sock_timeout tmo (set_sock true (set_connects rest w)))
  | Some e :: rest => modify (set_connects rest) ;;; raise e
  end.

(** [sock.sendall(pkt)]: the transport takes the whole frame, or raises. *)
Definition sendall (pkt : list byte) : M World unit :=
  tick ;;;
  o <- gets sends ;;
  match o with
  | [] => modify (fun w => set_sent ((clock w, pkt) :: sent w) w)
  | None :: rest =>
      modify (fun w => set_sent ((clock w, pkt) :: sent w) (set_sends rest w))
  | Some e :: rest => modify (set_sends rest) ;;; raise e
  end.

(** [sock.recv(k)] under the socket timeout in force. *)
Definition recv (k : Z) : M World (list byte) :=
  o <- gets rx ;;
  match o with
  | [] =>
      modify (fun w => set_clock (clock w + Z.max 0 (sock_timeout w)) w) ;;;
      raise TimeoutError
  | RxTimeout :: rest =>
      modify (fun w => set_clock (clock w + Z.max 0 (sock_timeout w)) (set_rx rest w)) ;;;
      raise TimeoutError
  | RxEof :: _ => tick ;;; ret []
  | RxData bs :: rest =>
      tick ;;;
      let n := Z.to_nat k in
      modify (set_rx (match skipn n bs with
                      | [] => rest
                      | more => RxData more :: rest
                      end)) ;;;
      ret (firstn n bs)
  end.

(** *** [RS232TCPClient] *)

Definition byte_of_int (z : Z) : byte :=
  match Byte.of_N (Z.to_N (Z.land z 0xFF)) with
  | Some b => b
  | None => x00
  end.

Definition int_of_byte (b : byte) : Z := Z.of_N (Byte.to_N b).

Fixpoint bytes_eqb (a b : list byte) : bool :=
  match a, b with
  | [], [] => true
  | x :: a', y :: b' => Byte.eqb x y && bytes_eqb a' b'
  | _, _ => false
  end.

Definition connect (cfg : Config) : M World unit :=
  s <- gets sock ;;
  if s then ret tt else create_connection (timeout cfg).

Definition close : M World unit :=
  s <- gets sock ;;
  if s then modify (set_sock false) else ret tt.

Definition _build_packet (addr cmd d1 d2 d3 : Z) : list byte :=
  map byte_of_int [DLE; STX; addr; cmd; d1; d2; d3; STX; DLE].

Definition _parse_packet (pkt : list byte) : result (Z * Z) :=
  match pkt with
  | [] => Raise IndexError
  | [a] => Ok (int_of_byte a, 0)
  | a :: b :: _ => Ok (int_of_byte a, int_of_byte b)
  end.

(** The [while len(data) < n] loop of [_recv_exact]. Every turn that does
    not raise adds a byte at least, so [fuel = n] turns are enough. *)
Fixpoint recv_loop (fuel : nat) (cfg : Config) (n : Z) (deadline : option Z)
    (data : list byte) : M World (list byte) :=
  if Z.of_nat (length data) <? n then
    match fuel with
    | O => diverge
    | S fuel' =>
        match deadline with
        | Some dl =>
            now <- monotonic ;;
            let remaining := dl - now in
            if remaining <=? 0 then raise TimeoutError
            else modify (set_sock_timeout (Z.min (timeout cfg) remaining))
        | None => ret tt
        end ;;;
        chunk <- recv (n - Z.of_nat (length data)) ;;
        match chunk with
        | [] => raise ConnectionError
        | _ => recv_loop fuel' cfg n deadline (data ++ chunk)
        end
    end
  else ret data.

Definition _recv_exact (cfg : Config) (n : Z) (deadline : option Z) : M World (list byte) :=
  s <- gets sock ;;
  if negb s then raise RuntimeError
  else recv_loop (Z.to_nat n) cfg n deadline [].

Definition _read_reply_packet (cfg : Config) (sent_pkt : list byte)
    (allow_echo : bool) (n_byte : Z) (total_timeout : Z) : M World (list byte) :=
  now <- monotonic ;;
  let deadline := now + total_timeout in
  first <- _recv_exact cfg n_byte (Some deadline) ;;
  if allow_echo && bytes_eqb first sent_pkt then
    _recv_exact cfg n_byte (Some deadline)
  else ret first.

Definition send_command (cfg : Config) (cmd d1 d2 d3 : Z) (answ_byte : Z)
    (expect_reply : option bool) (expect_echo : bool)
    (reply_timeout : option Z) : M World (option (Z * Z)) :=
  connect cfg ;;;
  now <- monotonic ;;
  last <- gets last_send_ts ;;
  let delta := now - last in
  (if delta <? min_step cfg then sleep (min_step cfg - delta) else ret tt) ;;;
  let pkt := _build_packet (addr cfg) cmd d1 d2 d3 in
  sendall pkt ;;;
  stamp <- monotonic ;;
  modify (set_last_send_ts stamp) ;;;
  let expect_reply :=
    match expect_reply with
    | Some b => b
    | None => existsb (Z.eqb cmd) CMDS_WITH_REPLY
    end in
  if negb expect_reply then ret None
  else
    sleep (20 * ms) ;;;
    let total_timeout :=
      match reply_timeout with
      | Some t => t
      | None => Z.max (timeout cfg) (2 * sec)
      end in
    resp <- _read_reply_packet cfg pkt expect_echo answ_byte total_timeout ;;
    r <- lift (_parse_packet resp) ;;
    ret (Some r).

Definition flag (b : bool) : Z := if b then 1 else 0.

Definition set_gain (cfg : Config) (is_output : bool) (channel sign : Z) : M World unit :=
  let d1 := flag is_output in
  let d2 := Z.land channel 0xFF in
  let d3 := if sign =? 0 then 0 else 1 in
  send_command cfg CMD_GAIN d1 d2 d3 1 (Some false) false None ;;; ret tt.

Definition set_mute (cfg : Config) (is_output : bool) (channel : Z) (mute : bool) : M World unit :=
  let d1 := flag is_output in
  let d2 := Z.land channel 0xFF in
  let d3 := flag mute in
  send_command cfg CMD_MUTE d1 d2 d3 1 (Some false) false None ;;; ret tt.

Definition get_mute (cfg : Config) (is_output : bool) (channel : Z) : M World bool :=
  let d1 := flag is_output in
  let d2 := Z.land channel 0xFF in
  r <- send_command cfg CMD_GET_MUTE d1 d2 0 1 (Some true) false (Some (2 * sec)) ;;
  match r with
  | None => ret false
  | Some (r_d2, _) => ret (negb (r_d2 =? 0))
  end.

Definition recall_preset (cfg : Config) (user : bool) (preset_index : Z) : M World unit :=
  let d1 := flag user in
  let d2 := Z.land preset_index 0xFF in
  send_command cfg CMD_LOAD_PRESET d1 d2 0 1 (Some false) false None ;;; ret tt.

Definition get_preset (cfg : Config) : M World Z :=
  r <- send_command cfg CMD_GET_PRESET 0 0 0 1 (Some true) false (Some (2 * sec)) ;;
  match r with
  | None => ret 0
  | Some (r0, _) => ret r0
  end.

Definition set_input_volume_db (cfg : Config) (channel : Z) (db : float) : M World unit :=
  code <- lift (DbCode.db_to_code db) ;;
  let hi := Z.land (Z.shiftr code 8) 0xFF in
  let lo := Z.land code 0xFF in
  send_command cfg CMD_INPUT_VOLUME (Z.land channel 0xFF) hi lo 1 (Some false) false None ;;;
  ret tt.

Definition set_output_volume_db (cfg : Config) (channel : Z) (db : float) : M World unit :=
  code <- lift (DbCode.db_to_code db) ;;
  let hi := Z.land (Z.shiftr code 8) 0xFF in
  let lo := Z.land code 0xFF in
  send_command cfg CMD_OUTPUT_VOLUME (Z.land channel 0xFF) hi lo 1 (Some false) false None ;;;
  ret tt.

(** The gain query of [get_gain_db], sent at most twice. *)
Definition gain_query (cfg : Config) (is_output : bool) (channel : Z) : M World (option (Z * Z)) :=
  send_command cfg CMD_GET_GAIN (flag is_output) (Z.land channel 0xFF) 0 2
    (Some true) false (Some (3 * sec)).

(** The decoding of [get_gain_db], from the unpacking of the reply on. *)
Definition decode_gain (r : option (Z * Z)) : result float :=
  match r with
  | None => Raise TypeError
  | Some (r_d2, r_d3) =>
      if (r_d2 =? 0) && (r_d3 =? 0) then Ok 0.0%float
      else
        let code := Z.lor (Z.shiftl r_d2 8) r_d3 in
        let code := if (400 <? code) && (r_d2 =? 0) then r_d3 else code in
        let code := Z.max 0 (Z.min 400 code) in
        DbCode.code_to_db code
  end.

Definition get_gain_db (cfg : Config) (is_output : bool) (channel : Z) : M World float :=
  r <- try_except_only TimeoutError
         (gain_query cfg is_output channel)
         (gain_query cfg is_output channel) ;;
  lift (decode_gain r).

(** *** [DSP408Client] *)

Record Facade : Type := {
  cli : Config;
  bus_map : gmap string (bool * Z);
}.

Definition default_bus_map : gmap string (bool * Z) :=
  <["in_a" := (false, 0)]> (<["out0" := (true, 0)]> (<["out1" := (true, 1)]>
    (<["out2" := (true, 2)]> (<["out3" := (true, 3)]> ∅)))).

(** [DSP408Client.__init__]; an absent or empty [bus_map] gives the default. *)
Definition new_facade (timeout_ns addr min_step_ms : Z)
    (bus_map : option (gmap string (bool * Z))) : result Facade :=
  and_then (new_client addr min_step_ms timeout_ns) (fun c =>
    Ok {| cli := c;
          bus_map := match bus_map with
                     | Some m => if decide (m = ∅) then default_bus_map else m
                     | None => default_bus_map
                     end |}).

Definition _resolve (d : Facade) (bus : string) : M World (bool * Z) :=
  match bus_map d !! bus with
  | None => raise ValueError
  | Some r => ret r
  end.

(** [input[str(ch)]] in the body of [mute_all]. Neither the function nor
    the module binds a name [input], so the name denotes the builtin
    function, and subscripting a function raises [TypeError]. *)
Definition input_at (ch : Z) : M World bool := raise TypeError.

(** [output[str(ch)]] in the body of [mute_all]. No scope binds a name
    [output], and there is no builtin of that name: [NameError]. *)
Definition output_at (ch : Z) : M World bool := raise NameError.

(** [mute_all], as the driver module stands. The arguments of a call are
    evaluated before the call, so each subscript comes before the
    [set_mute] it feeds. *)
Definition mute_all (d : Facade) (on : bool) : M World unit :=
  if on then
    for_each [0; 1; 2; 3] (fun ch =>
      i <- input_at ch ;;
      set_mute (cli d) false ch (on && i) ;;;
      o <- output_at ch ;;
      set_mute (cli d) true ch (on && o)) ;;;
    for_each [4; 5; 6; 7] (fun ch =>
      o <- output_at ch ;;
      set_mute (cli d) true ch (on && o))
  else ret tt.

(** Python's two-argument [min] and [max] on floats. *)
Definition py_min (a b : float) : float := if (b <? a)%float then b else a.

Definition py_max (a b : float) : float := if (a <? b)%float then b else a.

(** The "logical" new value [apply_gain_delta] returns. *)
Definition stepped (cur : float) (sign : Z) : float :=
  py_max (-60.0)%float
    (py_min (12.0)%float (cur + (if (0 <? sign)%Z then 1.0 else -1.0))%float).

Definition apply_gain_delta (d : Facade) (bus : string) (sign : Z) : M World float :=
  r <- _resolve d bus ;;
  let '(is_out, ch) := r in
  cur <- get_gain_db (cli d) is_out ch ;;
  let new := stepped cur sign in
  set_gain (cli d) is_out ch sign ;;;
  ret new.

Definition apply_volume_delta (d : Facade) (bus : string) (sign : Z) : M World float :=
  apply_gain_delta d bus sign.

(** The "channel in use" tables of the [dsp] section of the default device
    configuration ([load_devices] of the API module). *)
Definition dsp_input : gmap string bool :=
  <["0" := true]> (<["1" := false]> (<["2" := false]> (<["3" := false]> ∅))).

Definition dsp_output : gmap string bool :=
  <["0" := true]> (<["1" := false]> (<["2" := false]> (<["3" := false]>
    (<["4" := true]> (<["5" := false]> (<["6" := false]> (<["7" := false]> ∅))))))).

(** *** Specification vocabulary *)

(** Adjacent frames of a log (newest first) lie at least [gap] apart. *)
Fixpoint spaced (gap : Z) (log : list (Z * list byte)) : Prop :=
  match log with
  | [] => True
  | (t2, _) :: rest =>
      match rest with
      | [] => True
      | (t1, _) :: _ => t1 + gap <= t2
      end /\ spaced gap rest
  end.

(** One call of [send_command], with all its arguments. *)
Record Call : Type := {
  c_cmd : Z; c_d1 : Z; c_d2 : Z; c_d3 : Z; c_answ_byte : Z;
  c_expect_reply : option bool; c_expect_echo : bool;
  c_reply_timeout : option Z;
}.

Definition perform (cfg : Config) (c : Call) : M World (option (Z * Z)) :=
  send_command cfg (c_cmd c) (c_d1 c) (c_d2 c) (c_d3 c) (c_answ_byte c)
    (c_expect_reply c) (c_expect_echo c) (c_reply_timeout c).

(** A sequence of sends on one link; the caller goes on after a failure. *)
Fixpoint run_calls (cfg : Config) (calls : list Call) (w : World) : World :=
  match calls with
  | [] => w
  | c :: rest => run_calls cfg rest (exec (perform cfg c) w)
  end.

(** The frames written since the log was [before] (newest first). *)
Definition new_frames (before after : list (Z * list byte)) : list (list byte) :=
  map snd (firstn (length after - length before)%nat after).

Definition mute_frame (cfg : Config) (is_output : bool) (ch : Z) (mute : bool) : list byte :=
  _build_packet (addr cfg) CMD_MUTE (flag is_output) (Z.land ch 0xFF) (flag mute).

(** The frame addresses the mute state of channel [ch] of the bus. *)
Definition addresses (cfg : Config) (is_output : bool) (ch : Z) (f : list byte) : Prop :=
  exists m, f = mute_frame cfg is_output ch m.

(** The claim on [mute_all], in the specification's words, for the
    configured "channel in use" tables [input] and [output]: on either
    value of [on], a channel marked unused gets no command, and a channel
    marked in use gets the mute state [on]. The input table governs the
    input channels, the output table the output channels. *)
Definition mute_all_gated (d : Facade) (input output : gmap string bool)
    (on : bool) (w : World) : Prop :=
  let frames := new_frames (sent w) (sent (exec (mute_all d on) w)) in
  forall (is_output : bool) (ch : Z),
    let tbl := if is_output then output else input in
    (tbl !! pretty ch = Some false ->
       forall f, In f frames -> ~ addresses (cli d) is_output ch f) /\
    (tbl !! pretty ch = Some true ->
       In (mute_frame (cli d) is_output ch on) frames).

(** The claim on the decoding of [get_gain_db], in the specification's
    words: 0.0 dB for two zero bytes; otherwise the 16-bit code; when that
    code exceeds 400 the high byte is a sentinel and no part of the value,
    and the low byte alone is the code; the code is clamped to 0..400 and
    converted. *)
Definition gain_claimed (hi lo : Z) : result float :=
  if decide (hi = 0 /\ lo = 0) then Ok 0.0%float
  else
    let code16 := Z.lor (Z.shiftl hi 8) lo in
    let code := if decide (400 < code16) then lo else code16 in
    let clamped := if decide (code < 0) then 0
                   else if decide (400 < code) then 400 else code in
    DbCode.code_to_db clamped.

(** **** What a step leaves alone *)

(** A step that writes no frame: the log and the send stamp stay, and the
    clock does not go back. *)
Definition quiet (w w' : World) : Prop :=
  sent w' = sent w /\ last_send_ts w' = last_send_ts w /\ clock w <= clock w'.

(** **** Pacing of the frames *)

(** The invariant of a link: the log is spaced by [min_step], and its newest
    frame was written no later than the send stamp. *)
Definition paced (cfg : Config) (w : World) : Prop :=
  spaced (min_step cfg) (sent w) /\
  match sent w with
  | [] => True
  | (t, _) :: _ => t <= last_send_ts w
  end.

(** **** Replies and silence *)

(** The peer sends nothing before the next receive times out. *)
Definition silent (w : World) : bool :=
  match rx w with
  | [] | RxTimeout :: _ => true
  | _ => false
  end.

Definition next_ok (l : list (option exn)) : bool :=
  match l with
  | Some _ :: _ => false
  | _ => true
  end.

(** The link is, or can be, connected, and the coming write succeeds. *)
Definition link_up (w : World) : bool :=
  (sock w || next_ok (connects w)) && next_ok (sends w).

(** A step that leaves the socket, the peer and the outcome of the coming
    write as they are. *)
Definition steady (w w' : World) : Prop :=
  rx w' = rx w /\ sock w' = sock w /\ sends w' = sends w.

(** The part of [send_command] after the write and the stamp. *)
Definition reply_part (cfg : Config) (pkt : list byte) (answ_byte : Z)
    (expect echo : bool) (total : Z) : M World (option (Z * Z)) :=
  if negb expect then ret None
  else sleep (20 * ms) ;;;
       (resp <- _read_reply_packet cfg pkt echo answ_byte total ;;
        r <- lift (_parse_packet resp) ;;
        ret (Some r)).

(** The claim on [get_mute], in the specification's words: when the peer
    sends no reply byte before the timeout, the call returns [False]. *)
Definition no_reply_is_false (cfg : Config) (is_output : bool) (channel : Z)
    (w : World) : Prop :=
  silent w = true -> eval (get_mute cfg is_output channel) w = Ok false.

(** A link in its default environment whose peer never answers. *)
Definition silent_link : World := fresh (100 * sec) [] [] [] [].

Definition cfg_default : Config :=
  {| addr := 3; min_step := 50 * ms; timeout := 3 * sec |}.

(** **** The gain query *)

(** The runs of [get_gain_db]: the first query answers; or it times out
    and a second one is made, whose outcome is final; or it fails
    otherwise, and no second one is made. *)
Inductive gain_run (cfg : Config) (is_output : bool) (channel : Z) (w : World) :
    result float -> World -> Prop :=
| FirstReply hi lo w1 :
    gain_query cfg is_output channel w = (Ok (Some (hi, lo)), w1) ->
    gain_run cfg is_output channel w (decode_gain (Some (hi, lo))) w1
| RetryReply w0 hi lo w1 :
    gain_query cfg is_output channel w = (Raise TimeoutError, w0) ->
    gain_query cfg is_output channel w0 = (Ok (Some (hi, lo)), w1) ->
    gain_run cfg is_output channel w (decode_gain (Some (hi, lo))) w1
| FirstFails e w1 :
    gain_query cfg is_output channel w = (Raise e, w1) ->
    e <> TimeoutError ->
    gain_run cfg is_output channel w (Raise e) w1
| RetryFails w0 e w1 :
    gain_query cfg is_output channel w = (Raise TimeoutError, w0) ->
    gain_query cfg is_output channel w0 = (Raise e, w1) ->
    gain_run cfg is_output channel w (Raise e) w1.

(** **** One-shot commands on a working link *)

(** The link is, or can be, connected, and no write of the script fails. *)
Definition ready (w : World) : bool :=
  (sock w || next_ok (connects w)) &&
  match sends w with
  | [] => true
  | _ => false
  end.

(** Between [w] and [w'] exactly the frames [fs] were written, oldest
    first. *)
Definition wrote (fs : list (list byte)) (w w' : World) : Prop :=
  exists l, sent w' = l ++ sent w /\ map snd l = rev fs.

Definition facade_default : Facade :=
  {| cli := cfg_default; bus_map := default_bus_map |}.

(** **** The gain step *)

(** The frame of a gain step with direction byte 1. *)
Definition gain_frame (cfg : Config) (is_output : bool) (channel : Z) : list byte :=
  _build_packet (addr cfg) CMD_GAIN (flag is_output) (Z.land channel 0xFF) 1.

(** The frame of the gain query. *)
Definition gain_query_frame (cfg : Config) (is_output : bool) (channel : Z) : list byte :=
  _build_packet (addr cfg) CMD_GET_GAIN (flag is_output) (Z.land channel 0xFF) 0.

(** A link on which a gain query will be answered: it is ready, no
    primitive is delayed, and the peer has two bytes at least there for
    the next receive. *)
Definition answers (w : World) : bool :=
  ready w &&
  match latency w with
  | [] => true
  | _ => false
  end &&
  match rx w with
  | RxData (_ :: _ :: _) :: _ => true
  | _ => false
  end.

(** The downward logical step from [cur] lies below the upward one. *)
Definition steps_apart (cur : float) : bool :=
  (stepped cur (-1) <? stepped cur 1)%float.

Definition steps_apart_result (r : result float) : bool :=
  match r with
  | Ok cur => steps_apart cur
  | _ => true
  end.

(** A link whose peer answers the gain query with the code 280 (0 dB). *)
Definition answering_link : World :=
  fresh (100 * sec) [] [] [] [RxData ["001"%byte; "024"%byte]].

(** **** The log and the calls *)

(** The frame a call writes. *)
Definition frame_of (cfg : Config) (c : Call) : list byte :=
  _build_packet (addr cfg) (c_cmd c) (c_d1 c) (c_d2 c) (c_d3 c).

(** A step that leaves the socket and the outcomes of the coming
    connection attempts as they are. *)
Definition kept (w w' : World) : Prop :=
  sock w' = sock w /\ connects w' = connects w.

(** **** The bytes of the peer *)

(** The bytes the script of the peer still holds, in the order of their
    arrival. *)
Definition pending (l : list rx_event) : list byte :=
  flat_map (fun e => match e with
                     | RxData bs => bs
                     | _ => []
                     end) l.

(** A step that reads no byte of the peer. *)
Definition heard (w w' : World) : Prop := pending (rx w') = pending (rx w).

(** **** The range of the gain *)

(** The decibel value lies between -60 and +12. *)
Definition in_db_range (v : float) : bool := ((-60.0 <=? v) && (v <=? 12.0))%float.

Definition steps_in_range (r : result float) : bool :=
  match r with
  | Ok cur => in_db_range (stepped cur 1) && in_db_range (stepped cur (-1))
  | _ => true
  end.

End Mixer.

(* ================================================================== *)
(** ** ProjectorLink: [PJLinkClient] and [PJLinkSocketClient] *)

Module PJLink.

Import Stdlib.Strings.Ascii.

Open Scope string_scope.

(** *** Text *)

Definition CR : string := String "013"%char EmptyString.

(** Whitespace of [str.strip] and of [\s], on ASCII text. *)
Definition is_space (c : ascii) : bool :=
  let n := nat_of_ascii c in
  ((9 <=? n) && (n <=? 13) || (28 <=? n) && (n <=? 32))%nat.

Definition is_digit (c : ascii) : bool :=
  let n := nat_of_ascii c in ((48 <=? n) && (n <=? 57))%nat.

Definition is_hex (c : ascii) : bool :=
  let n := nat_of_ascii c in
  (is_digit c || (65 <=? n) && (n <=? 70) || (97 <=? n) && (n <=? 102))%nat.

(** [str.upper] on ASCII text. *)
Definition upper_char (c : ascii) : ascii :=
  let n := nat_of_ascii c in
  if ((97 <=? n) && (n <=? 122))%nat then ascii_of_nat (n - 32) else c.

Fixpoint upper (s : string) : string :=
  match s with
  | EmptyString => EmptyString
  | String c rest => String (upper_char c) (upper rest)
  end.

(** The text holds ASCII characters only. On such a text the functions of
    this section agree with Python's; beyond ASCII [str.upper], [\s] and
    [\d] know more characters than the ones below. *)
Fixpoint ascii_text (s : string) : bool :=
  match s with
  | EmptyString => true
  | String c rest => (nat_of_ascii c <? 128)%nat && ascii_text rest
  end.

Fixpoint lstrip (s : string) : string :=
  match s with
  | String c rest => if is_space c then lstrip rest else s
  | EmptyString => EmptyString
  end.

Fixpoint rstrip (s : string) : string :=
  match s with
  | EmptyString => EmptyString
  | String c rest =>
      match rstrip rest with
      | EmptyString => if is_space c then EmptyString else String c EmptyString
      | kept => String c kept
      end
  end.

Definition strip (s : string) : string := rstrip (lstrip s).

(** The longest prefix of characters satisfying [p], and the rest. *)
Fixpoint span (p : ascii -> bool) (s : string) : string * string :=
  match s with
  | String c rest =>
      if p c then let '(a, b) := span p rest in (String c a, b)
      else (EmptyString, s)
  | EmptyString => (EmptyString, EmptyString)
  end.

Fixpoint strip_prefix (pre s : string) : option string :=
  match pre, s with
  | EmptyString, _ => Some s
  | String a pre', String b s' => if Ascii.eqb a b then strip_prefix pre' s' else None
  | String _ _, EmptyString => None
  end.

(** [needle in hay]. *)
Fixpoint contains (needle hay : string) : bool :=
  String.prefix needle hay ||
  match hay with
  | String _ rest => contains needle rest
  | EmptyString => false
  end.

(** [s.endswith(suffix)]. *)
Fixpoint ends_with (suffix s : string) : bool :=
  String.eqb suffix s ||
  match s with
  | String _ rest => ends_with suffix rest
  | EmptyString => false
  end.

Definition digit_value (c : ascii) : Z := Z.of_nat (nat_of_ascii c) - 48.

(** [re.match(r"PJLINK\s+(\d)(?:\s+([0-9A-Fa-f]+))?", text)], giving
    [(m.group(1) == "1", m.group(2) or "")], on ASCII text. *)
Definition match_banner (text : string) : option (bool * string) :=
  match strip_prefix "PJLINK" text with
  | None => None
  | Some rest =>
      match span is_space rest with
      | (EmptyString, _) => None
      | (_, String d rest') =>
          if is_digit d then
            let '(gap, tail) := span is_space rest' in
            let '(hex, _) := span is_hex tail in
            let rand := match gap with
                        | EmptyString => EmptyString
                        | _ => hex
                        end in
            Some (Ascii.eqb d "1"%char, rand)
          else None
      | (_, EmptyString) => None
      end
  end.

(** [re.search(r"POWR=(\d)", resp)], giving [int(m.group(1))], on ASCII
    text. *)
Fixpoint search_powr (resp : string) : option Z :=
  match strip_prefix "POWR=" resp with
  | Some (String d _) =>
      if is_digit d then Some (digit_value d)
      else match resp with
           | String _ rest => search_powr rest
           | EmptyString => None
           end
  | _ => match resp with
         | String _ rest => search_powr rest
         | EmptyString => None
         end
  end.

(** [range(n)]. *)
Definition range (n : Z) : list Z := map Z.of_nat (seq 0 (Z.to_nat n)).

(** *** The network *)

(** How a read of one line turns out: the line, as the text that [decode]
    with errors ignored makes of its bytes, or an exception. The lines of
    this model are ASCII text. *)
Inductive read_outcome : Type :=
| Line (s : string)
| ReadFails (e : exn).

(** The script of one accepted connection: the outcome of each coming
    flush of the write buffer and of each coming read, and whether waiting
    for the close fails. Exhausted, a flush succeeds and a read times
    out. *)
Record Peer : Type := {
  drains : list (option exn);
  reads : list read_outcome;
  closing : option exn;
}.

Inductive event : Type :=
| Opened (c : nat)
| Wrote (c : nat) (data : string)
| Closed (c : nat)
| Slept (d : Z).

(** The clock, the connections ([next_id] numbers them, [is_open] holds
    those not closed yet, [peers] their scripts), the outcomes of the
    coming connection attempts ([dials]; none left: refused), and the trace
    of what the client did, newest first. *)
Record World : Type := {
  clock : Z;
  next_id : nat;
  is_open : gset nat;
  peers : gmap nat Peer;
  dials : list (exn + Peer);
  trace : list event;
}.

Definition set_clock (t : Z) (w : World) : World :=
  {| clock := t; next_id := next_id w; is_open := is_open w; peers := peers w;
     dials := dials w; trace := trace w |}.

Definition set_is_open (s : gset nat) (w : World) : World :=
  {| clock := clock w; next_id := next_id w; is_open := s; peers := peers w;
     dials := dials w; trace := trace w |}.

Definition set_peers (m : gmap nat Peer) (w : World) : World :=
  {| clock := clock w; next_id := next_id w; is_open := is_open w; peers := m;
     dials := dials w; trace := trace w |}.

Definition set_dials (l : list (exn + Peer)) (w : World) : World :=
  {| clock := clock w; next_id := next_id w; is_open := is_open w; peers := peers w;
     dials := l; trace := trace w |}.

Definition log (e : event) (w : World) : World :=
  {| clock := clock w; next_id := next_id w; is_open := is_open w; peers := peers w;
     dials := dials w; trace := e :: trace w |}.

(** A network on which nothing is open, with the given dial outcomes. *)
Definition network (l : list (exn + Peer)) : World :=
  {| clock := 0; next_id := 0; is_open := ∅; peers := ∅; dials := l; trace := [] |}.

Definition sleep (d : Z) : M World unit :=
  modify (fun w => log (Slept d) (set_clock (clock w + Z.max 0 d) w)).

(** A connection attempt: it fails after [tmo] at the latest, or yields
    the handle of a new open connection. *)
Definition dial (tmo : Z) : M World nat :=
  l <- gets dials ;;
  match l with
  | [] => raise ConnectionError
  | inl e :: rest => modify (set_dials rest) ;;; raise e
  | inr p :: rest =>
      c <- gets next_id ;;
      modify (fun w =>
        log (Opened c)
          {| clock := clock w; next_id := S c; is_open := {[c]} ∪ is_open w;
             peers := <[c := p]> (peers w); dials := rest; trace := trace w |}) ;;;
      ret c
  end.

Definition the_peer (c : nat) (w : World) : Peer :=
  match peers w !! c with
  | Some p => p
  | None => {| drains := []; reads := []; closing := None |}
  end.

(** [w.write(data)] or the successful part of [s.sendall(data)]. *)
Definition write (c : nat) (data : string) : M World unit :=
  modify (log (Wrote c data)).

(** [await w.drain()], or the outcome of [s.sendall]. *)
Definition drain (c : nat) : M World unit :=
  p <- gets (the_peer c) ;;
  match drains p with
  | [] => ret tt
  | o :: rest =>
      modify (fun w => set_peers (<[c := {| drains := rest; reads := reads p;
                                             closing := closing p |}]> (peers w)) w) ;;;
      match o with
      | None => ret tt
      | Some e => raise e
      end
  end.

(** One line read under the timeout [tmo]. *)
Definition read_line (c : nat) (tmo : Z) : M World string :=
  p <- gets (the_peer c) ;;
  match reads p with
  | [] => modify (fun w => set_clock (clock w + Z.max 0 tmo) w) ;;; raise TimeoutError
  | o :: rest =>
      modify (fun w => set_peers (<[c := {| drains := drains p; reads := rest;
                                             closing := closing p |}]> (peers w)) w) ;;;
      match o with
      | Line s => ret s
      | ReadFails TimeoutError =>
          modify (fun w => set_clock (clock w + Z.max 0 tmo) w) ;;; raise TimeoutError
      | ReadFails e => raise e
      end
  end.

(** [w.close()] or [s.close()]. *)
Definition close (c : nat) : M World unit :=
  modify (fun w => log (Closed c) (set_is_open (is_open w ∖ {[c]}) w)).

(** [await w.wait_closed()], or [s.shutdown(...)]. *)
Definition wait_closed (c : nat) : M World unit :=
  p <- gets (the_peer c) ;;
  match closing p with
  | None => ret tt
  | Some e => raise e
  end.

(** *** The clients *)

Record Config : Type := {
  password : string;
  timeout : Z;
  retries : Z;
  input_map : gmap string string;
}.

(** [PJLinkClient.input_map]. *)
Definition default_input_map : gmap string string :=
  <["Computer1" := "11"]> (<["Computer2" := "12"]> (<["HDMI1" := "32"]>
    (<["HDMI2" := "33"]> (<["HDBaseT" := "56"]> ∅)))).

(** [PJLinkSocketClient.INPUT_MAP]. *)
Definition INPUT_MAP : gmap string string :=
  <["HDMI1" := "31"]> (<["HDMI2" := "32"]> (<["AUTO" := "A0"]> ∅)).

(** [PJLinkClient.__init__], with its default timeout and retries unless
    given. *)
Definition new_client (password : string) (timeout retries : Z) : Config :=
  {| password := password; timeout := timeout; retries := retries;
     input_map := default_input_map |}.

Section clients.

(** [hashlib.md5(s.encode()).hexdigest()]. *)
Variable md5_hex : string -> string.

(** **** [PJLinkClient] (asyncio) *)

Definition _open (cfg : Config) : M World nat := dial (timeout cfg).

Definition _handshake (cfg : Config) (c : nat) : M World (bool * string) :=
  banner <- read_line c (timeout cfg) ;;
  let text := strip banner in
  match match_banner text with
  | None => raise RuntimeError
  | Some r => ret r
  end.

(** The body of the [try] of [_send_cmd]: one exchange. *)
Definition exchange (cfg : Config) (cmd : string) : M World string :=
  c <- _open cfg ;;
  write c CR ;;; drain c ;;;
  r <- _handshake cfg c ;;
  let '(need_auth, rand) := r in
  let payload := "%1" ++ cmd ++ CR in
  payload <-
    (if need_auth then
       if String.eqb (password cfg) "" then
         close c ;;; wait_closed c ;;; raise RuntimeError
       else
         let auth := md5_hex (rand ++ password cfg) in
         ret (auth ++ payload)
     else ret payload) ;;
  write c payload ;;; drain c ;;;
  resp <- read_line c (timeout cfg) ;;
  close c ;;;
  try_except (wait_closed c) (fun _ => ret tt) ;;;
  ret (strip resp).

(** The [for attempt in range(self.retries + 1)] loop and the final
    [raise]. *)
Fixpoint send_loop (cfg : Config) (cmd : string) (attempts : list Z)
    (last_exc : option exn) : M World string :=
  match attempts with
  | [] => raise (match last_exc with
                 | Some e => e
                 | None => RuntimeError
                 end)
  | attempt :: rest =>
      o <- try_except
             (resp <- exchange cfg cmd ;; ret (inl resp))
             (fun e => sleep (400 * ms * (attempt + 1)) ;;; ret (inr e)) ;;
      match o with
      | inl resp => ret resp
      | inr e => send_loop cfg cmd rest (Some e)
      end
  end.

Definition _send_cmd (cfg : Config) (cmd : string) : M World string :=
  send_loop cfg cmd (range (retries cfg + 1)) None.

Definition power (cfg : Config) (on : bool) : M World bool :=
  resp <- _send_cmd cfg ("POWR " ++ (if on then "1" else "0")) ;;
  ret (contains "OK" resp).

Definition set_input (cfg : Config) (source : string) : M World bool :=
  match input_map cfg !! upper source with
  | None | Some "" => raise ValueError
  | Some code =>
      resp <- _send_cmd cfg ("INPT " ++ code) ;;
      ret (contains "OK" resp)
  end.

Definition get_power (cfg : Config) : M World (option Z) :=
  resp <- _send_cmd cfg "POWR ?" ;;
  ret (search_powr resp).

(** **** [PJLinkSocketClient] (blocking sockets) *)

Definition CRLF : string := String "013"%char (String "010"%char EmptyString).

(** [s.sendall(data)]. *)
Definition sendall (c : nat) (data : string) : M World unit :=
  drain c ;;; write c data.

(** [_readline]: the text read up to a line end, the end of the stream or
    the deadline, stripped; an exception of [recv] propagates. *)
Definition _readline (cfg : Config) (c : nat) : M World string :=
  s <- read_line c (timeout cfg) ;;
  ret (strip s).

(** The [try] statement of a turn of that loop: the line read, or the
    empty text after a timeout, which the handler answers with a nudge. *)
Definition banner_read (cfg : Config) (c : nat) : M World string :=
  try_except_only TimeoutError
    (_readline cfg c)
    (try_except (sendall c CRLF) (fun _ => ret tt) ;;; ret "").

(** The [while time.time() < t_end] loop of the blocking [_handshake],
    giving the banner, empty when the time ran out. Every turn that does
    not find the banner sleeps 0.1 s, which bounds the turns. *)
Fixpoint banner_loop (fuel : nat) (cfg : Config) (c : nat) (t_end : Z) : M World string :=
  now <- gets clock ;;
  if (now <? t_end)%Z then
    match fuel with
    | O => diverge
    | S fuel' =>
        line <- banner_read cfg c ;;
        match line with
        | EmptyString => sleep (100 * ms) ;;; banner_loop fuel' cfg c t_end
        | _ => ret line
        end
    end
  else ret "".

Definition sync_handshake (cfg : Config) (c : nat) : M World (bool * string) :=
  try_except (sendall c CRLF) (fun _ => ret tt) ;;;
  now <- gets clock ;;
  let budget := Z.max (2 * sec) (timeout cfg) in
  banner <- banner_loop (S (Z.to_nat (budget / (100 * ms)))) cfg c (now + budget) ;;
  match banner with
  | EmptyString => raise TimeoutError
  | _ =>
      match match_banner banner with
      | None => raise RuntimeError
      | Some r => ret r
      end
  end.

(** The [try] body of [_send_cmd_once]. *)
Definition once_body (cfg : Config) (cmd : string) (c : nat) : M World string :=
  r <- sync_handshake cfg c ;;
  let '(need_auth, nonce) := r in
  let payload := "%1" ++ cmd ++ CR in
  payload <-
    (if need_auth then
       if String.eqb (password cfg) "" then raise RuntimeError
       else ret (md5_hex (nonce ++ password cfg) ++ payload)
     else ret payload) ;;
  sendall c payload ;;;
  _readline cfg c.

(** Its [finally] clause. *)
Definition once_finally (c : nat) : M World unit :=
  try_except (wait_closed c) (fun _ => ret tt) ;;; close c.

Definition _send_cmd_once (cfg : Config) (cmd : string) : M World string :=
  c <- _open cfg ;;
  try_finally (once_body cfg cmd c) (once_finally c).

Fixpoint sync_send_loop (cfg : Config) (cmd : string) (attempts : list Z)
    (last_exc : option exn) : M World string :=
  match attempts with
  | [] => raise (match last_exc with
                 | Some e => e
                 | None => RuntimeError
                 end)
  | attempt :: rest =>
      o <- try_except
             (resp <- _send_cmd_once cfg cmd ;; ret (inl resp))
             (fun e => sleep (400 * ms * (attempt + 1)) ;;; ret (inr e)) ;;
      match o with
      | inl resp => ret resp
      | inr e => sync_send_loop cfg cmd rest (Some e)
      end
  end.

Definition sync_send_cmd (cfg : Config) (cmd : string) : M World string :=
  sync_send_loop cfg cmd (range (retries cfg + 1)) None.

(** [PJLinkSocketClient.set_input]. *)
Definition sync_set_input (cfg : Config) (source : string) : M World bool :=
  let source := upper (match source with
                       | EmptyString => "HDMI1"
                       | _ => source
                       end) in
  match INPUT_MAP !! source with
  | None | Some "" => raise ValueError
  | Some code =>
      resp <- sync_send_cmd cfg ("INPT " ++ code) ;;
      if ends_with "=OK" resp then ret true
      else if contains "ERR" resp then raise RuntimeError
      else ret false
  end.

(** *** Specification vocabulary *)

(** A step that opens and closes nothing, and does not turn the clock
    back. *)
Definition calm (w w' : World) : Prop :=
  is_open w' = is_open w /\ next_id w' = next_id w /\ (clock w <= clock w')%Z.

(** The world right after a successful [dial]. *)
Definition dialled (p : Peer) (rest : list (exn + Peer)) (w : World) : World :=
  log (Opened (next_id w))
    {| clock := clock w; next_id := S (next_id w);
       is_open := {[next_id w]} ∪ is_open w;
       peers := <[next_id w := p]> (peers w); dials := rest; trace := trace w |}.

End clients.

(** *** Concrete peers *)

(** A projector that answers the connection with a line that is no PJLink
    banner. *)
Definition babbling : Peer :=
  {| drains := []; reads := [Line ("HELLO" ++ CR)]; closing := None |}.

(** A projector without authentication that accepts the command. *)
Definition obliging : Peer :=
  {| drains := [];
     reads := [Line ("PJLINK 0" ++ CR); Line ("%1POWR=OK" ++ CR)];
     closing := None |}.

(** A projector that asks for authentication. *)
Definition guarded : Peer :=
  {| drains := [];
     reads := [Line ("PJLINK 1 ABCDEF01" ++ CR); Line ("%1POWR=OK" ++ CR)];
     closing := None |}.

(** The digest is not computed on a path without authentication; runs on
    such paths take this function in its place. *)
Definition no_digest (s : string) : string := s.

(** A projector that accepts the connection and never sends a line. *)
Definition mute : Peer := {| drains := []; reads := []; closing := None |}.

(** *** More specification vocabulary *)

(** The lengths of the sleeps of a trace, newest first. *)
Fixpoint naps (tr : list event) : list Z :=
  match tr with
  | [] => []
  | Slept d :: rest => d :: naps rest
  | _ :: rest => naps rest
  end.

(** The back-off sleeps after [j] failed attempts, newest first: 0.4 s
    times the number of the attempt. *)
Definition backoff (j : nat) : list Z :=
  rev (map (fun k : nat => 400 * ms * (Z.of_nat k + 1))%Z (seq 0 j)).

(** A step that does not sleep. *)
Definition awake (w w' : World) : Prop := naps (trace w') = naps (trace w).

(** Every open connection has a handle below the next one. *)
Definition ids_fresh (w : World) : Prop :=
  forall c, c ∈ is_open w -> (c < next_id w)%nat.

(** A text of hexadecimal digits. *)
Fixpoint all_hex (s : string) : bool :=
  match s with
  | EmptyString => true
  | String c rest => is_hex c && all_hex rest
  end.

End PJLink.

(* ================================================================== *)
(** ** PowerSequencer: [_power_sequence] and [_wait_power_state] *)

Module Sequencer.

Open Scope string_scope.

Open Scope list_scope.

Open Scope Z_scope.

(** How a call on a collaborator turns out, and the time it takes. *)
Inductive outcome (A : Type) : Type :=
| Returns (a : A) (took : N)
| Fails (e : exn) (took : N).

Arguments Returns {A} a took.

Arguments Fails {A} e took.

(** What the sequence did, each with the clock at its start. *)
Inductive event : Type :=
| RelaySet (t : Z) (channel : Z) (on : bool)
| Slept (t : Z) (d : Z)
| PowerCmd (t : Z) (on : bool)
| PowerQuery (t : Z)
| Published (text : string).

(** The clock of the event loop, the text of the public state, the trace
    (newest first), and the script of the collaborators: the outcomes of
    the coming calls of [pj.power], [pj.get_power] and
    [shelly_main.set_relay], and by how much each coming sleep overshoots.
    The projector client and the relay client are consumed through these
    outcomes, so the theorems hold for every behaviour of theirs. An
    exhausted script means a projector call that fails at once, a relay
    call that returns [False], and an exact sleep. *)
Record World : Type := {
  clock : Z;
  text : string;
  trace : list event;
  powers : list (outcome bool);
  queries : list (outcome (option Z));
  relays : list (outcome bool);
  overshoot : list N;
}.

(** The part of [devices] the sequence reads. *)
Record Config : Type := {
  nic_warmup : Z;
  ch_main : Z;
}.

Definition start (t0 : Z) (ps : list (outcome bool)) (qs : list (outcome (option Z)))
    (rs : list (outcome bool)) (os : list N) : World :=
  {| clock := t0; text := ""; trace := []; powers := ps; queries := qs;
     relays := rs; overshoot := os |}.

Definition log (e : event) (w : World) : World :=
  {| clock := clock w; text := text w; trace := e :: trace w; powers := powers w;
     queries := queries w; relays := relays w; overshoot := overshoot w |}.

Definition advance (d : Z) (w : World) : World :=
  {| clock := clock w + d; text := text w; trace := trace w; powers := powers w;
     queries := queries w; relays := relays w; overshoot := overshoot w |}.

Definition set_powers (l : list (outcome bool)) (w : World) : World :=
  {| clock := clock w; text := text w; trace := trace w; powers := l;
     queries := queries w; relays := relays w; overshoot := overshoot w |}.

Definition set_queries (l : list (outcome (option Z))) (w : World) : World :=
  {| clock := clock w; text := text w; trace := trace w; powers := powers w;
     queries := l; relays := relays w; overshoot := overshoot w |}.

Definition set_relays (l : list (outcome bool)) (w : World) : World :=
  {| clock := clock w; text := text w; trace := trace w; powers := powers w;
     queries := queries w; relays := l; overshoot := overshoot w |}.

Definition set_overshoot (l : list N) (w : World) : World :=
  {| clock := clock w; text := text w; trace := trace w; powers := powers w;
     queries := queries w; relays := relays w; overshoot := l |}.

(** The end of a scripted call: the clock moves by the time taken. *)
Definition finish {A} (o : outcome A) : M World A :=
  match o with
  | Returns a took => modify (advance (Z.of_N took)) ;;; ret a
  | Fails e took => modify (advance (Z.of_N took)) ;;; raise e
  end.

(** [stato = get_public_state(); stato['text'] = s; set_public_state(stato)]. *)
Definition publish (s : string) : M World unit :=
  modify (fun w => log (Published s)
    {| clock := clock w; text := s; trace := trace w; powers := powers w;
       queries := queries w; relays := relays w; overshoot := overshoot w |}).

(** [await asyncio.sleep(d)]: at least [d]; no wait for [d <= 0]. *)
Definition sleep (d : Z) : M World unit :=
  modify (fun w => log (Slept (clock w) d) w) ;;;
  o <- gets overshoot ;;
  match o with
  | [] => modify (advance (Z.max 0 d))
  | extra :: rest =>
      modify (fun w => advance (Z.max 0 d + Z.of_N extra) (set_overshoot rest w))
  end.

(** [await pj.power(on)]. *)
Definition pj_power (on : bool) : M World bool :=
  modify (fun w => log (PowerCmd (clock w) on) w) ;;;
  l <- gets powers ;;
  match l with
  | [] => raise TimeoutError
  | o :: rest => modify (set_powers rest) ;;; finish o
  end.

(** [await pj.get_power()]. *)
Definition pj_get_power : M World (option Z) :=
  modify (fun w => log (PowerQuery (clock w)) w) ;;;
  l <- gets queries ;;
  match l with
  | [] => raise TimeoutError
  | o :: rest => modify (set_queries rest) ;;; finish o
  end.

(** [await shelly_main.set_relay(channel, on)]. *)
Definition set_relay (channel : Z) (on : bool) : M World bool :=
  modify (fun w => log (RelaySet (clock w) channel on) w) ;;;
  l <- gets relays ;;
  match l with
  | [] => ret false
  | o :: rest => modify (set_relays rest) ;;; finish o
  end.

Definition poll_step : Z := 1500 * ms.

Definition state_eqb (st : option Z) (desired : Z) : bool :=
  match st with
  | Some v => v =? desired
  | None => false
  end.

(** The [try] statement of a turn of [_wait_power_state]: the early
    [return True, st] if the state is the desired one, and otherwise the
    value of [st] after the statement. *)
Definition poll (desired : Z) (st : option Z) :
    M World (option (bool * option Z) * option Z) :=
  try_except
    (st' <- pj_get_power ;;
     if state_eqb st' desired then
       publish "Sistema pronto" ;;; ret (Some (true, st'), st')
     else ret (None, st'))
    (fun _ => publish "Errore accensione proiettore" ;;; ret (None, st)).

(** The [while] loop of [_wait_power_state]. A turn that goes on sleeps
    1.5 s, which bounds the turns by the fuel given below. *)
Fixpoint wait_loop (fuel : nat) (desired t_end : Z) (st : option Z) :
    M World (bool * option Z) :=
  now <- gets clock ;;
  if now <? t_end then
    match fuel with
    | O => diverge
    | S fuel' =>
        o <- poll desired st ;;
        match o with
        | (Some r, _) => ret r
        | (None, st') =>
            sleep poll_step ;;;
            publish "Errore accensione proiettore" ;;;
            wait_loop fuel' desired t_end st'
        end
    end
  else ret (false, st).

Definition _wait_power_state (desired budget_s : Z) : M World (bool * option Z) :=
  now <- gets clock ;;
  let t_end := now + budget_s * sec in
  wait_loop (S (Z.to_nat (budget_s * sec / poll_step))) desired t_end (Some 4%Z).

(** The power-on branch of [_power_sequence]. *)
Definition power_on (cfg : Config) : M World unit :=
  ok <- set_relay (ch_main cfg) true ;;
  publish "Alimentazione -> ON" ;;;
  publish "Alimentazione --> ON" ;;;
  sleep (nic_warmup cfg * sec) ;;;
  try_except
    (okp <- pj_power true ;; publish "Proiettore -> ON")
    (fun _ => publish "Errore accensione proiettore").

(** The command of the power-off branch, with its handler. *)
Definition power_off_command : M World unit :=
  try_except (okp <- pj_power false ;; ret tt) (fun _ => ret tt).

Definition power_off : M World unit :=
  power_off_command ;;;
  off <- _wait_power_state 0 90 ;;
  ret tt.

Definition _power_sequence (cfg : Config) (on : bool) : M World unit :=
  if on then power_on cfg else power_off.

(** *** Specification vocabulary *)

(** The times at which the projector state was queried, newest first. *)
Fixpoint poll_times (tr : list event) : list Z :=
  match tr with
  | [] => []
  | PowerQuery t :: rest => t :: poll_times rest
  | _ :: rest => poll_times rest
  end.

(** Adjacent times of a list (newest first) lie at least [gap] apart. *)
Fixpoint apart (gap : Z) (ts : list Z) : Prop :=
  match ts with
  | [] => True
  | t2 :: rest =>
      match rest with
      | [] => True
      | t1 :: _ => t1 + gap <= t2
      end /\ apart gap rest
  end.

(** No scripted query returns the desired state. *)
Definition never_reaches (desired : Z) (qs : list (outcome (option Z))) : bool :=
  forallb (fun o => match o with
                    | Returns st _ => negb (state_eqb st desired)
                    | Fails _ _ => true
                    end) qs.

(** Every scripted query answers or fails at once. *)
Definition instant (qs : list (outcome (option Z))) : bool :=
  forallb (fun o => match o with
                    | Returns _ took | Fails _ took => N.eqb took 0
                    end) qs.

(** **** Power off *)

(** The time a scripted call takes: that of the head of its script;
    a call on an exhausted script ends at once. *)
Definition took_of {A} (l : list (outcome A)) : Z :=
  match l with
  | [] => 0
  | Returns _ d :: _ | Fails _ d :: _ => Z.of_N d
  end.

(** The events a wait for a power state leaves in the trace. *)
Definition polling (e : event) : bool :=
  match e with
  | PowerQuery _ | Slept _ _ | Published _ => true
  | _ => false
  end.

(** What a wait for the state [desired] did, started at the clock [t0]
    with the script [qs] of the projector and the deadline [t_end]. Its
    events [new] (newest first) are queries, sleeps and texts; the queries
    consumed the script in order, each started before the deadline, and
    they lie at least 1.5 s apart. With the result [True] the newest query
    is the first one that returned [desired], the wait ended when it
    returned, and the text is the ready text; with [False] no query
    returned [desired], and the deadline has passed. *)
Definition waited (desired t0 t_end : Z) (qs : list (outcome (option Z)))
    (ok : bool) (st : option Z) (new : list event) (w' : World) : Prop :=
  let asked := firstn (length (poll_times new)) qs in
  forallb polling new = true /\
  queries w' = skipn (length (poll_times new)) qs /\
  Forall (fun t => t0 <= t < t_end) (poll_times new) /\
  apart poll_step (poll_times new) /\
  Z.of_nat (length (poll_times new)) * poll_step < Z.max 0 (t_end - t0) + poll_step /\
  if ok then
    exists t d older pre,
      new = Published "Sistema pronto" :: PowerQuery t :: older /\
      asked = pre ++ [Returns (Some desired) d] /\
      never_reaches desired pre = true /\
      st = Some desired /\ clock w' = t + Z.of_N d /\ text w' = "Sistema pronto"
  else never_reaches desired asked = true /\ t_end <= clock w'.

(** What the claim says of a power-off run from the world [w]: it returns
    without raising; the power-off command is issued first, and what
    follows is a wait for Standby (state 0) with a deadline 90 s after the
    command ended, of 60 queries at most. Against a projector that never
    reports Standby the wait runs to the deadline, and in an environment
    without delays it ends exactly on it, after 60 queries. *)
Definition polls_until_standby_or_budget (cfg : Config) (w : World) : Prop :=
  let w' := exec (_power_sequence cfg false) w in
  let t1 := clock w + took_of (powers w) in
  let t_end := t1 + 90 * sec in
  eval (_power_sequence cfg false) w = Ok tt /\
  exists ok st new,
    trace w' = new ++ PowerCmd (clock w) false :: trace w /\
    waited 0 t1 t_end (queries w) ok st new w' /\
    (length (poll_times new) <= 60)%nat /\
    (never_reaches 0 (queries w) = true ->
     ok = false /\
     (instant (queries w) = true -> overshoot w = [] ->
      clock w' = t_end /\ length (poll_times new) = 60%nat)).

(** A projector that stays in the cooling state and answers at once. *)
Definition cooling : list (outcome (option Z)) := repeat (Returns (Some 2) 0%N) 100.

End Sequencer.

(* ================================================================== *)
(** ** RelayLink: [ShellyHTTP] *)

Module Shelly.

Import Stdlib.Strings.Ascii.

Open Scope string_scope.

Open Scope Z_scope.

(** [s.rstrip("/")]. *)
Fixpoint rstrip_slash (s : string) : string :=
  match s with
  | EmptyString => EmptyString
  | String c rest =>
      match rstrip_slash rest with
      | EmptyString => if Ascii.eqb c "/" then EmptyString else String c EmptyString
      | kept => String c kept
      end
  end.

(** Truth of an optional text: [None] and the empty text are false. *)
Definition truthy (o : option string) : bool :=
  match o with
  | Some (String _ _) => true
  | _ => false
  end.

(** [a or b]. *)
Definition or_else (a b : option string) : option string :=
  if truthy a then a else b.

Record Client : Type := {
  base : string;
  timeout : Z;
}.

(** [ShellyHTTP.__init__]. *)
Definition new_client (base base_url host : option string) (timeout : Z) : result Client :=
  let from_host := match host with
                   | Some (String c h) => Some ("http://" ++ String c h)
                   | _ => None
                   end in
  match or_else (or_else base_url base) from_host with
  | Some (String c u) => Ok {| base := rstrip_slash (String c u); timeout := timeout |}
  | _ => Raise ValueError
  end.

(** How a request turns out: a response with its status code, or an
    exception of the HTTP client; and the time it takes. *)
Inductive reply : Type :=
| Status (code : Z) (took : N)
| Fault (e : exn) (took : N).

(** A request as the client issued it: [POST url] with the JSON body
    [{"id": id, "on": on}], at the time [at_]. *)
Record Request : Type := {
  at_ : Z;
  url : string;
  id : Z;
  on : bool;
}.

(** The clock, the requests issued (newest first), and the script of the
    device: the outcome of each coming request, and by how much each
    coming sleep overshoots. An exhausted script means a device that
    cannot be reached, and an exact sleep. *)
Record World : Type := {
  clock : Z;
  posts : list Request;
  replies : list reply;
  overshoot : list N;
}.

Definition advance (d : Z) (w : World) : World :=
  {| clock := clock w + d; posts := posts w; replies := replies w;
     overshoot := overshoot w |}.

(** [await asyncio.sleep(d)]. *)
Definition sleep (d : Z) : M World unit :=
  o <- gets overshoot ;;
  match o with
  | [] => modify (advance (Z.max 0 d))
  | extra :: rest =>
      modify (fun w => {| clock := clock w + Z.max 0 d + Z.of_N extra; posts := posts w;
                          replies := replies w; overshoot := rest |})
  end.

(** [await c.post(url, json=payload)], giving the status code. *)
Definition post (u : string) (relay : Z) (state : bool) : M World Z :=
  modify (fun w => {| clock := clock w;
                      posts := {| at_ := clock w; url := u; id := relay; on := state |}
                               :: posts w;
                      replies := replies w; overshoot := overshoot w |}) ;;;
  l <- gets replies ;;
  match l with
  | [] => raise ConnectionError
  | r :: rest =>
      modify (fun w => {| clock := clock w; posts := posts w; replies := rest;
                          overshoot := overshoot w |}) ;;;
      match r with
      | Status code took => modify (advance (Z.of_N took)) ;;; ret code
      | Fault e took => modify (advance (Z.of_N took)) ;;; raise e
      end
  end.

(** [set_relay], for an integer [relay]. *)
Definition set_relay (c : Client) (relay : Z) (state : bool) : M World bool :=
  let u := base c ++ "/rpc/Switch.Set" in
  code <- post u relay state ;;
  ret (code =? 200).

(** [pulse]: the length [ms_] in milliseconds. *)
Definition pulse (c : Client) (relay ms_ : Z) : M World bool :=
  ok1 <- set_relay c relay true ;;
  sleep (Z.max ms_ 0 * ms) ;;;
  ok2 <- set_relay c relay false ;;
  ret (ok1 && ok2).

(** *** Specification vocabulary *)

Definition switch_url (c : Client) : string := base c ++ "/rpc/Switch.Set".

Definition text_of (o : option string) : string :=
  match o with
  | Some s => s
  | None => ""
  end.

End Shelly.

(* ================================================================== *)
(** ** DeviceConfig: [_deep_merge] and [devices] *)

Module DeviceConfig.

Open Scope string_scope.

Open Scope Z_scope.

(** A value of the configuration, as [yaml.safe_load] and the defaults
    give it; a mapping keeps the order of its keys. *)
Inductive value : Type :=
| VNone
| VBool (b : bool)
| VInt (i : Z)
| VFloat (f : float)
| VStr (s : string)
| VList (l : list value)
| VDict (d : list (string * value)).

Definition dict : Type := list (string * value).

(** [d.get(k)]. *)
Fixpoint get (k : string) (d : dict) : option value :=
  match d with
  | [] => None
  | (k', v) :: rest => if String.eqb k k' then Some v else get k rest
  end.

(** [d[k] = v]: the value of an existing key is replaced in its place, a
    new key goes to the end. *)
Fixpoint set (k : string) (v : value) (d : dict) : dict :=
  match d with
  | [] => [(k, v)]
  | (k', v') :: rest =>
      if String.eqb k k' then (k', v) :: rest else (k', v') :: set k v rest
  end.

(** What [_deep_merge] stores under a key that holds [old] and is
    overridden by [new]: the merge of the two when both are mappings, and
    [new] otherwise. The inner loop is the [for] loop of [_deep_merge]. *)
Fixpoint merged (old new : value) {struct new} : value :=
  match new, old with
  | VDict override, VDict base =>
      VDict ((fix loop (items out : dict) {struct items} : dict :=
                match items with
                | [] => out
                | (k, v) :: rest =>
                    loop rest (set k (match get k out with
                                      | Some cur => merged cur v
                                      | None => v
                                      end) out)
                end) override base)
  | _, _ => new
  end.

(** [_deep_merge(base, override)], for an [override] that is a mapping. *)
Definition _deep_merge (base override : dict) : dict :=
  match merged (VDict base) (VDict override) with
  | VDict out => out
  | _ => base
  end.

(** The value [_deep_merge] stores for the item [(k, v)] of the override
    when the key holds [cur]. *)
Definition stored (cur : option value) (v : value) : value :=
  match v, cur with
  | VDict dv, Some (VDict db) => VDict (_deep_merge db dv)
  | _, _ => v
  end.

(** [DEFAULT_DEVICES]. *)
Definition DEFAULT_DEVICES : dict :=
  [("projector", VDict [("host", VStr "192.168.1.220"); ("port", VInt 4352);
                        ("password", VStr "1234"); ("nic_warmup_s", VInt 12);
                        ("pjlink_timeout_s", VInt 8); ("pjlink_retries", VInt 4);
                        ("post_power_on_delay_s", VFloat 1.5)]);
   ("shelly1", VDict [("base", VStr "http://192.168.1.10"); ("ch1", VInt 0);
                      ("ch2", VInt 1)]);
   ("shelly2", VDict [("base", VStr "http://192.168.1.11"); ("ch1", VInt 0);
                      ("ch2", VInt 1)])].

(** [devices], for the mapping [_yaml] read from the file. *)
Definition devices (_yaml : dict) : dict := _deep_merge DEFAULT_DEVICES _yaml.

End DeviceConfig.

(* ================================================================== *)
(** * Part II: the properties *)

(* ================================================================== *)
(** ** Reasoning about computations *)

Section respects_facts.

Context {W : Type} (R : W -> W -> Prop) `{!PreOrder R}.

Lemma respects_ret {A} (a : A) : respects R (ret a).
Proof. intros w. cbn. reflexivity. Qed.

Lemma respects_raise {A} (e : exn) : respects R (@raise W A e).
Proof. intros w. cbn. reflexivity. Qed.

Lemma respects_diverge {A} : respects R (@diverge W A).
Proof. intros w. cbn. reflexivity. Qed.

Lemma respects_gets {A} (f : W -> A) : respects R (gets f).
Proof. intros w. cbn. reflexivity. Qed.

Lemma respects_lift {A} (r : result A) : respects R (lift r).
Proof. intros w. cbn. reflexivity. Qed.

Lemma respects_modify (f : W -> W) : (forall w, R w (f w)) -> respects R (modify f).
Proof. intros Hf w. cbn. apply Hf. Qed.

Lemma respects_bind {A B} (m : M W A) (k : A -> M W B) :
  respects R m -> (forall a, respects R (k a)) -> respects R (bind m k).
Proof.
  intros Hm Hk w. unfold bind. specialize (Hm w).
  destruct (m w) as [[a|e|] w']; cbn in *; [|assumption..].
  etransitivity; [exact Hm | apply Hk].
Qed.

Lemma respects_try_except {A} (m : M W A) (h : exn -> M W A) :
  respects R m -> (forall e, respects R (h e)) -> respects R (try_except m h).
Proof.
  intros Hm Hh w. unfold try_except. specialize (Hm w).
  destruct (m w) as [[a|e|] w']; cbn in *; [assumption| |assumption].
  etransitivity; [exact Hm | apply Hh].
Qed.

Lemma respects_try_except_only {A} (cls : exn) (m h : M W A) :
  respects R m -> respects R h -> respects R (try_except_only cls m h).
Proof.
  intros Hm Hh w. unfold try_except_only. specialize (Hm w).
  destruct (m w) as [[a|e|] w']; cbn in *; [assumption| |assumption].
  destruct (exn_eqb e cls); [|assumption].
  etransitivity; [exact Hm | apply Hh].
Qed.

Lemma respects_try_finally {A} (m : M W A) (f : M W unit) :
  respects R m -> respects R f -> respects R (try_finally m f).
Proof.
  intros Hm Hf w. unfold try_finally. specialize (Hm w).
  destruct (m w) as [r w']. specialize (Hf w').
  destruct r as [a|e0|]; [| |assumption];
    destruct (f w') as [[u|e|] w'']; cbn in *; etransitivity; eassumption.
Qed.

Lemma respects_for_each {A} (xs : list A) (body : A -> M W unit) :
  (forall x, respects R (body x)) -> respects R (for_each xs body).
Proof.
  intros Hb. induction xs as [|x xs IH]; cbn [for_each].
  - apply respects_ret.
  - apply respects_bind; [apply Hb | intros _; exact IH].
Qed.

End respects_facts.

(** Inversion of a [bind] that returned. *)
Lemma bind_ok {W A B} (m : M W A) (k : A -> M W B) (w w2 : W) (b : B) :
  bind m k w = (Ok b, w2) ->
  exists a w1, m w = (Ok a, w1) /\ k a w1 = (Ok b, w2).
Proof.
  unfold bind. destruct (m w) as [[a|e|] w1]; [eauto | discriminate..].
Qed.

(** Evaluation of a [bind] from the outcome of its first part. *)
Lemma bind_step_ok {W A B} (m : M W A) (k : A -> M W B) (w w1 : W) (a : A) :
  m w = (Ok a, w1) -> bind m k w = k a w1.
Proof. intros H. unfold bind. now rewrite H. Qed.

Lemma bind_step_raise {W A B} (m : M W A) (k : A -> M W B) (w w1 : W) (e : exn) :
  m w = (Raise e, w1) -> bind m k w = (Raise e, w1).
Proof. intros H. unfold bind. now rewrite H. Qed.

Lemma bind_step_diverge {W A B} (m : M W A) (k : A -> M W B) (w w1 : W) :
  m w = (Diverge, w1) -> bind m k w = (Diverge, w1).
Proof. intros H. unfold bind. now rewrite H. Qed.

Section total_facts.

Context {W : Type}.

Lemma total_ret {A} (a : A) : total (@ret W A a).
Proof. intros w. discriminate. Qed.

Lemma total_raise {A} (e : exn) : total (@raise W A e).
Proof. intros w. discriminate. Qed.

Lemma total_gets {A} (f : W -> A) : total (gets f).
Proof. intros w. discriminate. Qed.

Lemma total_modify (f : W -> W) : total (modify f).
Proof. intros w. discriminate. Qed.

Lemma total_lift {A} (r : result A) : r <> Diverge -> total (@lift W A r).
Proof. intros Hr w. exact Hr. Qed.

Lemma total_bind {A B} (m : M W A) (k : A -> M W B) :
  total m -> (forall a, total (k a)) -> total (bind m k).
Proof.
  intros Hm Hk w. unfold bind. specialize (Hm w).
  destruct (m w) as [[a|e|] w']; cbn in *; [apply Hk | discriminate | congruence].
Qed.

Lemma total_try_except {A} (m : M W A) (h : exn -> M W A) :
  total m -> (forall e, total (h e)) -> total (try_except m h).
Proof.
  intros Hm Hh w. unfold try_except. specialize (Hm w).
  destruct (m w) as [[a|e|] w']; cbn in *; [discriminate | apply Hh | congruence].
Qed.

Lemma total_try_except_only {A} (cls : exn) (m h : M W A) :
  total m -> total h -> total (try_except_only cls m h).
Proof.
  intros Hm Hh w. unfold try_except_only. specialize (Hm w).
  destruct (m w) as [[a|e|] w']; cbn in *; [discriminate | | congruence].
  destruct (exn_eqb e cls); [apply Hh | discriminate].
Qed.

Lemma total_try_finally {A} (m : M W A) (f : M W unit) :
  total m -> total f -> total (try_finally m f).
Proof.
  intros Hm Hf w. unfold try_finally. specialize (Hm w).
  destruct (m w) as [r w']. specialize (Hf w').
  destruct r as [a|e0|]; [| |cbn in Hm; congruence];
    destruct (f w') as [[u|e|] w'']; cbn in *; congruence.
Qed.

Lemma total_for_each {A} (xs : list A) (body : A -> M W unit) :
  (forall x, total (body x)) -> total (for_each xs body).
Proof.
  intros Hb. induction xs as [|x xs IH]; cbn [for_each].
  - apply total_ret.
  - apply total_bind; [apply Hb | intros _; exact IH].
Qed.

End total_facts.

(* ================================================================== *)
(** ** DbCodeTable *)

Module DbCodeFacts.

Import DbCode.

Lemma all_codes_spec (c : Z) : 0 <= c <= 400 -> In c all_codes.
Proof.
  intros Hc. unfold all_codes. apply in_map_iff.
  exists (Z.to_nat c). split; [lia |]. apply in_seq. lia.
Qed.

Lemma roundtrips_all : forallb roundtrips all_codes = true.
Proof. vm_compute. reflexivity. Qed.

(** The conversion pair is an exact inverse on the whole table. *)
Lemma roundtrip_table (c : Z) : 0 <= c <= 400 -> roundtrip c = Ok c.
Proof.
  intros Hc. pose proof roundtrips_all as Hall.
  rewrite forallb_forall in Hall.
  specialize (Hall c (all_codes_spec c Hc)).
  unfold roundtrips in Hall. destruct (roundtrip c) as [c'|e|]; [|discriminate..].
  apply Z.eqb_eq in Hall. now subst.
Qed.

(** [code_to_db] raises exactly outside the table. *)
Lemma code_to_db_in_range (c : Z) :
  0 <= c <= 400 -> exists db, code_to_db c = Ok db.
Proof.
  intros Hc. unfold code_to_db.
  replace ((0 <=? c) && (c <=? 400)) with true by (symmetry; apply andb_true_iff; lia).
  cbn [negb]. destruct (c <=? 80); [eauto |]. destruct (c <=? 280); eauto.
Qed.

Lemma code_to_db_out_of_range (c : Z) :
  c < 0 \/ 400 < c -> code_to_db c = Raise ValueError.
Proof.
  intros Hc. unfold code_to_db.
  replace ((0 <=? c) && (c <=? 400)) with false; [reflexivity |].
  symmetry. apply andb_false_iff. lia.
Qed.

(** C6. For every code c of 0, 1, 80, 81, 280, 281 and 400,
    db_to_code(code_to_db(c)) returns c; in particular the two functions
    are exact inverses at the knot points 0, 80, 280 and 400 of the table. *)
Theorem db_code_roundtrip_probes :
  Forall (fun c => roundtrip c = Ok c) probes /\
  Forall (fun c => roundtrip c = Ok c) knots.
Proof.
  split.
  - unfold probes. repeat constructor; apply roundtrip_table; lia.
  - unfold knots. repeat constructor; apply roundtrip_table; lia.
Qed.

(** *** The whole table *)

(** X1. [db_to_code(code_to_db(c))] returns [c] exactly for the codes of
    the table: for every code from 0 to 400 the round trip is exact, and
    for every other integer it does not return, since [code_to_db]
    raises. *)
Theorem roundtrip_exactly_on_table (c : Z) : roundtrip c = Ok c <-> 0 <= c <= 400.
Proof.
  split; [|apply roundtrip_table].
  intros H.
  destruct (Z_lt_le_dec c 0) as [Hlo|Hlo]; [|destruct (Z_lt_le_dec 400 c) as [Hhi|Hhi]];
    [exfalso | exfalso | lia];
    unfold roundtrip in H; rewrite code_to_db_out_of_range in H by lia; discriminate.
Qed.

Lemma table_ordered : ordered table = true.
Proof. vm_compute. reflexivity. Qed.

Lemma table_spec (c : Z) : 0 <= c <= 400 -> In (c, code_to_db c) table.
Proof.
  intros Hc. unfold table. apply (in_map (fun c => (c, code_to_db c))).
  now apply all_codes_spec.
Qed.

Lemma db_in_range_all : forallb db_in_range all_codes = true.
Proof. vm_compute. reflexivity. Qed.

(** X2. [code_to_db] is strictly increasing on the table, across the two
    knots where the step changes from 0.5 dB to 0.1 dB: a larger code
    gives a strictly larger decibel value, and every value lies between
    -60 dB and +12 dB. *)
Theorem code_to_db_strictly_increasing (c1 c2 : Z) :
  0 <= c1 -> c1 < c2 -> c2 <= 400 ->
  exists d1 d2, code_to_db c1 = Ok d1 /\ code_to_db c2 = Ok d2 /\
                (d1 <? d2)%float = true /\
                (-60.0 <=? d1)%float = true /\ (d2 <=? 12.0)%float = true.
Proof.
  intros H0 H12 H4.
  pose proof table_ordered as T. unfold ordered in T.
  rewrite forallb_forall in T. specialize (T _ (table_spec c1 ltac:(lia))).
  rewrite forallb_forall in T. specialize (T _ (table_spec c2 ltac:(lia))).
  cbn [fst snd] in T.
  replace (c1 <? c2) with true in T by (symmetry; apply Z.ltb_lt; lia).
  pose proof db_in_range_all as R. rewrite forallb_forall in R.
  pose proof (R c1 (all_codes_spec c1 ltac:(lia))) as R1.
  pose proof (R c2 (all_codes_spec c2 ltac:(lia))) as R2.
  unfold db_lt in T. unfold db_in_range in R1, R2.
  destruct (code_to_db c1) as [d1|e|]; [|discriminate..].
  destruct (code_to_db c2) as [d2|e|]; [|discriminate..].
  apply andb_true_iff in R1 as (L1 & _). apply andb_true_iff in R2 as (_ & U2).
  exists d1, d2. auto.
Qed.

Lemma code_to_db_strictly_increasing_witness :
  0 <= 80 /\ 80 < 81 /\ 81 <= 400 /\
  exists d1 d2, code_to_db 80 = Ok d1 /\ code_to_db 81 = Ok d2 /\
                (d1 <? d2)%float = true /\
                (-60.0 <=? d1)%float = true /\ (d2 <=? 12.0)%float = true.
Proof.
  split; [lia|]. split; [lia|]. split; [lia|].
  apply (code_to_db_strictly_increasing 80 81); lia.
Defined.

(** *** Values outside the table *)

(** A value above +12 dB is not below -60 dB. *)
Lemma above_not_below (db : float) :
  (12.0 <? db)%float = true -> (db <? -60.0)%float = false.
Proof.
  rewrite !FloatAxioms.ltb_spec.
  replace (Prim2SF 12.0) with (S754_finite false 6755399441055744 (-49))
    by (vm_compute; reflexivity).
  replace (Prim2SF (-60.0)) with (S754_finite true 8444249301319680 (-47))
    by (vm_compute; reflexivity).
  unfold SFltb, SFcompare.
  destruct (Prim2SF db) as [s|s| |s m e]; try destruct s; try discriminate; try reflexivity.
Qed.

Lemma nan_of_is_nan (db : float) : PrimFloat.is_nan db = true -> db = nan.
Proof.
  unfold PrimFloat.is_nan. rewrite FloatAxioms.eqb_spec. intros H.
  rewrite <- (FloatAxioms.SF2Prim_Prim2SF db).
  destruct (Prim2SF db) as [s|s| |s m e]; try reflexivity; exfalso.
  - destruct s; discriminate.
  - destruct s; discriminate.
  - unfold SFeqb, SFcompare in H. rewrite Z.compare_refl in H.
    destruct s; rewrite ?Pos.compare_cont_refl in H; cbn in H;
      rewrite ?Pos.compare_refl in H; discriminate.
Qed.

(** X3. Outside its domain [db_to_code] saturates: every value below
    -60 dB, minus infinity included, gives code 0; every value above
    +12 dB, plus infinity included, gives code 400; and NaN, which fails
    every comparison of the function, raises [ValueError] in [round]. *)
Theorem db_to_code_edges (db : float) :
  ((db <? -60.0)%float = true -> db_to_code db = Ok 0) /\
  ((12.0 <? db)%float = true -> db_to_code db = Ok 400) /\
  (PrimFloat.is_nan db = true -> db_to_code db = Raise ValueError).
Proof.
  repeat split; intros H.
  - unfold db_to_code. rewrite H. vm_compute. reflexivity.
  - unfold db_to_code. rewrite (above_not_below db H), H. vm_compute. reflexivity.
  - rewrite (nan_of_is_nan db H). vm_compute. reflexivity.
Qed.

Lemma db_to_code_edges_witness :
  db_to_code neg_infinity = Ok 0 /\ db_to_code 12.5%float = Ok 400 /\
  db_to_code nan = Raise ValueError.
Proof.
  split; [apply (db_to_code_edges neg_infinity); reflexivity|].
  split; [apply (db_to_code_edges 12.5%float); reflexivity|].
  apply (db_to_code_edges nan); reflexivity.
Defined.

End DbCodeFacts.

(* ================================================================== *)
(** ** MixerLink *)

Module MixerFacts.

Import Mixer.

(** *** Steps that write no frame *)

#[local] Instance quiet_preorder : PreOrder quiet.
Proof.
  split.
  - intros w. unfold quiet. repeat split; lia.
  - intros a b c (S1 & L1 & C1) (S2 & L2 & C2). unfold quiet.
    repeat split; [congruence | congruence | lia].
Qed.

Lemma tick_quiet : respects quiet tick.
Proof.
  intros w. unfold tick, quiet. destruct (latency w) as [|d rest]; cbn;
    repeat split; lia.
Qed.

Lemma tick_ok (w : World) : exists w', tick w = (Ok tt, w') /\ quiet w w'.
Proof.
  pose proof (tick_quiet w) as Q. unfold tick in *.
  destruct (latency w); cbn in *; eauto.
Qed.

Lemma monotonic_value (w : World) :
  exists w', monotonic w = (Ok (clock w'), w') /\ quiet w w'.
Proof.
  destruct (tick_ok w) as (w' & E & Q). exists w'. split; [|exact Q].
  unfold monotonic. rewrite (bind_step_ok _ _ _ _ _ E). reflexivity.
Qed.

Lemma monotonic_quiet : respects quiet monotonic.
Proof.
  intros w. destruct (monotonic_value w) as (w' & E & Q). now rewrite E.
Qed.

Lemma sleep_spec (d : Z) (w : World) :
  0 <= d ->
  exists w', sleep d w = (Ok tt, w') /\ quiet w w' /\ clock w + d <= clock w'.
Proof.
  intros Hd. unfold sleep. replace (d <? 0) with false by (symmetry; apply Z.ltb_ge; lia).
  destruct (tick_ok w) as (w1 & E & (S1 & L1 & C1)).
  rewrite (bind_step_ok _ _ _ _ _ E). cbn.
  eexists. split; [reflexivity|]. unfold quiet. cbn. repeat split; try assumption; lia.
Qed.

Lemma sleep_quiet (d : Z) : respects quiet (sleep d).
Proof.
  intros w. destruct (Z.ltb_spec d 0) as [Hd|Hd].
  - unfold sleep. replace (d <? 0) with true by (symmetry; apply Z.ltb_lt; lia).
    cbn. reflexivity.
  - destruct (sleep_spec d w Hd) as (w' & E & Q & _). now rewrite E.
Qed.

Lemma create_connection_quiet (tmo : Z) : respects quiet (create_connection tmo).
Proof.
  unfold create_connection. apply respects_bind; [typeclasses eauto | apply tick_quiet |].
  intros _ w. unfold bind, gets. cbn.
  destruct (connects w) as [|[e|] rest]; cbn; unfold quiet; cbn; repeat split; lia.
Qed.

Lemma connect_quiet (cfg : Config) : respects quiet (connect cfg).
Proof.
  intros w. unfold connect, bind, gets. cbn. destruct (sock w).
  - cbn. reflexivity.
  - apply create_connection_quiet.
Qed.

Lemma recv_quiet (k : Z) : respects quiet (recv k).
Proof.
  intros w. unfold recv, bind, gets. cbn.
  destruct (rx w) as [|[bs| |] rest]; cbn.
  - unfold quiet. cbn. repeat split; lia.
  - destruct (tick_ok w) as (w1 & E & Q). rewrite E. cbn.
    destruct Q as (S1 & L1 & C1). unfold quiet. cbn. repeat split; assumption.
  - unfold quiet. cbn. repeat split; lia.
  - destruct (tick_ok w) as (w1 & E & Q). rewrite E. cbn. exact Q.
Qed.

Lemma set_sock_timeout_quiet (t : Z) : respects quiet (modify (set_sock_timeout t)).
Proof. intros w. cbn. unfold quiet. cbn. repeat split; lia. Qed.

Lemma recv_loop_quiet (fuel : nat) (cfg : Config) (n : Z) (deadline : option Z)
    (data : list byte) : respects quiet (recv_loop fuel cfg n deadline data).
Proof.
  revert data. induction fuel as [|fuel IH]; intros data; cbn [recv_loop];
    destruct (Z.of_nat (length data) <? n);
    try apply respects_ret; try apply respects_diverge; try typeclasses eauto.
  apply respects_bind; [typeclasses eauto | |].
  - destruct deadline as [dl|]; [|apply respects_ret; typeclasses eauto].
    apply respects_bind; [typeclasses eauto | apply monotonic_quiet |].
    intros now. destruct (dl - now <=? 0);
      [apply respects_raise; typeclasses eauto | apply set_sock_timeout_quiet].
  - intros _. apply respects_bind; [typeclasses eauto | apply recv_quiet |].
    intros [|b chunk]; [apply respects_raise; typeclasses eauto | apply IH].
Qed.

Lemma _recv_exact_quiet (cfg : Config) (n : Z) (deadline : option Z) :
  respects quiet (_recv_exact cfg n deadline).
Proof.
  unfold _recv_exact. apply respects_bind; [typeclasses eauto | apply respects_gets; typeclasses eauto |].
  intros s. destruct (negb s);
    [apply respects_raise; typeclasses eauto | apply recv_loop_quiet].
Qed.

Lemma _read_reply_packet_quiet (cfg : Config) (pkt : list byte) (echo : bool)
    (n tmo : Z) : respects quiet (_read_reply_packet cfg pkt echo n tmo).
Proof.
  unfold _read_reply_packet.
  apply respects_bind; [typeclasses eauto | apply monotonic_quiet |].
  intros now. apply respects_bind; [typeclasses eauto | apply _recv_exact_quiet |].
  intros first. destruct (echo && bytes_eqb first pkt);
    [apply _recv_exact_quiet | apply respects_ret; typeclasses eauto].
Qed.

(** [sendall] either hands the frame to the transport, stamped with the
    clock of the write, or raises and writes nothing. *)
Lemma sendall_spec (pkt : list byte) (w : World) :
  (exists w', sendall pkt w = (Ok tt, w') /\
              sent w' = (clock w', pkt) :: sent w /\
              last_send_ts w' = last_send_ts w /\ clock w <= clock w') \/
  (exists e w', sendall pkt w = (Raise e, w') /\ quiet w w').
Proof.
  unfold sendall. destruct (tick_ok w) as (w1 & E & (S1 & L1 & C1)).
  rewrite (bind_step_ok _ _ _ _ _ E). unfold bind, gets. cbn.
  destruct (sends w1) as [|[e|] rest]; cbn.
  - left. eexists. split; [reflexivity|]. cbn. rewrite S1. repeat split; assumption.
  - right. do 2 eexists. split; [reflexivity|]. unfold quiet. cbn. repeat split; assumption.
  - left. eexists. split; [reflexivity|]. cbn. rewrite S1. repeat split; assumption.
Qed.

(** *** Pacing of the frames *)

Lemma paced_quiet (cfg : Config) (w w' : World) :
  quiet w w' -> paced cfg w -> paced cfg w'.
Proof.
  intros (S1 & L1 & _) (Hs & Hl). unfold paced. rewrite S1, L1. now split.
Qed.

(** The wait of [send_command] before a write: after it the clock is at
    least [min_step] past the send stamp. *)
Lemma pacing_wait (cfg : Config) (w : World) :
  exists w',
    (if clock w - last_send_ts w <? min_step cfg
     then sleep (min_step cfg - (clock w - last_send_ts w)) else ret tt) w
    = (Ok tt, w') /\
    quiet w w' /\ last_send_ts w + min_step cfg <= clock w'.
Proof.
  destruct (Z.ltb_spec (clock w - last_send_ts w) (min_step cfg)) as [Hlt|Hge].
  - destruct (sleep_spec (min_step cfg - (clock w - last_send_ts w)) w) as (w' & E & Q & C);
      [lia|].
    exists w'. repeat split; [exact E | apply Q | apply Q | apply Q | lia].
  - exists w. split; [reflexivity|]. split; [reflexivity | lia].
Qed.

(** What follows the write and the stamp in [send_command] writes nothing. *)
Lemma reply_part_quiet (cfg : Config) (pkt : list byte) (answ_byte : Z)
    (expect : bool) (echo : bool) (total : Z) :
  respects quiet
    (if negb expect then ret None
     else sleep (20 * ms) ;;;
          (resp <- _read_reply_packet cfg pkt echo answ_byte total ;;
           r <- lift (_parse_packet resp) ;;
           ret (Some r))).
Proof.
  destruct (negb expect); [apply respects_ret; typeclasses eauto|].
  apply respects_bind; [typeclasses eauto | apply sleep_quiet |]. intros _.
  apply respects_bind; [typeclasses eauto | apply _read_reply_packet_quiet |]. intros resp.
  apply respects_bind; [typeclasses eauto | apply respects_lift; typeclasses eauto |].
  intros r. apply respects_ret; typeclasses eauto.
Qed.

(** One [send_command] keeps the link paced, however it ends. *)
Lemma send_command_paced (cfg : Config) (cmd d1 d2 d3 answ_byte : Z)
    (expect_reply : option bool) (expect_echo : bool) (reply_timeout : option Z)
    (w : World) :
  paced cfg w ->
  paced cfg (exec (send_command cfg cmd d1 d2 d3 answ_byte expect_reply
                     expect_echo reply_timeout) w).
Proof.
  intros Hp. unfold exec, send_command.
  pose proof (connect_quiet cfg w) as Q1.
  destruct (connect cfg w) as [[[]|e|] w1] eqn:E1; cbn in Q1.
  2:{ rewrite (bind_step_raise _ _ _ _ _ E1). cbn. eapply paced_quiet; eassumption. }
  2:{ rewrite (bind_step_diverge _ _ _ _ E1). cbn. eapply paced_quiet; eassumption. }
  rewrite (bind_step_ok _ _ _ _ _ E1).
  destruct (monotonic_value w1) as (w2 & E2 & Q2).
  rewrite (bind_step_ok _ _ _ _ _ E2).
  unfold bind at 1, gets at 1.
  destruct (pacing_wait cfg w2) as (w3 & E3 & Q3 & C3).
  rewrite (bind_step_ok _ _ _ _ _ E3).
  assert (Hp3 : paced cfg w3).
  { eapply paced_quiet; [|exact Hp]. etransitivity; [exact Q1|].
    etransitivity; [exact Q2 | exact Q3]. }
  destruct (sendall_spec (_build_packet (addr cfg) cmd d1 d2 d3) w3)
    as [(w4 & E4 & S4 & L4 & C4) | (e & w4 & E4 & Q4)].
  2:{ rewrite (bind_step_raise _ _ _ _ _ E4). cbn. eapply paced_quiet; eassumption. }
  rewrite (bind_step_ok _ _ _ _ _ E4).
  destruct (monotonic_value w4) as (w5 & E5 & (S5 & L5 & C5)).
  rewrite (bind_step_ok _ _ _ _ _ E5).
  unfold bind at 1, modify at 1.
  match goal with
  | |- paced cfg (snd (?rest ?w6)) =>
      pose proof (reply_part_quiet cfg (_build_packet (addr cfg) cmd d1 d2 d3)
                    answ_byte
                    (match expect_reply with
                     | Some b => b
                     | None => existsb (Z.eqb cmd) CMDS_WITH_REPLY
                     end)
                    expect_echo
                    (match reply_timeout with
                     | Some t => t
                     | None => Z.max (timeout cfg) (2 * sec)
                     end) w6) as (S7 & L7 & C7)
  end.
  cbn zeta in *. unfold paced. rewrite S7, L7. cbn.
  rewrite S5, S4. destruct Q3 as (S3 & L3 & _). destruct Hp3 as (Hs3 & Hl3).
  split; [split; [|exact Hs3] | lia].
  destruct (sent w3) as [|[t1 f1] older]; [exact I|]. lia.
Qed.

Lemma run_calls_paced (cfg : Config) (calls : list Call) (w : World) :
  paced cfg w -> paced cfg (run_calls cfg calls w).
Proof.
  revert w. induction calls as [|c calls IH]; intros w Hp; cbn [run_calls].
  - exact Hp.
  - apply IH. unfold perform. now apply send_command_paced.
Qed.

Lemma fresh_paced (cfg : Config) (t0 : Z) (lat : list N)
    (conn snd : list (option exn)) (peer : list rx_event) :
  paced cfg (fresh t0 lat conn snd peer).
Proof. unfold paced, fresh. cbn. auto. Qed.

(** *** Replies and silence *)

#[local] Instance steady_preorder : PreOrder steady.
Proof.
  split.
  - intros w. unfold steady. auto.
  - intros a b c (R1 & S1 & T1) (R2 & S2 & T2). unfold steady.
    repeat split; congruence.
Qed.

Lemma tick_steady : respects steady tick.
Proof.
  intros w. unfold tick, steady. destruct (latency w); cbn; auto.
Qed.

Lemma monotonic_steady : respects steady monotonic.
Proof.
  apply respects_bind; [typeclasses eauto | apply tick_steady |].
  intros _. apply respects_gets. typeclasses eauto.
Qed.

Lemma sleep_steady (d : Z) : respects steady (sleep d).
Proof.
  unfold sleep. destruct (d <? 0); [apply respects_raise; typeclasses eauto|].
  apply respects_bind; [typeclasses eauto | apply tick_steady |].
  intros _ w. cbn. unfold steady. cbn. auto.
Qed.

Lemma connect_cases (cfg : Config) (w : World) :
  (exists w', connect cfg w = (Ok tt, w') /\
              rx w' = rx w /\ sends w' = sends w /\ sock w' = true) \/
  (exists e w', connect cfg w = (Raise e, w') /\
                sock w = false /\ next_ok (connects w) = false).
Proof.
  unfold connect, create_connection, tick, bind, gets, modify, raise, ret.
  destruct (sock w) eqn:Es; [left; exists w; auto|].
  destruct (latency w) as [|d rest]; cbn;
    destruct (connects w) as [|[e|] more]; cbn; eauto 10.
Qed.

Lemma sendall_cases (pkt : list byte) (w : World) :
  (exists w', sendall pkt w = (Ok tt, w') /\ rx w' = rx w /\ sock w' = sock w) \/
  (exists e w', sendall pkt w = (Raise e, w') /\ next_ok (sends w) = false).
Proof.
  unfold sendall, tick, bind, gets, modify, raise.
  destruct (latency w) as [|d rest]; cbn;
    destruct (sends w) as [|[e|] more]; cbn; eauto 10.
Qed.

Lemma silent_rx (w w' : World) : rx w' = rx w -> silent w = true -> silent w' = true.
Proof. unfold silent. now intros ->. Qed.

(** A silent peer makes the first turn of the receive loop time out. *)
Lemma recv_exact_silent (cfg : Config) (n dl : Z) (w : World) :
  silent w = true -> sock w = true -> 1 <= n ->
  exists w', _recv_exact cfg n (Some dl) w = (Raise TimeoutError, w').
Proof.
  intros Hs Hk Hn. unfold _recv_exact, bind at 1, gets at 1. rewrite Hk. cbn [negb].
  destruct (Z.to_nat n) as [|fuel] eqn:En; [lia|]. cbn [recv_loop length].
  replace (Z.of_nat 0 <? n) with true by (symmetry; apply Z.ltb_lt; lia).
  pose proof (monotonic_steady w) as T.
  destruct (monotonic_value w) as (w1 & E1 & _). rewrite E1 in T. cbn in T.
  destruct T as (R1 & _).
  unfold bind at 1. unfold bind at 1. rewrite E1.
  destruct (dl - clock w1 <=? 0); [cbn; eauto|].
  cbn. unfold recv, bind, gets, modify, raise. cbn. rewrite R1.
  unfold silent in Hs. destruct (rx w) as [|[bs| |] rest]; try discriminate; cbn; eauto.
Qed.

Lemma reply_part_silent (cfg : Config) (pkt : list byte) (n : Z) (echo : bool)
    (total : Z) (w : World) :
  silent w = true -> sock w = true -> 1 <= n ->
  exists w', reply_part cfg pkt n true echo total w = (Raise TimeoutError, w').
Proof.
  intros Hs Hk Hn. unfold reply_part. cbn [negb].
  destruct (sleep_spec (20 * ms) w) as (w1 & E1 & _); [unfold ms; lia|].
  pose proof (sleep_steady (20 * ms) w) as T1. rewrite E1 in T1. cbn in T1.
  destruct T1 as (R1 & K1 & _).
  rewrite (bind_step_ok _ _ _ _ _ E1).
  unfold _read_reply_packet.
  destruct (monotonic_value w1) as (w2 & E2 & _).
  pose proof (monotonic_steady w1) as T2. rewrite E2 in T2. cbn in T2.
  destruct T2 as (R2 & K2 & _).
  destruct (recv_exact_silent cfg n (clock w2 + total) w2) as (w3 & E3);
    [apply (silent_rx w); congruence | congruence | assumption |].
  exists w3. unfold bind at 1. unfold bind at 1. rewrite E2.
  unfold bind at 1. now rewrite E3.
Qed.

Lemma pacing_wait_steady (cfg : Config) (now last : Z) :
  respects steady
    (if now - last <? min_step cfg then sleep (min_step cfg - (now - last)) else ret tt).
Proof.
  destruct (now - last <? min_step cfg);
    [apply sleep_steady | apply respects_ret; typeclasses eauto].
Qed.

(** [send_command] fails before its write, or goes on to the reply part
    with the socket open and the peer as it was. *)
Lemma send_command_cases (cfg : Config) (cmd d1 d2 d3 answ_byte : Z)
    (expect echo : bool) (tmo : Z) (w : World) :
  (exists e w', send_command cfg cmd d1 d2 d3 answ_byte (Some expect) echo (Some tmo) w
                = (Raise e, w') /\ link_up w = false) \/
  (exists w', send_command cfg cmd d1 d2 d3 answ_byte (Some expect) echo (Some tmo) w
              = reply_part cfg (_build_packet (addr cfg) cmd d1 d2 d3) answ_byte
                  expect echo tmo w' /\
              rx w' = rx w /\ sock w' = true).
Proof.
  remember (send_command cfg cmd d1 d2 d3 answ_byte (Some expect) echo (Some tmo) w)
    as out eqn:Eout.
  unfold send_command in Eout. unfold link_up.
  destruct (connect_cases cfg w) as [(w1 & E1 & R1 & T1 & K1) | (e & w1 & E1 & K & C)].
  2:{ left. exists e, w1. rewrite (bind_step_raise _ _ _ _ _ E1) in Eout.
      split; [exact Eout|]. rewrite K. rewrite C. reflexivity. }
  rewrite (bind_step_ok _ _ _ _ _ E1) in Eout.
  destruct (monotonic_value w1) as (w2 & E2 & _).
  pose proof (monotonic_steady w1) as S2. rewrite E2 in S2. cbn in S2.
  rewrite (bind_step_ok _ _ _ _ _ E2) in Eout. unfold bind at 1, gets at 1 in Eout.
  destruct (pacing_wait cfg w2) as (w3 & E3 & _).
  pose proof (pacing_wait_steady cfg (clock w2) (last_send_ts w2) w2) as S3.
  rewrite E3 in S3. cbn in S3.
  rewrite (bind_step_ok _ _ _ _ _ E3) in Eout.
  destruct (sendall_cases (_build_packet (addr cfg) cmd d1 d2 d3) w3)
    as [(w4 & E4 & R4 & K4) | (e & w4 & E4 & C4)].
  2:{ left. exists e, w4. rewrite (bind_step_raise _ _ _ _ _ E4) in Eout.
      split; [exact Eout|].
      destruct S2 as (_ & _ & T2). destruct S3 as (_ & _ & T3).
      replace (sends w) with (sends w3) by congruence. rewrite C4.
      apply andb_false_r. }
  rewrite (bind_step_ok _ _ _ _ _ E4) in Eout.
  destruct (monotonic_value w4) as (w5 & E5 & _).
  pose proof (monotonic_steady w4) as S5. rewrite E5 in S5. cbn in S5.
  rewrite (bind_step_ok _ _ _ _ _ E5) in Eout. unfold bind at 1, modify at 1 in Eout.
  right. eexists. split; [exact Eout|]. cbn.
  destruct S2 as (R2 & K2 & _). destruct S3 as (R3 & K3 & _).
  destruct S5 as (R5 & K5 & _). split; congruence.
Qed.

(** *** The wait before a write *)

(** With no scripted delay left, a primitive takes no time. *)
Lemma tick_idle (w : World) : latency w = [] -> tick w = (Ok tt, w).
Proof. intros H. unfold tick. now rewrite H. Qed.

Lemma monotonic_idle (w w' : World) (now : Z) :
  latency w = [] -> monotonic w = (Ok now, w') -> w' = w /\ now = clock w.
Proof.
  intros H. unfold monotonic. rewrite (bind_step_ok _ _ _ _ _ (tick_idle w H)).
  unfold gets. intros [= <- <-]. auto.
Qed.

Lemma connect_idle (cfg : Config) (w w' : World) :
  latency w = [] -> connect cfg w = (Ok tt, w') ->
  clock w' = clock w /\ latency w' = [].
Proof.
  intros H. unfold connect, create_connection, bind at 1, gets at 1.
  destruct (sock w); [intros [= <-]; auto|].
  rewrite (bind_step_ok _ _ _ _ _ (tick_idle w H)). unfold bind, gets, modify, raise.
  destruct (connects w) as [|[e|] rest]; intros [= <-]; cbn; auto.
Qed.

Lemma pacing_wait_idle (cfg : Config) (w w' : World) :
  latency w = [] ->
  (if clock w - last_send_ts w <? min_step cfg
   then sleep (min_step cfg - (clock w - last_send_ts w)) else ret tt) w = (Ok tt, w') ->
  clock w' = Z.max (clock w) (last_send_ts w + min_step cfg) /\ latency w' = [].
Proof.
  intros H. destruct (Z.ltb_spec (clock w - last_send_ts w) (min_step cfg)) as [Hlt|Hge].
  - unfold sleep.
    replace (min_step cfg - (clock w - last_send_ts w) <? 0) with false
      by (symmetry; apply Z.ltb_ge; lia).
    rewrite (bind_step_ok _ _ _ _ _ (tick_idle w H)). unfold modify.
    intros [= <-]. cbn. split; [lia | exact H].
  - intros [= <-]. split; [lia | exact H].
Qed.

Lemma sendall_idle (pkt : list byte) (w w' : World) :
  latency w = [] -> sendall pkt w = (Ok tt, w') ->
  clock w' = clock w /\ latency w' = [].
Proof.
  intros H. unfold sendall. rewrite (bind_step_ok _ _ _ _ _ (tick_idle w H)).
  unfold bind, gets, modify, raise.
  destruct (sends w) as [|[e|] rest]; intros [= <-]; auto.
Qed.

(** A send on a link that is up writes its frame, and no earlier than
    [min_step] after the send stamp: a call that comes too early sleeps
    for the time that is missing and then writes. When the primitives take
    no time, the frame is written at the call if the spacing has passed,
    and exactly when it has passed otherwise. *)
Lemma send_command_waits (cfg : Config) (cmd d1 d2 d3 answ_byte : Z)
    (expect_reply : option bool) (expect_echo : bool) (reply_timeout : option Z)
    (w : World) :
  link_up w = true ->
  exists t,
    sent (exec (send_command cfg cmd d1 d2 d3 answ_byte expect_reply
                  expect_echo reply_timeout) w)
    = (t, _build_packet (addr cfg) cmd d1 d2 d3) :: sent w /\
    clock w <= t /\ last_send_ts w + min_step cfg <= t /\
    (latency w = [] -> t = Z.max (clock w) (last_send_ts w + min_step cfg)).
Proof.
  intros Hup. unfold link_up in Hup. apply andb_true_iff in Hup as (Hc & Hs).
  remember (exec (send_command cfg cmd d1 d2 d3 answ_byte expect_reply
                    expect_echo reply_timeout) w) as w' eqn:Ew.
  unfold exec, send_command in Ew.
  destruct (connect_cases cfg w) as [(w1 & E1 & R1 & T1 & K1) | (e & w1 & E1 & K & C)].
  2:{ exfalso. rewrite K, C in Hc. discriminate. }
  pose proof (connect_quiet cfg w) as Q1. rewrite E1 in Q1. cbn in Q1.
  rewrite (bind_step_ok _ _ _ _ _ E1) in Ew.
  destruct (monotonic_value w1) as (w2 & E2 & Q2).
  pose proof (monotonic_steady w1) as S2. rewrite E2 in S2. cbn in S2.
  rewrite (bind_step_ok _ _ _ _ _ E2) in Ew. unfold bind at 1, gets at 1 in Ew.
  destruct (pacing_wait cfg w2) as (w3 & E3 & Q3 & C3).
  pose proof (pacing_wait_steady cfg (clock w2) (last_send_ts w2) w2) as S3.
  rewrite E3 in S3. cbn in S3.
  rewrite (bind_step_ok _ _ _ _ _ E3) in Ew.
  destruct S2 as (_ & _ & T2). destruct S3 as (_ & _ & T3).
  destruct (sendall_spec (_build_packet (addr cfg) cmd d1 d2 d3) w3)
    as [(w4 & E4 & S4 & L4 & C4) | (e & w4 & E4 & _)].
  2:{ exfalso.
      destruct (sendall_cases (_build_packet (addr cfg) cmd d1 d2 d3) w3)
        as [(v & F & _) | (e' & v & _ & F)]; [congruence|].
      replace (sends w3) with (sends w) in F by congruence. congruence. }
  rewrite (bind_step_ok _ _ _ _ _ E4) in Ew.
  destruct (monotonic_value w4) as (w5 & E5 & (S5 & L5 & C5)).
  rewrite (bind_step_ok _ _ _ _ _ E5) in Ew.
  unfold bind at 1, modify at 1 in Ew.
  match type of Ew with
  | _ = snd (?rest ?w6) =>
      pose proof (reply_part_quiet cfg (_build_packet (addr cfg) cmd d1 d2 d3)
                    answ_byte
                    (match expect_reply with
                     | Some b => b
                     | None => existsb (Z.eqb cmd) CMDS_WITH_REPLY
                     end)
                    expect_echo
                    (match reply_timeout with
                     | Some t => t
                     | None => Z.max (timeout cfg) (2 * sec)
                     end) w6) as (S7 & _)
  end.
  cbn zeta in *.
  destruct Q1 as (A1 & B1 & D1), Q2 as (A2 & B2 & D2), Q3 as (A3 & B3 & D3).
  exists (clock w4). subst w'. rewrite S7. cbn [sent set_last_send_ts].
  split; [rewrite S5, S4; congruence|].
  split; [lia|]. split; [rewrite <- B1, <- B2; lia|].
  intros Hl.
  destruct (connect_idle cfg w w1 Hl E1) as (X1 & Hl1).
  destruct (monotonic_idle w1 w2 _ Hl1 E2) as (-> & _).
  destruct (pacing_wait_idle cfg w1 w3 Hl1 E3) as (X3 & Hl3).
  destruct (sendall_idle _ w3 w4 Hl3 E4) as (X4 & _).
  rewrite X4, X3, X1, B1. reflexivity.
Qed.

(** C7. For every sequence of [send_command] calls on one link, whatever
    the commands and whatever the environment does, two frames written one
    after the other lie at least [min_step] apart on the clock: a frame is
    never written before [min_step] has passed since the previous send.
    And a send is not dropped for coming early: every call on a link that
    is up, whatever its command, writes its frame, no earlier than
    [min_step] after the send stamp; when the primitives take no time the
    frame is written at once if the spacing has passed, and otherwise
    exactly when it has passed. *)
Theorem frames_spaced_by_min_step (cfg : Config) (calls : list Call) (t0 : Z)
    (lat : list N) (conn snd : list (option exn)) (peer : list rx_event) :
  spaced (min_step cfg) (sent (run_calls cfg calls (fresh t0 lat conn snd peer))) /\
  (forall (c : Call) (w : World),
     link_up w = true ->
     exists t,
       sent (exec (perform cfg c) w) = (t, frame_of cfg c) :: sent w /\
       clock w <= t /\ last_send_ts w + min_step cfg <= t /\
       (latency w = [] -> t = Z.max (clock w) (last_send_ts w + min_step cfg))).
Proof.
  split.
  - apply (run_calls_paced cfg calls). apply fresh_paced.
  - intros c w Hup. unfold perform, frame_of. now apply send_command_waits.
Qed.

(** *** The silent device *)

(** C1. When the peer sends no reply byte before the timeout, [get_mute]
    does not return [False], as the claim and the guard [if r is None] of
    the function have it: it raises, and the exception is [TimeoutError]
    whenever the link was up for the query. *)
Theorem get_mute_silent_device_raises (cfg : Config) (is_output : bool)
    (channel : Z) (w : World) :
  silent w = true ->
  (exists e, eval (get_mute cfg is_output channel) w = Raise e) /\
  (link_up w = true -> eval (get_mute cfg is_output channel) w = Raise TimeoutError).
Proof.
  intros Hs. unfold eval, get_mute.
  destruct (send_command_cases cfg CMD_GET_MUTE (flag is_output)
              (Z.land channel 0xFF) 0 1 true false (2 * sec) w)
    as [(e & w1 & E & L) | (w1 & E & R & K)].
  - rewrite (bind_step_raise _ _ _ _ _ E). cbn. split; [eauto | congruence].
  - destruct (reply_part_silent cfg
                (_build_packet (addr cfg) CMD_GET_MUTE (flag is_output)
                   (Z.land channel 0xFF) 0) 1 false (2 * sec) w1) as (w2 & E2);
      [apply (silent_rx w); assumption | assumption | lia |].
    rewrite E2 in E. rewrite (bind_step_raise _ _ _ _ _ E). cbn. eauto.
Qed.

Lemma get_mute_silent_device_raises_witness :
  silent silent_link = true /\
  (exists e, eval (get_mute cfg_default false 0) silent_link = Raise e) /\
  (link_up silent_link = true ->
   eval (get_mute cfg_default false 0) silent_link = Raise TimeoutError).
Proof.
  split; [reflexivity|].
  apply (get_mute_silent_device_raises cfg_default false 0 silent_link).
  reflexivity.
Defined.

(** On a link that is up and whose peer never answers the claim fails:
    [get_mute] raises [TimeoutError]; it does not return [False]. *)
Lemma get_mute_no_reply_is_not_false :
  ~ no_reply_is_false cfg_default false 0 silent_link.
Proof.
  intros H. specialize (H eq_refl). vm_compute in H. discriminate.
Qed.

(** With a reply byte the result is its truth value. *)
Example get_mute_replies :
  eval (get_mute cfg_default false 0) (fresh (100 * sec) [] [] [] [RxData ["001"%byte]])
    = Ok true /\
  eval (get_mute cfg_default false 0) (fresh (100 * sec) [] [] [] [RxData ["000"%byte]])
    = Ok false.
Proof. vm_compute. split; reflexivity. Qed.

(** *** Termination *)

Lemma tick_total : total tick.
Proof. intros w. unfold tick. destruct (latency w); discriminate. Qed.

Lemma monotonic_total : total monotonic.
Proof. apply total_bind; [apply tick_total | intros _; apply total_gets]. Qed.

Lemma sleep_total (d : Z) : total (sleep d).
Proof.
  unfold sleep. destruct (d <? 0); [apply total_raise|].
  apply total_bind; [apply tick_total | intros _; apply total_modify].
Qed.

Lemma connect_total (cfg : Config) : total (connect cfg).
Proof.
  apply total_bind; [apply total_gets|]. intros [|]; [apply total_ret|].
  apply total_bind; [apply tick_total|]. intros _.
  apply total_bind; [apply total_gets|]. intros [|[e|] rest]; try apply total_modify.
  apply total_bind; [apply total_modify | intros _; apply total_raise].
Qed.

Lemma sendall_total (pkt : list byte) : total (sendall pkt).
Proof.
  apply total_bind; [apply tick_total|]. intros _.
  apply total_bind; [apply total_gets|]. intros [|[e|] rest]; try apply total_modify.
  apply total_bind; [apply total_modify | intros _; apply total_raise].
Qed.

Lemma recv_total (k : Z) : total (recv k).
Proof.
  apply total_bind; [apply total_gets|]. intros [|[bs| |] rest].
  - apply total_bind; [apply total_modify | intros _; apply total_raise].
  - apply total_bind; [apply tick_total|]. intros _.
    apply total_bind; [apply total_modify | intros _; apply total_ret].
  - apply total_bind; [apply total_modify | intros _; apply total_raise].
  - apply total_bind; [apply tick_total | intros _; apply total_ret].
Qed.

(** The receive loop returns or raises when its fuel covers the bytes
    still missing: a turn that goes on has added one byte at least. *)
Lemma recv_loop_total (fuel : nat) (cfg : Config) (n : Z) (deadline : option Z)
    (data : list byte) :
  n - Z.of_nat (length data) <= Z.of_nat fuel ->
  total (recv_loop fuel cfg n deadline data).
Proof.
  revert data. induction fuel as [|fuel IH]; intros data Hf; cbn [recv_loop];
    destruct (Z.ltb_spec (Z.of_nat (length data)) n) as [Hlt|Hge];
    try apply total_ret; [lia|].
  apply total_bind.
  - destruct deadline as [dl|]; [|apply total_ret].
    apply total_bind; [apply monotonic_total|]. intros now.
    destruct (dl - now <=? 0); [apply total_raise | apply total_modify].
  - intros _. apply total_bind; [apply recv_total|].
    intros [|b chunk]; [apply total_raise|]. apply IH.
    rewrite length_app. cbn [length]. lia.
Qed.

Lemma _recv_exact_total (cfg : Config) (n : Z) (deadline : option Z) :
  total (_recv_exact cfg n deadline).
Proof.
  apply total_bind; [apply total_gets|]. intros s.
  destruct (negb s); [apply total_raise|]. apply recv_loop_total. cbn. lia.
Qed.

Lemma _read_reply_packet_total (cfg : Config) (pkt : list byte) (echo : bool)
    (n tmo : Z) : total (_read_reply_packet cfg pkt echo n tmo).
Proof.
  apply total_bind; [apply monotonic_total|]. intros now.
  apply total_bind; [apply _recv_exact_total|]. intros first.
  destruct (echo && bytes_eqb first pkt); [apply _recv_exact_total | apply total_ret].
Qed.

Lemma _parse_packet_returns (pkt : list byte) : _parse_packet pkt <> Diverge.
Proof. destruct pkt as [|a [|b rest]]; discriminate. Qed.

(** [send_command] returns or raises from every world. *)
Lemma send_command_total (cfg : Config) (cmd d1 d2 d3 answ_byte : Z)
    (expect_reply : option bool) (expect_echo : bool) (reply_timeout : option Z) :
  total (send_command cfg cmd d1 d2 d3 answ_byte expect_reply expect_echo reply_timeout).
Proof.
  unfold send_command.
  apply total_bind; [apply connect_total|]. intros _.
  apply total_bind; [apply monotonic_total|]. intros now.
  apply total_bind; [apply total_gets|]. intros last.
  apply total_bind; [destruct (_ <? _); [apply sleep_total | apply total_ret]|]. intros _.
  apply total_bind; [apply sendall_total|]. intros _.
  apply total_bind; [apply monotonic_total|]. intros stamp.
  apply total_bind; [apply total_modify|]. intros _.
  destruct (negb _); [apply total_ret|].
  apply total_bind; [apply sleep_total|]. intros _.
  apply total_bind; [apply _read_reply_packet_total|]. intros resp.
  apply total_bind; [apply total_lift, _parse_packet_returns|]. intros r.
  apply total_ret.
Qed.

(** *** The gain query *)

Lemma exn_eqb_eq (a b : exn) : exn_eqb a b = true <-> a = b.
Proof. split; [destruct a, b; (reflexivity || discriminate) | intros ->; now destruct b]. Qed.

Lemma clamp_code (code : Z) :
  Z.max 0 (Z.min 400 code) =
  (if decide (code < 0) then 0 else if decide (400 < code) then 400 else code).
Proof. repeat case_decide; lia. Qed.

(** The decoding of [get_gain_db], with its tests as case distinctions. *)
Lemma decode_gain_cases (hi lo : Z) :
  decode_gain (Some (hi, lo)) =
  (if decide (hi = 0 /\ lo = 0) then Ok 0.0%float
   else
     let code16 := Z.lor (Z.shiftl hi 8) lo in
     let code := if decide (400 < code16 /\ hi = 0) then lo else code16 in
     let clamped := if decide (code < 0) then 0
                    else if decide (400 < code) then 400 else code in
     DbCode.code_to_db clamped).
Proof.
  unfold decode_gain.
  destruct (Z.eqb_spec hi 0) as [Hh|Hh], (Z.eqb_spec lo 0) as [Hl|Hl]; cbn [andb];
    case_decide as Hz; try (exfalso; lia); try reflexivity;
    rewrite ?andb_false_r; cbn zeta; rewrite clamp_code;
    destruct (Z.ltb_spec 400 (Z.lor (Z.shiftl hi 8) lo)); cbn [andb];
    repeat case_decide; try reflexivity; exfalso; lia.
Qed.

(** A decoded reply is always a decibel value: the clamp keeps the code in
    the table. *)
Lemma decode_gain_total (hi lo : Z) : exists db, decode_gain (Some (hi, lo)) = Ok db.
Proof.
  rewrite decode_gain_cases. case_decide; [eauto|]. cbn zeta.
  apply DbCodeFacts.code_to_db_in_range. repeat case_decide; lia.
Qed.

Lemma int_of_byte_range (b : byte) : 0 <= int_of_byte b < 256.
Proof. unfold int_of_byte. pose proof (Byte.to_N_bounded b). lia. Qed.

(** Below 256 the low byte shares no bit with the shifted high byte. *)
Lemma lor_shift_byte (hi lo : Z) :
  0 <= lo < 256 -> Z.lor (Z.shiftl hi 8) lo = hi * 256 + lo.
Proof.
  intros Hl. rewrite Z.shiftl_mul_pow2 by lia. change (2 ^ 8) with 256.
  assert (L : Z.land (hi * 256) lo = 0).
  { apply Z.bits_inj'. intros n Hn. rewrite Z.land_spec, Z.bits_0.
    destruct (Z.ltb_spec n 8) as [Hlt|Hge].
    - change 256 with (2 ^ 8). rewrite Z.mul_pow2_bits_low by lia. reflexivity.
    - destruct (Z.eq_dec lo 0) as [->|Hne].
      + rewrite Z.bits_0. apply andb_false_r.
      + rewrite (Z.bits_above_log2 lo n); [apply andb_false_r | lia |].
        apply Z.lt_le_trans with 8; [|exact Hge].
        apply Z.log2_lt_pow2; [lia|]. change (2 ^ 8) with 256. lia. }
  rewrite <- Z.lxor_lor by exact L. symmetry. now apply Z.add_nocarry_lxor.
Qed.

(** For the bytes of a reply the 16-bit code is [hi * 256 + lo]; under a
    zero high byte it cannot exceed 400, so the low byte never replaces
    it, and the clamp alone bounds the code. *)
Lemma decode_gain_bytes (hi lo : Z) :
  0 <= hi < 256 -> 0 <= lo < 256 ->
  decode_gain (Some (hi, lo)) =
  (if decide (hi = 0 /\ lo = 0) then Ok 0.0%float
   else DbCode.code_to_db (Z.min 400 (hi * 256 + lo))).
Proof.
  intros Hh Hl. rewrite decode_gain_cases. case_decide; [reflexivity|]. cbn zeta.
  assert (E : Z.lor (Z.shiftl hi 8) lo = hi * 256 + lo).
  { apply lor_shift_byte; lia. }
  rewrite E. f_equal. repeat case_decide; lia.
Qed.

(** Below the clamp the decoding is the one the claim words. *)
Lemma decode_gain_claimed (hi lo : Z) :
  0 <= hi < 256 -> 0 <= lo < 256 -> hi * 256 + lo <= 400 ->
  decode_gain (Some (hi, lo)) = gain_claimed hi lo.
Proof.
  intros Hh Hl Hc. rewrite decode_gain_cases. unfold gain_claimed.
  case_decide; [reflexivity|]. cbn zeta.
  rewrite (lor_shift_byte hi lo Hl). f_equal. repeat case_decide; lia.
Qed.

(** The decibel value of a code that fits a byte lies below +12 dB. *)
Lemma low_byte_below_top (lo : Z) :
  0 <= lo < 256 ->
  exists db, DbCode.code_to_db lo = Ok db /\ (db <? 12.0)%float = true.
Proof.
  intros Hl. pose proof DbCodeFacts.table_ordered as T. unfold DbCode.ordered in T.
  rewrite forallb_forall in T. specialize (T _ (DbCodeFacts.table_spec lo ltac:(lia))).
  rewrite forallb_forall in T. specialize (T _ (DbCodeFacts.table_spec 400 ltac:(lia))).
  cbn [fst snd] in T.
  replace (lo <? 400) with true in T by (symmetry; apply Z.ltb_lt; lia).
  change (DbCode.code_to_db 400) with (@Ok float 12.0%float) in T.
  unfold DbCode.db_lt in T.
  destruct (DbCode.code_to_db lo) as [db|e|]; [eauto | discriminate..].
Qed.

(** Above the clamp the code answers +12 dB, whatever the low byte, where
    the claim has the decibel value of the low byte. *)
Lemma decode_gain_clamps (hi lo : Z) :
  0 <= hi < 256 -> 0 <= lo < 256 -> 400 < hi * 256 + lo ->
  decode_gain (Some (hi, lo)) = Ok 12.0%float /\
  gain_claimed hi lo = DbCode.code_to_db lo /\
  gain_claimed hi lo <> Ok 12.0%float.
Proof.
  intros Hh Hl Hc.
  assert (Eg : gain_claimed hi lo = DbCode.code_to_db lo).
  { unfold gain_claimed. case_decide; [exfalso; lia|]. cbn zeta.
    rewrite (lor_shift_byte hi lo Hl). f_equal. repeat case_decide; lia. }
  split; [|split; [exact Eg|]].
  - rewrite (decode_gain_bytes hi lo Hh Hl). case_decide; [exfalso; lia|].
    now replace (Z.min 400 (hi * 256 + lo)) with 400 by lia.
  - rewrite Eg. destruct (low_byte_below_top lo Hl) as (db & -> & Hlt).
    intros [= ->]. vm_compute in Hlt. discriminate.
Qed.

Lemma _parse_packet_bytes (pkt : list byte) (a b : Z) :
  _parse_packet pkt = Ok (a, b) -> 0 <= a < 256 /\ 0 <= b < 256.
Proof.
  destruct pkt as [|x [|y rest]]; cbn; [discriminate | |];
    intros [= <- <-]; split; try apply int_of_byte_range; lia.
Qed.

(** A gain query that returns has read a reply, of two byte values. *)
Lemma gain_query_some (cfg : Config) (is_output : bool) (channel : Z)
    (w w1 : World) (r : option (Z * Z)) :
  gain_query cfg is_output channel w = (Ok r, w1) ->
  exists hi lo, r = Some (hi, lo) /\ 0 <= hi < 256 /\ 0 <= lo < 256.
Proof.
  unfold gain_query. intros E.
  destruct (send_command_cases cfg CMD_GET_GAIN (flag is_output)
              (Z.land channel 0xFF) 0 2 true false (3 * sec) w)
    as [(e & w' & E' & _) | (w' & E' & _)]; [congruence|].
  rewrite E' in E. unfold reply_part in E. cbn [negb] in E.
  apply bind_ok in E as (u & w2 & _ & E).
  apply bind_ok in E as (resp & w3 & _ & E).
  apply bind_ok in E as ([hi lo] & w4 & Ep & E).
  injection E as <- _. exists hi, lo. split; [reflexivity|].
  unfold lift in Ep. injection Ep as Ep _. now apply _parse_packet_bytes in Ep.
Qed.

Lemma get_gain_db_run (cfg : Config) (is_output : bool) (channel : Z) (w : World) :
  gain_run cfg is_output channel w
    (eval (get_gain_db cfg is_output channel) w)
    (exec (get_gain_db cfg is_output channel) w).
Proof.
  unfold eval, exec, get_gain_db, bind, try_except_only.
  pose proof (send_command_total cfg CMD_GET_GAIN (flag is_output)
                (Z.land channel 0xFF) 0 2 (Some true) false (Some (3 * sec))) as Ht.
  fold (gain_query cfg is_output channel) in Ht.
  pose proof (Ht w) as Ht1.
  destruct (gain_query cfg is_output channel w) as [[r|e|] w1] eqn:E1;
    [| |now cbn in Ht1].
  - destruct (gain_query_some _ _ _ _ _ _ E1) as (hi & lo & -> & _).
    unfold lift. cbn [fst snd]. now apply FirstReply.
  - destruct (exn_eqb e TimeoutError) eqn:Ee.
    + apply exn_eqb_eq in Ee as ->. pose proof (Ht w1) as Ht2.
      destruct (gain_query cfg is_output channel w1) as [[r|e|] w2] eqn:E2;
        [| |now cbn in Ht2].
      * destruct (gain_query_some _ _ _ _ _ _ E2) as (hi & lo & -> & _).
        unfold lift. cbn [fst snd].
        eapply RetryReply; eassumption.
      * cbn [fst snd]. eapply RetryFails; eassumption.
    + cbn [fst snd]. apply FirstFails; [assumption|].
      intros ->. discriminate.
Qed.

(** A value [get_gain_db] returns is the decoding of a reply. *)
Lemma get_gain_db_value (cfg : Config) (is_output : bool) (channel : Z)
    (w w' : World) (cur : float) :
  get_gain_db cfg is_output channel w = (Ok cur, w') ->
  exists hi lo, decode_gain (Some (hi, lo)) = Ok cur.
Proof.
  intros E. pose proof (get_gain_db_run cfg is_output channel w) as R.
  unfold eval, exec in R. rewrite E in R. cbn [fst snd] in R.
  remember (Ok cur) as r eqn:Er. destruct R; try discriminate; eauto.
Qed.

(** C5. The low-byte fallback of [get_gain_db] never takes effect. Every
    run is a first reply, or a [TimeoutError] followed by exactly one more
    query whose outcome is final, and the value returned for the reply
    (hi, lo) is its decoding. The two numbers of a reply are byte values,
    so the decoding is 0.0 dB for two zero bytes and otherwise the
    conversion of the 16-bit code hi * 256 + lo clamped to 400: the test
    that guards the fallback asks for a code above 400 under a zero high
    byte, which no reply meets. Up to 400 this is the decoding the claim
    words; above 400 the code answers +12 dB whatever the low byte, where
    the claim has the decibel value of the low byte, which is never
    +12 dB. *)
Theorem get_gain_db_fallback_never_fires (cfg : Config) (is_output : bool)
    (channel : Z) (w : World) :
  gain_run cfg is_output channel w
    (eval (get_gain_db cfg is_output channel) w)
    (exec (get_gain_db cfg is_output channel) w) /\
  (forall w0 w1 hi lo,
     gain_query cfg is_output channel w0 = (Ok (Some (hi, lo)), w1) ->
     (0 <= hi < 256 /\ 0 <= lo < 256) /\
     decode_gain (Some (hi, lo)) =
       (if decide (hi = 0 /\ lo = 0) then Ok 0.0%float
        else DbCode.code_to_db (Z.min 400 (hi * 256 + lo))) /\
     (hi * 256 + lo <= 400 -> decode_gain (Some (hi, lo)) = gain_claimed hi lo) /\
     (400 < hi * 256 + lo ->
      decode_gain (Some (hi, lo)) = Ok 12.0%float /\
      gain_claimed hi lo = DbCode.code_to_db lo /\
      gain_claimed hi lo <> Ok 12.0%float)).
Proof.
  split; [apply get_gain_db_run|].
  intros w0 w1 hi lo E.
  destruct (gain_query_some _ _ _ _ _ _ E) as (hi' & lo' & [= <- <-] & Hh & Hl).
  split; [split; assumption|].
  split; [now apply decode_gain_bytes|].
  split; [now apply decode_gain_claimed | now apply decode_gain_clamps].
Qed.

(** *** One-shot commands and [mute_all] *)

Lemma wrote_trans (f1 f2 : list (list byte)) (w w1 w2 : World) :
  wrote f1 w w1 -> wrote f2 w1 w2 -> wrote (f1 ++ f2) w w2.
Proof.
  intros (l1 & S1 & M1) (l2 & S2 & M2). exists (l2 ++ l1). split.
  - rewrite S2, S1. now rewrite <- app_assoc.
  - rewrite map_app, M1, M2. now rewrite rev_app_distr.
Qed.

Lemma wrote_new_frames (fs : list (list byte)) (w w' : World) :
  wrote fs w w' -> new_frames (sent w) (sent w') = rev fs.
Proof.
  intros (l & S & Hm). unfold new_frames. rewrite S, length_app.
  replace (length l + length (sent w) - length (sent w))%nat with (length l) by lia.
  rewrite firstn_app, Nat.sub_diag, firstn_all. cbn. now rewrite app_nil_r.
Qed.

Lemma ready_inv (w : World) :
  ready w = true -> (sock w = true \/ next_ok (connects w) = true) /\ sends w = [].
Proof.
  unfold ready. intros H. apply andb_true_iff in H as (H1 & H2).
  apply orb_true_iff in H1. split; [exact H1|]. now destruct (sends w).
Qed.

Lemma sendall_ready (pkt : list byte) (w : World) :
  sends w = [] ->
  exists w', sendall pkt w = (Ok tt, w') /\ steady w w' /\
             sent w' = (clock w', pkt) :: sent w.
Proof.
  intros Hs. unfold sendall, tick, bind, gets, modify, steady.
  destruct (latency w) as [|d rest]; cbn; rewrite Hs; cbn; eauto 10.
Qed.

(** A command that expects no reply, on a working link: it returns after
    writing its one frame, and the link stays ready. *)
Lemma one_shot_ready (cfg : Config) (cmd d1 d2 d3 answ_byte : Z) (w : World) :
  ready w = true ->
  exists w', send_command cfg cmd d1 d2 d3 answ_byte (Some false) false None w
             = (Ok None, w') /\
             ready w' = true /\
             wrote [_build_packet (addr cfg) cmd d1 d2 d3] w w'.
Proof.
  intros Hr. apply ready_inv in Hr as (Hc & Hs).
  remember (send_command cfg cmd d1 d2 d3 answ_byte (Some false) false None w)
    as out eqn:Eout.
  unfold send_command in Eout.
  destruct (connect_cases cfg w) as [(w1 & E1 & R1 & T1 & K1) | (e & w1 & E1 & K & C)].
  2:{ exfalso. destruct Hc; congruence. }
  pose proof (connect_quiet cfg w) as Q1. rewrite E1 in Q1. cbn in Q1.
  rewrite (bind_step_ok _ _ _ _ _ E1) in Eout.
  destruct (monotonic_value w1) as (w2 & E2 & Q2).
  pose proof (monotonic_steady w1) as S2. rewrite E2 in S2. cbn in S2.
  rewrite (bind_step_ok _ _ _ _ _ E2) in Eout. unfold bind at 1, gets at 1 in Eout.
  destruct (pacing_wait cfg w2) as (w3 & E3 & Q3 & _).
  pose proof (pacing_wait_steady cfg (clock w2) (last_send_ts w2) w2) as S3.
  rewrite E3 in S3. cbn in S3.
  rewrite (bind_step_ok _ _ _ _ _ E3) in Eout.
  destruct S2 as (R2 & K2 & T2). destruct S3 as (R3 & K3 & T3).
  destruct (sendall_ready (_build_packet (addr cfg) cmd d1 d2 d3) w3)
    as (w4 & E4 & (R4 & K4 & T4) & S4); [congruence|].
  rewrite (bind_step_ok _ _ _ _ _ E4) in Eout.
  destruct (monotonic_value w4) as (w5 & E5 & (S5 & _)).
  pose proof (monotonic_steady w4) as (R5 & K5 & T5). rewrite E5 in R5, K5, T5.
  cbn in R5, K5, T5.
  rewrite (bind_step_ok _ _ _ _ _ E5) in Eout. cbn in Eout.
  eexists. split; [exact Eout|]. split.
  - unfold ready. cbn. replace (sock w5) with true by congruence.
    replace (sends w5) with (@nil (option exn)) by congruence. reflexivity.
  - exists [(clock w4, _build_packet (addr cfg) cmd d1 d2 d3)]. cbn. split; [|reflexivity].
    rewrite S5, S4. f_equal.
    destruct Q1 as (A1 & _), Q2 as (A2 & _), Q3 as (A3 & _). congruence.
Qed.

Lemma set_mute_ready (cfg : Config) (is_output : bool) (ch : Z) (mute : bool) (w : World) :
  ready w = true ->
  exists w', set_mute cfg is_output ch mute w = (Ok tt, w') /\
             ready w' = true /\ wrote [mute_frame cfg is_output ch mute] w w'.
Proof.
  intros Hr. unfold set_mute.
  destruct (one_shot_ready cfg CMD_MUTE (flag is_output) (Z.land ch 0xFF) (flag mute) 1 w Hr)
    as (w' & E & Hr' & Hw).
  exists w'. rewrite (bind_step_ok _ _ _ _ _ E). auto.
Qed.

(** [mute_all] as it runs: with [on = False] the body is skipped; with
    [on = True] the first argument of the first [set_mute] is evaluated
    first, and its subscript raises. Either way the link is not touched. *)
Lemma mute_all_run (d : Facade) (on : bool) (w : World) :
  mute_all d on w = (if on then Raise TypeError else Ok tt, w).
Proof. destruct on; reflexivity. Qed.

Lemma new_frames_none (log : list (Z * list byte)) : new_frames log log = [].
Proof. unfold new_frames. now rewrite Nat.sub_diag. Qed.

(** C2. [mute_all] sends no mute command at all, for [on = True] and for
    [on = False] alike, from any state of the link: [mute_all(False)]
    returns at once, [mute_all(True)] raises [TypeError] at the subscript
    of the name [input] before the first command, and the link is left as
    it was. So whatever the configured "channel in use" tables are, as
    soon as they mark one channel as in use the claim fails: that channel
    does not receive the mute state [on]. *)
Theorem mute_all_writes_no_frame (d : Facade) (on : bool) (w : World) :
  mute_all d on w = (if on then Raise TypeError else Ok tt, w) /\
  new_frames (sent w) (sent (exec (mute_all d on) w)) = [] /\
  (forall (input output : gmap string bool) (is_output : bool) (ch : Z),
     (if is_output then output else input) !! pretty ch = Some true ->
     ~ mute_all_gated d input output on w).
Proof.
  assert (Hn : new_frames (sent w) (sent (exec (mute_all d on) w)) = []).
  { unfold exec. rewrite mute_all_run. cbn [snd]. apply new_frames_none. }
  split; [apply mute_all_run|]. split; [exact Hn|].
  intros input output is_output ch Hin H. unfold mute_all_gated in H. cbn zeta in H.
  destruct (H is_output ch) as [_ Hsome]. specialize (Hsome Hin).
  rewrite Hn in Hsome. exact Hsome.
Qed.

(** On the default configuration and a working link: [mute_all(False)],
    which the scenes of the API call to unmute, returns without a command
    to input channel 0, which is marked in use; [mute_all(True)] raises
    [TypeError], and output channel 4, marked in use, is not muted. *)
Example mute_all_default_configuration :
  mute_all facade_default false silent_link = (Ok tt, silent_link) /\
  mute_all facade_default true silent_link = (Raise TypeError, silent_link) /\
  ~ mute_all_gated facade_default dsp_input dsp_output false silent_link /\
  ~ mute_all_gated facade_default dsp_input dsp_output true silent_link.
Proof.
  split; [reflexivity|]. split; [reflexivity|]. split; intros H.
  - destruct (H false 0) as [_ Hin]. specialize (Hin eq_refl).
    vm_compute in Hin. exact Hin.
  - destruct (H true 4) as [_ Hin]. specialize (Hin eq_refl).
    vm_compute in Hin. exact Hin.
Qed.

(** *** The gain step *)

Lemma set_gain_nonzero (cfg : Config) (is_output : bool) (channel sign : Z) :
  sign <> 0 -> set_gain cfg is_output channel sign = set_gain cfg is_output channel 1.
Proof.
  intros Hs. unfold set_gain. now destruct (Z.eqb_spec sign 0).
Qed.

Lemma set_gain_ready (cfg : Config) (is_output : bool) (channel sign : Z) (w : World) :
  sign <> 0 -> ready w = true ->
  wrote [gain_frame cfg is_output channel] w (exec (set_gain cfg is_output channel sign) w).
Proof.
  intros Hs Hr. rewrite (set_gain_nonzero cfg is_output channel sign Hs).
  unfold exec, set_gain, gain_frame. cbn [Z.eqb].
  destruct (one_shot_ready cfg CMD_GAIN (flag is_output) (Z.land channel 0xFF) 1 1 w Hr)
    as (w' & E & _ & Hw).
  rewrite (bind_step_ok _ _ _ _ _ E). exact Hw.
Qed.

Lemma steps_apart_table :
  forallb steps_apart_result (map DbCode.code_to_db DbCode.all_codes) = true.
Proof. vm_compute. reflexivity. Qed.

(** Every value a gain query can return steps to two different values. *)
Lemma decode_gain_steps_apart (hi lo : Z) (cur : float) :
  decode_gain (Some (hi, lo)) = Ok cur -> steps_apart cur = true.
Proof.
  rewrite decode_gain_cases. case_decide.
  - intros [= <-]. vm_compute. reflexivity.
  - cbn zeta. intros E. pose proof steps_apart_table as T.
    rewrite forallb_forall in T.
    match type of E with
    | DbCode.code_to_db ?c = _ =>
        specialize (T (DbCode.code_to_db c));
        rewrite E in T; apply T; rewrite <- E; apply in_map;
        apply DbCodeFacts.all_codes_spec
    end.
    repeat case_decide; lia.
Qed.

Lemma get_gain_db_steps_apart (cfg : Config) (is_output : bool) (channel : Z)
    (w w' : World) (cur : float) :
  get_gain_db cfg is_output channel w = (Ok cur, w') -> steps_apart cur = true.
Proof.
  intros E. destruct (get_gain_db_value _ _ _ _ _ _ E) as (hi & lo & H).
  exact (decode_gain_steps_apart hi lo cur H).
Qed.

Lemma send_command_writes (cfg : Config) (cmd d1 d2 d3 answ_byte : Z)
    (expect_reply : option bool) (expect_echo : bool) (reply_timeout : option Z)
    (w : World) :
  let w' := exec (send_command cfg cmd d1 d2 d3 answ_byte expect_reply
                    expect_echo reply_timeout) w in
  sent w' = sent w \/
  exists t, sent w' = (t, _build_packet (addr cfg) cmd d1 d2 d3) :: sent w.
Proof.
  intros w'. subst w'.
  remember (exec (send_command cfg cmd d1 d2 d3 answ_byte expect_reply
                    expect_echo reply_timeout) w) as w' eqn:Ew.
  unfold exec, send_command in Ew.
  pose proof (connect_quiet cfg w) as Q1.
  destruct (connect cfg w) as [[[]|e|] w1] eqn:E1; cbn in Q1.
  2:{ rewrite (bind_step_raise _ _ _ _ _ E1) in Ew. subst w'. left. apply Q1. }
  2:{ rewrite (bind_step_diverge _ _ _ _ E1) in Ew. subst w'. left. apply Q1. }
  rewrite (bind_step_ok _ _ _ _ _ E1) in Ew.
  destruct (monotonic_value w1) as (w2 & E2 & Q2).
  rewrite (bind_step_ok _ _ _ _ _ E2) in Ew.
  unfold bind at 1, gets at 1 in Ew.
  destruct (pacing_wait cfg w2) as (w3 & E3 & Q3 & C3).
  rewrite (bind_step_ok _ _ _ _ _ E3) in Ew.
  assert (S3 : sent w3 = sent w).
  { destruct Q1 as (A1 & _), Q2 as (A2 & _), Q3 as (A3 & _). congruence. }
  destruct (sendall_spec (_build_packet (addr cfg) cmd d1 d2 d3) w3)
    as [(w4 & E4 & S4 & L4 & C4) | (e & w4 & E4 & Q4)].
  2:{ rewrite (bind_step_raise _ _ _ _ _ E4) in Ew. subst w'. left. cbn.
      destruct Q4 as (A4 & _). congruence. }
  rewrite (bind_step_ok _ _ _ _ _ E4) in Ew.
  destruct (monotonic_value w4) as (w5 & E5 & (S5 & L5 & C5)).
  rewrite (bind_step_ok _ _ _ _ _ E5) in Ew.
  unfold bind at 1, modify at 1 in Ew.
  match type of Ew with
  | _ = snd (?rest ?w6) =>
      pose proof (reply_part_quiet cfg (_build_packet (addr cfg) cmd d1 d2 d3)
                    answ_byte
                    (match expect_reply with
                     | Some b => b
                     | None => existsb (Z.eqb cmd) CMDS_WITH_REPLY
                     end)
                    expect_echo
                    (match reply_timeout with
                     | Some t => t
                     | None => Z.max (timeout cfg) (2 * sec)
                     end) w6) as (S7 & _)
  end.
  cbn zeta in *. right. exists (clock w4). subst w'. rewrite S7.
  cbn [sent set_last_send_ts]. rewrite S5, S4, S3. reflexivity.
Qed.

(** A [send_command] that returns has written its frame. *)
Lemma send_command_ok_writes (cfg : Config) (cmd d1 d2 d3 answ_byte : Z)
    (expect_reply : option bool) (expect_echo : bool) (reply_timeout : option Z)
    (w w' : World) (r : option (Z * Z)) :
  send_command cfg cmd d1 d2 d3 answ_byte expect_reply expect_echo reply_timeout w
    = (Ok r, w') ->
  exists t, sent w' = (t, _build_packet (addr cfg) cmd d1 d2 d3) :: sent w.
Proof.
  intros E. unfold send_command in E.
  pose proof (connect_quiet cfg w) as Q1.
  destruct (connect cfg w) as [[[]|e|] w1] eqn:E1; cbn in Q1.
  2:{ rewrite (bind_step_raise _ _ _ _ _ E1) in E. discriminate. }
  2:{ rewrite (bind_step_diverge _ _ _ _ E1) in E. discriminate. }
  rewrite (bind_step_ok _ _ _ _ _ E1) in E.
  destruct (monotonic_value w1) as (w2 & E2 & Q2).
  rewrite (bind_step_ok _ _ _ _ _ E2) in E.
  unfold bind at 1, gets at 1 in E.
  destruct (pacing_wait cfg w2) as (w3 & E3 & Q3 & C3).
  rewrite (bind_step_ok _ _ _ _ _ E3) in E.
  destruct (sendall_spec (_build_packet (addr cfg) cmd d1 d2 d3) w3)
    as [(w4 & E4 & S4 & L4 & C4) | (e & w4 & E4 & Q4)].
  2:{ rewrite (bind_step_raise _ _ _ _ _ E4) in E. discriminate. }
  rewrite (bind_step_ok _ _ _ _ _ E4) in E.
  destruct (monotonic_value w4) as (w5 & E5 & (S5 & L5 & C5)).
  rewrite (bind_step_ok _ _ _ _ _ E5) in E.
  unfold bind at 1, modify at 1 in E.
  match type of E with
  | ?rest ?w6 = _ =>
      pose proof (reply_part_quiet cfg (_build_packet (addr cfg) cmd d1 d2 d3)
                    answ_byte
                    (match expect_reply with
                     | Some b => b
                     | None => existsb (Z.eqb cmd) CMDS_WITH_REPLY
                     end)
                    expect_echo
                    (match reply_timeout with
                     | Some t => t
                     | None => Z.max (timeout cfg) (2 * sec)
                     end) w6) as (S7 & _)
  end.
  cbn zeta in *. rewrite E in S7. cbn [snd] in S7.
  exists (clock w4). rewrite S7. cbn [sent set_last_send_ts]. rewrite S5, S4.
  destruct Q1 as (A1 & _), Q2 as (A2 & _), Q3 as (A3 & _). congruence.
Qed.

(** A [get_gain_db] that returns has written its query once, or twice
    when the first query ended in a [TimeoutError] after its write. *)
Lemma get_gain_db_ok_writes (cfg : Config) (is_output : bool) (channel : Z)
    (w w' : World) (cur : float) :
  get_gain_db cfg is_output channel w = (Ok cur, w') ->
  exists qs, sent w' = qs ++ sent w /\
             (1 <= length qs <= 2)%nat /\
             Forall (fun q => snd q = gain_query_frame cfg is_output channel) qs.
Proof.
  intros E. pose proof (get_gain_db_run cfg is_output channel w) as R.
  unfold eval, exec in R. rewrite E in R. cbn [fst snd] in R.
  remember (Ok cur) as r eqn:Er.
  destruct R as [hi lo w1 F1 | w0 hi lo w1 F0 F1 | e w1 F1 Hne | w0 e w1 F0 F1];
    try discriminate; unfold gain_query in F1.
  - destruct (send_command_ok_writes _ _ _ _ _ _ _ _ _ _ _ _ F1) as (t & S1).
    exists [(t, gain_query_frame cfg is_output channel)].
    split; [exact S1|]. split; [cbn; lia|]. repeat constructor.
  - destruct (send_command_ok_writes _ _ _ _ _ _ _ _ _ _ _ _ F1) as (t & S1).
    pose proof (send_command_writes cfg CMD_GET_GAIN (flag is_output) (Z.land channel 0xFF)
                  0 2 (Some true) false (Some (3 * sec)) w) as S0.
    cbn zeta in S0. unfold exec in S0. fold (gain_query cfg is_output channel) in S0.
    rewrite F0 in S0. cbn [snd] in S0.
    destruct S0 as [S0 | (t0 & S0)].
    + exists [(t, gain_query_frame cfg is_output channel)].
      split; [rewrite S1, S0; reflexivity|]. split; [cbn; lia|]. repeat constructor.
    + exists [(t, gain_query_frame cfg is_output channel);
              (t0, gain_query_frame cfg is_output channel)].
      split; [rewrite S1, S0; reflexivity|]. split; [cbn; lia|]. repeat constructor.
Qed.

(** An [apply_gain_delta] that returns has written the gain query and
    then, as the newest frame of the log, the frame of the gain step. *)
Lemma apply_gain_delta_writes (d : Facade) (bus : string) (sign : Z)
    (w w' : World) (v : float) :
  sign <> 0 ->
  apply_gain_delta d bus sign w = (Ok v, w') ->
  exists is_out ch t qs,
    bus_map d !! bus = Some (is_out, ch) /\
    sent w' = (t, gain_frame (cli d) is_out ch) :: qs ++ sent w /\
    (1 <= length qs <= 2)%nat /\
    Forall (fun q => snd q = gain_query_frame (cli d) is_out ch) qs.
Proof.
  intros Hs E. unfold apply_gain_delta, _resolve in E.
  destruct (bus_map d !! bus) as [[is_out ch]|]; [|discriminate].
  unfold bind at 1, ret at 1 in E.
  apply bind_ok in E as (cur & w1 & E1 & E).
  apply bind_ok in E as ([] & w2 & E2 & E). injection E as _ <-.
  destruct (get_gain_db_ok_writes _ _ _ _ _ _ E1) as (qs & S1 & Hl & Hq).
  rewrite (set_gain_nonzero (cli d) is_out ch sign Hs) in E2.
  unfold set_gain in E2. cbn [Z.eqb] in E2.
  apply bind_ok in E2 as (r & w3 & E3 & E2). injection E2 as <-.
  destruct (send_command_ok_writes _ _ _ _ _ _ _ _ _ _ _ _ E3) as (t & S3).
  exists is_out, ch, t, qs. split; [reflexivity|]. split; [|auto].
  rewrite S3, S1. reflexivity.
Qed.

(** The reply part of a two-byte query on an idle link whose peer has the
    two bytes ready: it returns them. *)
Lemma reply_part_answered (cfg : Config) (pkt : list byte) (tmo : Z) (w : World)
    (b1 b2 : byte) (more : list byte) (rest : list rx_event) :
  latency w = [] -> sock w = true -> rx w = RxData (b1 :: b2 :: more) :: rest ->
  0 < tmo ->
  exists w', reply_part cfg pkt 2 true false tmo w
             = (Ok (Some (int_of_byte b1, int_of_byte b2)), w') /\
             sock w' = true /\ sends w' = sends w.
Proof.
  intros Hl Hk Hr Ht.
  unfold reply_part, sleep, _read_reply_packet, _recv_exact, monotonic, tick, bind, gets,
    modify, ret, raise, lift.
  cbn [negb]. change (20 * ms <? 0) with false.
  change (Z.to_nat 2) with 2%nat. cbn [recv_loop length]. change (Z.of_nat 0 <? 2) with true.
  unfold recv, monotonic, tick, bind, gets, modify, ret, raise.
  change (Z.to_nat (2 - Z.of_nat 0)) with 2%nat.
  repeat (cbv beta iota;
          cbn [latency sock rx clock set_clock set_sock_timeout set_rx negb andb
               firstn skipn app length];
          rewrite ?Hl, ?Hk, ?Hr).
  replace (clock w + 20 * ms + tmo - (clock w + 20 * ms) <=? 0) with false
    by (symmetry; apply Z.leb_gt; lia).
  repeat (cbv beta iota;
          cbn [latency sock rx clock set_clock set_sock_timeout set_rx negb andb
               firstn skipn app length];
          rewrite ?Hl, ?Hk, ?Hr).
  cbn [firstn skipn length app].
  change (Z.of_nat 2 <? 2) with false. cbv beta iota. cbn [_parse_packet].
  eexists. split; [reflexivity|]. cbn. auto.
Qed.

(** On a link that answers, the gain query returns the two bytes, and
    the link stays ready. *)
Lemma gain_query_answered (cfg : Config) (is_output : bool) (channel : Z) (w : World) :
  answers w = true ->
  exists hi lo w1,
    gain_query cfg is_output channel w = (Ok (Some (hi, lo)), w1) /\ ready w1 = true.
Proof.
  unfold answers. intros H. apply andb_true_iff in H as (H & Hrx).
  apply andb_true_iff in H as (Hr & Hl).
  destruct (latency w) as [|] eqn:El; [clear Hl | discriminate].
  destruct (rx w) as [|[[|b1 [|b2 more]]| |] rest] eqn:Er; try discriminate. clear Hrx.
  apply ready_inv in Hr as (Hc & Hs).
  remember (gain_query cfg is_output channel w) as out eqn:Eout.
  unfold gain_query, send_command in Eout.
  destruct (connect_cases cfg w) as [(w1 & E1 & R1 & T1 & K1) | (e & w1 & E1 & K & C)].
  2:{ exfalso. destruct Hc; congruence. }
  destruct (connect_idle cfg w w1 El E1) as (_ & Hl1).
  rewrite (bind_step_ok _ _ _ _ _ E1) in Eout.
  destruct (monotonic_value w1) as (w2 & E2 & _).
  destruct (monotonic_idle w1 w2 _ Hl1 E2) as (-> & _).
  rewrite (bind_step_ok _ _ _ _ _ E2) in Eout. unfold bind at 1, gets at 1 in Eout.
  destruct (pacing_wait cfg w1) as (w3 & E3 & _).
  pose proof (pacing_wait_steady cfg (clock w1) (last_send_ts w1) w1) as S3.
  rewrite E3 in S3. cbn in S3. destruct S3 as (R3 & K3 & T3).
  destruct (pacing_wait_idle cfg w1 w3 Hl1 E3) as (_ & Hl3).
  rewrite (bind_step_ok _ _ _ _ _ E3) in Eout.
  destruct (sendall_ready (_build_packet (addr cfg) CMD_GET_GAIN (flag is_output)
                             (Z.land channel 0xFF) 0) w3)
    as (w4 & E4 & (R4 & K4 & T4) & _); [congruence|].
  destruct (sendall_idle _ w3 w4 Hl3 E4) as (_ & Hl4).
  rewrite (bind_step_ok _ _ _ _ _ E4) in Eout.
  destruct (monotonic_value w4) as (w5 & E5 & _).
  destruct (monotonic_idle w4 w5 _ Hl4 E5) as (-> & _).
  rewrite (bind_step_ok _ _ _ _ _ E5) in Eout.
  unfold bind at 1, modify at 1 in Eout. cbn [negb] in Eout.
  destruct (reply_part_answered cfg
              (_build_packet (addr cfg) CMD_GET_GAIN (flag is_output) (Z.land channel 0xFF) 0)
              (3 * sec) (set_last_send_ts (clock w4) w4) b1 b2 more rest)
    as (w6 & E6 & K6 & T6);
    [exact Hl4 | cbn; congruence | cbn; congruence | unfold sec; lia |].
  unfold reply_part in E6. cbn [negb] in E6. rewrite E6 in Eout.
  exists (int_of_byte b1), (int_of_byte b2), w6. split; [exact Eout|].
  unfold ready. rewrite K6, T6. cbn [sends set_last_send_ts orb andb].
  replace (sends w4) with (@nil (option exn)) by congruence. reflexivity.
Qed.

(** On a link that answers, [apply_gain_delta] on a bus of the map
    returns. *)
Lemma apply_gain_delta_returns (d : Facade) (bus : string) (sign : Z) (w : World)
    (is_out : bool) (ch : Z) :
  bus_map d !! bus = Some (is_out, ch) -> answers w = true ->
  exists v w', apply_gain_delta d bus sign w = (Ok v, w').
Proof.
  intros Hb Ha. unfold apply_gain_delta, _resolve. rewrite Hb.
  unfold bind at 1, ret at 1.
  destruct (gain_query_answered (cli d) is_out ch w Ha) as (hi & lo & w1 & E1 & Hr1).
  destruct (decode_gain_total hi lo) as (cur & Ed).
  assert (Eg : get_gain_db (cli d) is_out ch w = (Ok cur, w1)).
  { unfold get_gain_db, bind, try_except_only, lift. rewrite E1, Ed. reflexivity. }
  rewrite (bind_step_ok _ _ _ _ _ Eg).
  unfold set_gain.
  destruct (one_shot_ready (cli d) CMD_GAIN (flag is_out) (Z.land ch 0xFF)
              (if sign =? 0 then 0 else 1) 1 w1 Hr1) as (w2 & E2 & _).
  rewrite (bind_step_ok _ _ _ _ _ (bind_step_ok _ _ _ _ _ E2)).
  unfold ret. eauto.
Qed.

(** C10. The gain step writes the same frame for both directions: for
    every nonzero [sign] the direction byte is 1, so [set_gain] with
    sign +1 and with sign -1 are the same command, and [apply_gain_delta]
    leaves the same world, with the same frames on the wire, for a
    positive and for a negative step; the value it returns differs: the
    downward estimate lies below the upward one. An [apply_gain_delta]
    that returns has written the gain query, once or twice, and then that
    frame of the gain step as the newest of the log; and on a link that
    answers the query it does return. *)
Theorem gain_step_frame_ignores_direction (d : Facade) (bus : string)
    (is_output : bool) (channel sign : Z) (w : World) :
  sign <> 0 ->
  set_gain (cli d) is_output channel sign w = set_gain (cli d) is_output channel 1 w /\
  set_gain (cli d) is_output channel 1 w = set_gain (cli d) is_output channel (-1) w /\
  (ready w = true ->
   wrote [gain_frame (cli d) is_output channel] w
     (exec (set_gain (cli d) is_output channel sign) w)) /\
  exec (apply_gain_delta d bus 1) w = exec (apply_gain_delta d bus (-1)) w /\
  (forall up, eval (apply_gain_delta d bus 1) w = Ok up ->
     exists down, eval (apply_gain_delta d bus (-1)) w = Ok down /\
                  (down <? up)%float = true) /\
  (forall v w', apply_gain_delta d bus sign w = (Ok v, w') ->
     exists is_out ch t qs,
       bus_map d !! bus = Some (is_out, ch) /\
       sent w' = (t, gain_frame (cli d) is_out ch) :: qs ++ sent w /\
       (1 <= length qs <= 2)%nat /\
       Forall (fun q => snd q = gain_query_frame (cli d) is_out ch) qs) /\
  (is_Some (bus_map d !! bus) -> answers w = true ->
   exists v w', apply_gain_delta d bus sign w = (Ok v, w')).
Proof.
  intros Hs.
  split; [now rewrite (set_gain_nonzero (cli d) is_output channel sign Hs)|].
  split; [reflexivity|].
  split; [intros Hr; now apply set_gain_ready|].
  match goal with
  | |- ?A /\ ?B /\ ?C =>
      cut (A /\ B); [intros [H4 H5]; split; [exact H4|]; split; [exact H5|]|]
  end.
  { split.
    - intros v w' E. now apply (apply_gain_delta_writes d bus sign w w' v).
    - intros [[is_out ch] Hb] Ha. now apply (apply_gain_delta_returns d bus sign w is_out ch). }
  unfold exec, eval, apply_gain_delta, bind.
  destruct (_resolve d bus w) as [[[io ch]|e|] w1]; cbn [fst snd];
    [|split; [reflexivity | discriminate]..].
  destruct (get_gain_db (cli d) io ch w1) as [[cur|e|] w2] eqn:Eg; cbn [fst snd];
    [|split; [reflexivity | discriminate]..].
  change (set_gain (cli d) io ch (-1)) with (set_gain (cli d) io ch 1).
  destruct (set_gain (cli d) io ch 1 w2) as [[[]|e|] w3]; cbn [fst snd];
    [|split; [reflexivity | discriminate]..].
  split; [reflexivity|].
  intros up [= <-]. eexists. split; [reflexivity|].
  apply (get_gain_db_steps_apart _ _ _ _ _ _ Eg).
Qed.

Lemma gain_step_frame_ignores_direction_witness :
  -1 <> 0 /\
  set_gain cfg_default true 1 (-1) answering_link = set_gain cfg_default true 1 1 answering_link /\
  set_gain cfg_default true 1 1 answering_link = set_gain cfg_default true 1 (-1) answering_link /\
  (ready answering_link = true ->
   wrote [gain_frame cfg_default true 1] answering_link
     (exec (set_gain cfg_default true 1 (-1)) answering_link)) /\
  exec (apply_gain_delta facade_default "out1" 1) answering_link =
    exec (apply_gain_delta facade_default "out1" (-1)) answering_link /\
  (forall up, eval (apply_gain_delta facade_default "out1" 1) answering_link = Ok up ->
     exists down, eval (apply_gain_delta facade_default "out1" (-1)) answering_link = Ok down /\
                  (down <? up)%float = true) /\
  (forall v w', apply_gain_delta facade_default "out1" (-1) answering_link = (Ok v, w') ->
     exists is_out ch t qs,
       bus_map facade_default !! "out1" = Some (is_out, ch) /\
       sent w' = (t, gain_frame (cli facade_default) is_out ch) :: qs ++ sent answering_link /\
       (1 <= length qs <= 2)%nat /\
       Forall (fun q => snd q = gain_query_frame (cli facade_default) is_out ch) qs) /\
  (is_Some (bus_map facade_default !! "out1") -> answers answering_link = true ->
   exists v w', apply_gain_delta facade_default "out1" (-1) answering_link = (Ok v, w')).
Proof.
  split; [lia|].
  apply (gain_step_frame_ignores_direction facade_default "out1" true 1 (-1) answering_link).
  lia.
Defined.

(** *** Runs on concrete links *)

(** The two directions on that link: the estimates are +1 dB and -1 dB,
    and the wire carries the same two frames. *)
Example gain_step_both_directions :
  eval (apply_gain_delta facade_default "out1" 1) answering_link = Ok 1.0%float /\
  eval (apply_gain_delta facade_default "out1" (-1)) answering_link = Ok (-1.0)%float /\
  map snd (sent (exec (apply_gain_delta facade_default "out1" (-1)) answering_link)) =
    [gain_frame cfg_default true 1;
     _build_packet 3 CMD_GET_GAIN 1 1 0].
Proof. vm_compute. repeat split; reflexivity. Qed.

(** Runs of the gain query: an answer at once, an answer to the second
    query after a timeout, and two timeouts, after which no third query
    is made. *)
Example gain_query_runs :
  eval (get_gain_db cfg_default true 1) answering_link = Ok 0.0%float /\
  (let w := fresh (100 * sec) [] [] [] [RxTimeout; RxData ["000"%byte; "080"%byte]] in
   eval (get_gain_db cfg_default true 1) w = Ok (-20.0)%float /\
   length (sent (exec (get_gain_db cfg_default true 1) w)) = 2%nat) /\
  (let w := fresh (100 * sec) [] [] [] [RxTimeout; RxTimeout; RxData ["000"%byte; "080"%byte]] in
   eval (get_gain_db cfg_default true 1) w = Raise TimeoutError /\
   length (sent (exec (get_gain_db cfg_default true 1) w)) = 2%nat).
Proof. vm_compute. repeat split; reflexivity. Qed.

(** A reply with the high byte 0x02 and the low byte 0x50: the 16-bit
    code is 592, the fallback to the low byte is not taken, and the clamp
    makes it +12 dB; the low byte alone, code 80, is -20 dB. *)
Example gain_query_high_byte_reply :
  eval (get_gain_db cfg_default true 1)
    (fresh (100 * sec) [] [] [] [RxData ["002"%byte; "080"%byte]]) = Ok 12.0%float /\
  gain_claimed 2 80 = Ok (-20.0)%float.
Proof. vm_compute. split; reflexivity. Qed.

(** Two sends in a row on a link with [min_step] of 50 ms: the second
    frame is written 50 ms after the first. *)
Example back_to_back_sends :
  map fst (sent (exec (set_mute cfg_default true 0 true ;;; set_mute cfg_default true 1 true)
                   silent_link)) =
  [100 * sec + 50 * ms; 100 * sec].
Proof. vm_compute. reflexivity. Qed.

(** *** Frames of the volume commands *)

Lemma code_bytes (c : Z) :
  0 <= c <= 400 ->
  Z.land (Z.shiftr c 8) 0xFF = c / 256 /\ Z.land c 0xFF = c mod 256.
Proof.
  intros Hc. split.
  - rewrite Z.shiftr_div_pow2 by lia. change (2 ^ 8) with 256.
    change 0xFF with (Z.ones 8). rewrite Z.land_ones by lia. change (2 ^ 8) with 256.
    apply Z.mod_small. split; [apply Z.div_pos; lia|].
    apply Z.div_lt_upper_bound; lia.
  - change 0xFF with (Z.ones 8). rewrite Z.land_ones by lia. reflexivity.
Qed.

(** X4. For every code c of the table, [set_output_volume_db] and
    [set_input_volume_db] called with the decibel value of c on a working
    link return after writing exactly one frame, and the frame carries c
    itself: the command byte 0x45 or 0x44, the channel, and the high and
    low byte of c. *)
Theorem volume_frame_carries_code (cfg : Config) (ch c : Z) (w : World) :
  0 <= c <= 400 -> ready w = true ->
  exists db, DbCode.code_to_db c = Ok db /\
    (exists w', set_output_volume_db cfg ch db w = (Ok tt, w') /\
                wrote [_build_packet (addr cfg) CMD_OUTPUT_VOLUME (Z.land ch 0xFF)
                         (c / 256) (c mod 256)] w w') /\
    (exists w', set_input_volume_db cfg ch db w = (Ok tt, w') /\
                wrote [_build_packet (addr cfg) CMD_INPUT_VOLUME (Z.land ch 0xFF)
                         (c / 256) (c mod 256)] w w').
Proof.
  intros Hc Hr.
  destruct (DbCodeFacts.code_to_db_in_range c Hc) as (db & Edb). exists db.
  split; [exact Edb|].
  pose proof (DbCodeFacts.roundtrip_table c Hc) as Hrt.
  unfold DbCode.roundtrip in Hrt. rewrite Edb in Hrt. cbn [and_then] in Hrt.
  destruct (code_bytes c Hc) as (Hhi & Hlo).
  split.
  - unfold set_output_volume_db. unfold bind at 1, lift at 1. rewrite Hrt.
    rewrite Hhi, Hlo.
    destruct (one_shot_ready cfg CMD_OUTPUT_VOLUME (Z.land ch 0xFF) (c / 256) (c mod 256) 1 w Hr)
      as (w' & E & _ & Hw).
    exists w'. rewrite (bind_step_ok _ _ _ _ _ E). auto.
  - unfold set_input_volume_db. unfold bind at 1, lift at 1. rewrite Hrt.
    rewrite Hhi, Hlo.
    destruct (one_shot_ready cfg CMD_INPUT_VOLUME (Z.land ch 0xFF) (c / 256) (c mod 256) 1 w Hr)
      as (w' & E & _ & Hw).
    exists w'. rewrite (bind_step_ok _ _ _ _ _ E). auto.
Qed.

Lemma volume_frame_carries_code_witness :
  0 <= 281 <= 400 /\ ready silent_link = true /\
  exists db, DbCode.code_to_db 281 = Ok db /\
    (exists w', set_output_volume_db cfg_default 2 db silent_link = (Ok tt, w') /\
                wrote [_build_packet (addr cfg_default) CMD_OUTPUT_VOLUME (Z.land 2 0xFF)
                         (281 / 256) (281 mod 256)] silent_link w') /\
    (exists w', set_input_volume_db cfg_default 2 db silent_link = (Ok tt, w') /\
                wrote [_build_packet (addr cfg_default) CMD_INPUT_VOLUME (Z.land 2 0xFF)
                         (281 / 256) (281 mod 256)] silent_link w').
Proof.
  split; [lia|]. split; [reflexivity|].
  apply (volume_frame_carries_code cfg_default 2 281 silent_link); [lia | reflexivity].
Defined.

(** X5. The two bytes the volume commands write for a code c of the
    table are decoded by [get_gain_db] to the decibel value of c, for
    every c from 1 to 400; the bytes of code 0, that is of -60 dB, are
    decoded to 0.0 dB, since two zero bytes are taken as 0 dB before the
    code is looked at. *)
Theorem volume_code_reads_back (c : Z) :
  0 <= c <= 400 ->
  decode_gain (Some (c / 256, c mod 256)) =
  (if c =? 0 then Ok 0.0%float else DbCode.code_to_db c).
Proof.
  intros Hc.
  assert (Hhi : 0 <= c / 256 < 256).
  { split; [apply Z.div_pos; lia | apply Z.div_lt_upper_bound; lia]. }
  assert (Hlo : 0 <= c mod 256 < 256) by (apply Z.mod_pos_bound; lia).
  rewrite decode_gain_bytes by assumption.
  pose proof (Z.div_mod c 256 ltac:(lia)) as Hdm.
  destruct (Z.eqb_spec c 0) as [->|Hne].
  - reflexivity.
  - case_decide as Hz; [exfalso; lia|].
    f_equal. lia.
Qed.

Lemma volume_code_reads_back_witness :
  0 <= 0 <= 400 /\
  decode_gain (Some (0 / 256, 0 mod 256)) =
  (if 0 =? 0 then Ok 0.0%float else DbCode.code_to_db 0).
Proof. split; [lia|]. apply (volume_code_reads_back 0). lia. Defined.

(** *** The constructor *)

Lemma spaced_weaken (gap gap' : Z) (log : list (Z * list byte)) :
  gap' <= gap -> spaced gap log -> spaced gap' log.
Proof.
  intros Hg. induction log as [|[t2 f2] rest IH]; cbn; [auto|].
  intros (Hh & Ht). split; [|now apply IH].
  destruct rest as [|[t1 f1] rest']; [exact I | lia].
Qed.

(** X6. [RS232TCPClient.__init__] accepts exactly the device addresses
    1 to 254 and raises [ValueError] for every other one; the client it
    builds never writes two frames less than 20 ms apart, whatever
    [min_step_ms] it was given, since the step is [max(20, min_step_ms)]
    milliseconds. *)
Theorem constructed_client_paces (device_address min_step_ms timeout_ns : Z) :
  match new_client device_address min_step_ms timeout_ns with
  | Ok cfg =>
      1 <= device_address <= 254 /\ addr cfg = device_address /\
      min_step cfg = Z.max 20 min_step_ms * ms /\
      forall calls t0 lat conn snds peer,
        spaced (20 * ms) (sent (run_calls cfg calls (fresh t0 lat conn snds peer)))
  | Raise e => e = ValueError /\ ~ 1 <= device_address <= 254
  | Diverge => False
  end.
Proof.
  unfold new_client.
  destruct (Z.leb_spec 1 device_address), (Z.leb_spec device_address 254); cbn;
    try (split; [reflexivity | lia]).
  repeat split; try lia.
  intros calls t0 lat conn snds peer.
  eapply spaced_weaken; [|apply (run_calls_paced _ calls); apply fresh_paced].
  cbn. unfold ms. lia.
Qed.

(** *** The log follows the calls *)

Lemma run_calls_log (cfg : Config) (calls : list Call) (w : World) :
  exists l, sent (run_calls cfg calls w) = l ++ sent w /\
            sublist (rev (map snd l)) (map (frame_of cfg) calls).
Proof.
  revert w. induction calls as [|c calls IH]; intros w; cbn [run_calls map].
  - exists []. split; [reflexivity | constructor].
  - destruct (IH (exec (perform cfg c) w)) as (l & El & Hl).
    destruct (send_command_writes cfg (c_cmd c) (c_d1 c) (c_d2 c) (c_d3 c) (c_answ_byte c)
                (c_expect_reply c) (c_expect_echo c) (c_reply_timeout c) w) as [Hs | (t & Hs)];
      fold (perform cfg c) in Hs; cbn zeta in Hs.
    + exists l. rewrite El, Hs. split; [reflexivity|]. now apply sublist_cons.
    + exists (l ++ [(t, frame_of cfg c)]). rewrite El, Hs. split.
      * now rewrite <- app_assoc.
      * rewrite map_app, rev_app_distr. cbn. now apply sublist_skip.
Qed.

(** X7. Whatever the environment does, the frames a link has written
    after a sequence of [send_command] calls are frames of these calls,
    in the order of the calls and at most one for each call: a call that
    fails writes nothing or its own frame, and nothing else ever reaches
    the wire. *)
Theorem frames_follow_calls (cfg : Config) (calls : list Call) (t0 : Z)
    (lat : list N) (conn snds : list (option exn)) (peer : list rx_event) :
  sublist (rev (map snd (sent (run_calls cfg calls (fresh t0 lat conn snds peer)))))
    (map (frame_of cfg) calls).
Proof.
  destruct (run_calls_log cfg calls (fresh t0 lat conn snds peer)) as (l & El & Hl).
  rewrite El. cbn [fresh sent]. now rewrite app_nil_r.
Qed.

(** *** Exact reads *)

Lemma tick_rx (w : World) : rx (snd (tick w)) = rx w.
Proof. unfold tick. destruct (latency w); reflexivity. Qed.

(** A [recv] that returns gives the next bytes of the peer, no more than
    it was asked for. *)
Lemma recv_data (k : Z) (w w' : World) (chunk : list byte) :
  recv k w = (Ok chunk, w') ->
  (length chunk <= Z.to_nat k)%nat /\ pending (rx w) = chunk ++ pending (rx w').
Proof.
  unfold recv, bind at 1, gets at 1.
  destruct (rx w) as [|[bs| |] rest] eqn:Er.
  - cbn. discriminate.
  - pose proof (tick_rx w) as Ht. destruct (tick w) as [[[]|e|] w1] eqn:E1;
      [|unfold tick in E1; destruct (latency w); discriminate..].
    rewrite (bind_step_ok _ _ _ _ _ E1). cbn. intros [= <- <-]. cbn.
    split; [rewrite length_firstn; lia|].
    rewrite <- (firstn_skipn (Z.to_nat k) bs) at 1. rewrite <- app_assoc. f_equal.
    destruct (skipn (Z.to_nat k) bs); reflexivity.
  - cbn. discriminate.
  - pose proof (tick_rx w) as Ht. destruct (tick w) as [[[]|e|] w1] eqn:E1;
      [|unfold tick in E1; destruct (latency w); discriminate..].
    rewrite (bind_step_ok _ _ _ _ _ E1). cbn. intros [= <- <-]. cbn in Ht.
    split; [cbn; lia|]. rewrite Ht, Er. reflexivity.
Qed.

(** The step of the loop that looks at the deadline leaves the peer as it
    is. *)
Lemma deadline_step_rx (cfg : Config) (deadline : option Z) (w w' : World) :
  match deadline with
  | Some dl =>
      now <- monotonic ;;
      if dl - now <=? 0 then raise TimeoutError
      else modify (set_sock_timeout (Z.min (timeout cfg) (dl - now)))
  | None => ret tt
  end w = (Ok tt, w') ->
  rx w' = rx w.
Proof.
  destruct deadline as [dl|]; [|now intros [= <-]].
  destruct (monotonic_value w) as (w1 & E1 & _).
  pose proof (monotonic_steady w) as S1. rewrite E1 in S1. destruct S1 as (R1 & _).
  rewrite (bind_step_ok _ _ _ _ _ E1). destruct (dl - clock w1 <=? 0); [discriminate|].
  cbn. intros [= <-]. exact R1.
Qed.

Lemma recv_loop_collects (fuel : nat) (cfg : Config) (n : Z) (deadline : option Z) :
  forall (data out : list byte) (w w' : World),
    recv_loop fuel cfg n deadline data w = (Ok out, w') ->
    Z.of_nat (length data) <= Z.max 0 n ->
    Z.of_nat (length out) = Z.max 0 n /\
    data ++ pending (rx w) = out ++ pending (rx w').
Proof.
  induction fuel as [|fuel IH]; intros data out w w' E Hl; cbn [recv_loop] in E;
    destruct (Z.ltb_spec (Z.of_nat (length data)) n) as [Hlt|Hge];
    try discriminate; try (injection E as <- <-; split; [lia | reflexivity]).
  apply bind_ok in E as ([] & w1 & E1 & E).
  apply deadline_step_rx in E1.
  apply bind_ok in E as (chunk & w2 & E2 & E).
  apply recv_data in E2 as (Hk & Hp).
  destruct chunk as [|b chunk]; [discriminate|].
  apply IH in E as (Hn & Hq).
  - split; [exact Hn|]. rewrite <- Hq, <- app_assoc, <- E1, Hp. reflexivity.
  - rewrite length_app. cbn [length] in *. lia.
Qed.

(** An exact read that returns has taken the next bytes of the peer. *)
Lemma recv_exact_collects (cfg : Config) (n : Z) (deadline : option Z)
    (w w' : World) (data : list byte) :
  _recv_exact cfg n deadline w = (Ok data, w') ->
  Z.of_nat (length data) = Z.max 0 n /\
  pending (rx w) = data ++ pending (rx w').
Proof.
  unfold _recv_exact, bind at 1, gets at 1. destruct (sock w); [|discriminate].
  cbn [negb]. intros E. apply recv_loop_collects in E; [exact E | cbn; lia].
Qed.

(** X8. When [_recv_exact(n)] returns, it returns exactly [n] bytes
    (none for [n <= 0]), and they are the next bytes of the peer in the
    order of their arrival, however the peer split them into chunks; the
    bytes after them stay for the next read. *)
Theorem recv_exact_takes_next_bytes (cfg : Config) (n : Z) (deadline : option Z)
    (w w' : World) (data : list byte) :
  _recv_exact cfg n deadline w = (Ok data, w') ->
  Z.of_nat (length data) = Z.max 0 n /\
  pending (rx w) = data ++ pending (rx w').
Proof. apply recv_exact_collects. Qed.

Lemma recv_exact_takes_next_bytes_witness :
  let w := fresh 0 [] [] [] [RxData ["001"%byte]; RxData ["002"%byte; "003"%byte]] in
  let w1 := set_sock true w in
  let w' := exec (_recv_exact cfg_default 2 None) w1 in
  _recv_exact cfg_default 2 None w1 = (Ok ["001"%byte; "002"%byte], w') /\
  Z.of_nat (length ["001"%byte; "002"%byte]) = Z.max 0 2 /\
  pending (rx w1) = ["001"%byte; "002"%byte] ++ pending (rx w').
Proof.
  cbv zeta. split; [reflexivity|].
  apply (recv_exact_takes_next_bytes cfg_default 2 None
           (set_sock true (fresh 0 [] [] [] [RxData ["001"%byte]; RxData ["002"%byte; "003"%byte]]))).
  reflexivity.
Defined.

(** *** The echo option *)

Lemma bytes_eqb_length (a b : list byte) : bytes_eqb a b = true -> length a = length b.
Proof.
  revert b. induction a as [|x a IH]; intros [|y b]; cbn; try discriminate; [reflexivity|].
  intros H. apply andb_true_iff in H as (_ & H). f_equal. now apply IH.
Qed.

Lemma bind_ext_at {W A B} (m : M W A) (k k' : A -> M W B) (w : W) :
  (forall a w1, m w = (Ok a, w1) -> k a w1 = k' a w1) -> bind m k w = bind m k' w.
Proof.
  intros H. unfold bind. destruct (m w) as [[a|e|] w1]; [now apply H | reflexivity..].
Qed.

Lemma read_reply_echo (cfg : Config) (pkt : list byte) (n tmo : Z) (w : World) :
  Z.of_nat (length pkt) <> Z.max 0 n ->
  _read_reply_packet cfg pkt true n tmo w = _read_reply_packet cfg pkt false n tmo w.
Proof.
  intros Hn. unfold _read_reply_packet.
  apply bind_ext_at. intros now w1 _.
  apply bind_ext_at. intros first w2 E.
  apply recv_exact_collects in E as (Hl & _).
  destruct (bytes_eqb first pkt) eqn:Eb; [|reflexivity].
  apply bytes_eqb_length in Eb. exfalso. apply Hn. rewrite <- Eb. exact Hl.
Qed.

(** X9. The echo option of [send_command] has no effect unless the reply
    is read in units of nine bytes: a frame has nine bytes, so with any
    other [answ_byte] the first read never equals the frame sent, and the
    call with [expect_echo = True] behaves as the call without it. *)
Theorem echo_needs_nine_byte_reply (cfg : Config) (cmd d1 d2 d3 answ_byte : Z)
    (expect_reply : option bool) (reply_timeout : option Z) (w : World) :
  answ_byte <> 9 ->
  send_command cfg cmd d1 d2 d3 answ_byte expect_reply true reply_timeout w =
  send_command cfg cmd d1 d2 d3 answ_byte expect_reply false reply_timeout w.
Proof.
  intros Hn. unfold send_command.
  apply bind_ext_at. intros _ w1 _.
  apply bind_ext_at. intros now w2 _.
  apply bind_ext_at. intros last w3 _.
  apply bind_ext_at. intros _ w4 _.
  apply bind_ext_at. intros _ w5 _.
  apply bind_ext_at. intros stamp w6 _.
  apply bind_ext_at. intros _ w7 _.
  destruct (negb _); [reflexivity|].
  apply bind_ext_at. intros _ w8 _.
  unfold bind at 1 3. rewrite read_reply_echo; [reflexivity|].
  cbn [_build_packet map length]. lia.
Qed.

Lemma echo_needs_nine_byte_reply_witness :
  2 <> 9 /\
  send_command cfg_default CMD_GET_GAIN 1 1 0 2 (Some true) true None answering_link =
  send_command cfg_default CMD_GET_GAIN 1 1 0 2 (Some true) false None answering_link.
Proof.
  split; [lia|].
  apply (echo_needs_nine_byte_reply cfg_default CMD_GET_GAIN 1 1 0 2 (Some true) None
           answering_link).
  lia.
Defined.

(** *** Queries of one byte *)

Lemma sleep_rx (d : Z) (w w' : World) : sleep d w = (Ok tt, w') -> rx w' = rx w.
Proof.
  intros E. pose proof (sleep_steady d w) as S. rewrite E in S. apply S.
Qed.

(** A reply that [send_command] returns is the parse of the next bytes of
    the peer, [answ_byte] of them. *)
Lemma send_command_reply (cfg : Config) (cmd d1 d2 d3 n tmo : Z) (w w' : World)
    (r : option (Z * Z)) :
  send_command cfg cmd d1 d2 d3 n (Some true) false (Some tmo) w = (Ok r, w') ->
  exists data p, r = Some p /\ _parse_packet data = Ok p /\
                 Z.of_nat (length data) = Z.max 0 n /\
                 pending (rx w) = data ++ pending (rx w').
Proof.
  intros E.
  destruct (send_command_cases cfg cmd d1 d2 d3 n true false tmo w)
    as [(e & w1 & E1 & _) | (w1 & E1 & R1 & _)]; [congruence|].
  rewrite E1 in E. unfold reply_part in E. cbn [negb] in E.
  apply bind_ok in E as ([] & w2 & E2 & E). apply sleep_rx in E2.
  apply bind_ok in E as (resp & w3 & E3 & E).
  unfold _read_reply_packet in E3.
  apply bind_ok in E3 as (now & w4 & E4 & E3).
  pose proof (monotonic_steady w2) as S4. rewrite E4 in S4. destruct S4 as (R4 & _).
  cbn [snd] in R4.
  apply bind_ok in E3 as (first & w5 & E5 & E3). cbn [andb] in E3. injection E3 as <- <-.
  apply recv_exact_collects in E5 as (Hl & Hp).
  apply bind_ok in E as (p & w6 & E6 & E). unfold lift in E6. injection E6 as E6 <-.
  injection E as <- <-.
  exists first, p. repeat split; try assumption. congruence.
Qed.

(** X10. When [get_preset] returns, the value is the next byte the
    device sent, as a number from 0 to 255, and exactly that one byte was
    consumed; the default 0 of its last line is never returned for lack
    of a reply. *)
Theorem get_preset_returns_first_byte (cfg : Config) (w w' : World) (v : Z) :
  get_preset cfg w = (Ok v, w') ->
  exists b, pending (rx w) = b :: pending (rx w') /\ v = int_of_byte b.
Proof.
  unfold get_preset. intros E. apply bind_ok in E as (r & w1 & E1 & E).
  apply send_command_reply in E1 as (data & [r0 r1] & -> & Hp & Hl & Hd).
  injection E as <- <-.
  destruct data as [|b [|b' data]]; cbn in Hl; try lia.
  cbn in Hp. injection Hp as <- _. exists b. auto.
Qed.

Lemma get_preset_returns_first_byte_witness :
  let w := fresh 0 [] [] [] [RxData ["002"%byte; "007"%byte]] in
  let w' := exec (get_preset cfg_default) w in
  get_preset cfg_default w = (Ok 2, w') /\
  exists b, pending (rx w) = b :: pending (rx w') /\ 2 = int_of_byte b.
Proof.
  cbv zeta. split; [reflexivity|].
  apply (get_preset_returns_first_byte cfg_default
           (fresh 0 [] [] [] [RxData ["002"%byte; "007"%byte]])).
  reflexivity.
Defined.

(** X11. When [get_mute] returns, the result is the truth value of the
    next byte the device sent ([False] exactly for a zero byte), and
    exactly that one byte was consumed. *)
Theorem get_mute_returns_first_byte (cfg : Config) (is_output : bool) (channel : Z)
    (w w' : World) (v : bool) :
  get_mute cfg is_output channel w = (Ok v, w') ->
  exists b, pending (rx w) = b :: pending (rx w') /\ v = negb (int_of_byte b =? 0).
Proof.
  unfold get_mute. intros E. apply bind_ok in E as (r & w1 & E1 & E).
  apply send_command_reply in E1 as (data & [r0 r1] & -> & Hp & Hl & Hd).
  injection E as <- <-.
  destruct data as [|b [|b' data]]; cbn in Hl; try lia.
  cbn in Hp. injection Hp as <- _. exists b. auto.
Qed.

Lemma get_mute_returns_first_byte_witness :
  let w := fresh 0 [] [] [] [RxData ["000"%byte; "001"%byte]] in
  let w' := exec (get_mute cfg_default true 3) w in
  get_mute cfg_default true 3 w = (Ok false, w') /\
  exists b, pending (rx w) = b :: pending (rx w') /\ false = negb (int_of_byte b =? 0).
Proof.
  cbv zeta. split; [reflexivity|].
  apply (get_mute_returns_first_byte cfg_default true 3
           (fresh 0 [] [] [] [RxData ["000"%byte; "001"%byte]])).
  reflexivity.
Defined.

(** *** The gain step of the facade *)

Lemma steps_in_range_table :
  forallb steps_in_range (map DbCode.code_to_db DbCode.all_codes) = true.
Proof. vm_compute. reflexivity. Qed.

Lemma stepped_direction (cur : float) (sign : Z) :
  stepped cur sign = stepped cur 1 \/ stepped cur sign = stepped cur (-1).
Proof.
  unfold stepped. destruct (Z.ltb_spec 0 sign); [left | right]; reflexivity.
Qed.

Lemma decode_gain_steps_in_range (hi lo : Z) (cur : float) (sign : Z) :
  decode_gain (Some (hi, lo)) = Ok cur -> in_db_range (stepped cur sign) = true.
Proof.
  intros E.
  assert (H : steps_in_range (Ok cur) = true).
  { revert E. rewrite decode_gain_cases. case_decide.
    - intros [= <-]. vm_compute. reflexivity.
    - cbn zeta. intros E. pose proof steps_in_range_table as T.
      rewrite forallb_forall in T. rewrite <- E. apply T. apply in_map.
      apply DbCodeFacts.all_codes_spec. repeat case_decide; lia. }
  cbn in H. apply andb_true_iff in H as (H1 & H2).
  destruct (stepped_direction cur sign) as [-> | ->]; assumption.
Qed.

(** X12. [apply_gain_delta] and [apply_volume_delta] on a bus that the
    bus map does not hold raise [ValueError] before anything is sent,
    leaving the link untouched; and the value [apply_gain_delta] returns
    for a known bus always lies between -60 dB and +12 dB. *)
Theorem apply_gain_delta_outcomes (d : Facade) (bus : string) (sign : Z) (w : World) :
  (bus_map d !! bus = None ->
   apply_gain_delta d bus sign w = (Raise ValueError, w) /\
   apply_volume_delta d bus sign w = (Raise ValueError, w)) /\
  (forall v w', apply_gain_delta d bus sign w = (Ok v, w') ->
     is_Some (bus_map d !! bus) /\ in_db_range v = true).
Proof.
  split.
  - intros H. unfold apply_volume_delta, apply_gain_delta, _resolve. rewrite H.
    split; reflexivity.
  - intros v w' E. unfold apply_gain_delta, _resolve in E.
    destruct (bus_map d !! bus) as [[is_out ch]|]; [|discriminate].
    split; [eauto|]. unfold bind at 1, ret at 1 in E.
    apply bind_ok in E as (cur & w1 & E1 & E).
    apply bind_ok in E as ([] & w2 & _ & E). injection E as <- <-.
    destruct (get_gain_db_value _ _ _ _ _ _ E1) as (hi & lo & H).
    exact (decode_gain_steps_in_range hi lo cur sign H).
Qed.

Lemma apply_gain_delta_outcomes_witness :
  (apply_gain_delta facade_default "out9" 1 answering_link = (Raise ValueError, answering_link) /\
   apply_volume_delta facade_default "out9" 1 answering_link = (Raise ValueError, answering_link)) /\
  (is_Some (bus_map facade_default !! "out1") /\ in_db_range 1.0%float = true).
Proof.
  split.
  - apply (apply_gain_delta_outcomes facade_default "out9" 1 answering_link). reflexivity.
  - apply (proj2 (apply_gain_delta_outcomes facade_default "out1" 1 answering_link) 1.0%float
             (exec (apply_gain_delta facade_default "out1" 1) answering_link)).
    vm_compute. reflexivity.
Defined.

(** *** The socket is kept *)

#[local] Instance kept_preorder : PreOrder kept.
Proof.
  split.
  - intros w. unfold kept. auto.
  - intros a b c (S1 & C1) (S2 & C2). unfold kept. split; congruence.
Qed.

Lemma tick_kept : respects kept tick.
Proof. intros w. unfold tick, kept. destruct (latency w); cbn; auto. Qed.

Lemma monotonic_kept : respects kept monotonic.
Proof.
  apply respects_bind; [typeclasses eauto | apply tick_kept |].
  intros _. apply respects_gets. typeclasses eauto.
Qed.

Lemma sleep_kept (d : Z) : respects kept (sleep d).
Proof.
  unfold sleep. destruct (d <? 0); [apply respects_raise; typeclasses eauto|].
  apply respects_bind; [typeclasses eauto | apply tick_kept |].
  intros _ w. cbn. unfold kept. cbn. auto.
Qed.

Lemma sendall_kept (pkt : list byte) : respects kept (sendall pkt).
Proof.
  unfold sendall. apply respects_bind; [typeclasses eauto | apply tick_kept |].
  intros _ w. unfold bind, gets, modify, raise. cbn.
  destruct (sends w) as [|[e|] rest]; cbn; unfold kept; cbn; auto.
Qed.

Lemma recv_kept (k : Z) : respects kept (recv k).
Proof.
  intros w. unfold recv, bind, gets. cbn.
  destruct (rx w) as [|[bs| |] rest]; cbn; try (unfold kept; cbn; auto; fail);
    pose proof (tick_kept w) as T; destruct (tick w) as [[[]|e|] w1]; cbn in *; exact T.
Qed.

Lemma recv_loop_kept (fuel : nat) (cfg : Config) (n : Z) (deadline : option Z)
    (data : list byte) : respects kept (recv_loop fuel cfg n deadline data).
Proof.
  revert data. induction fuel as [|fuel IH]; intros data; cbn [recv_loop];
    destruct (Z.of_nat (length data) <? n);
    try apply respects_ret; try apply respects_diverge; try typeclasses eauto.
  apply respects_bind; [typeclasses eauto | |].
  - destruct deadline as [dl|]; [|apply respects_ret; typeclasses eauto].
    apply respects_bind; [typeclasses eauto | apply monotonic_kept |].
    intros now. destruct (dl - now <=? 0); [apply respects_raise; typeclasses eauto|].
    intros w. cbn. unfold kept. cbn. auto.
  - intros _. apply respects_bind; [typeclasses eauto | apply recv_kept |].
    intros [|b chunk]; [apply respects_raise; typeclasses eauto | apply IH].
Qed.

Lemma _recv_exact_kept (cfg : Config) (n : Z) (deadline : option Z) :
  respects kept (_recv_exact cfg n deadline).
Proof.
  unfold _recv_exact. apply respects_bind; [typeclasses eauto | apply respects_gets; typeclasses eauto |].
  intros s. destruct (negb s);
    [apply respects_raise; typeclasses eauto | apply recv_loop_kept].
Qed.

(** What follows [connect] in [send_command] leaves the socket and the
    script of the connection attempts alone. *)
Lemma send_command_kept (cfg : Config) (cmd d1 d2 d3 answ_byte : Z)
    (expect_reply : option bool) (expect_echo : bool) (reply_timeout : option Z)
    (w : World) :
  sock w = true ->
  kept w (exec (send_command cfg cmd d1 d2 d3 answ_byte expect_reply
                  expect_echo reply_timeout) w).
Proof.
  intros Hs. unfold exec, send_command.
  assert (Hc : connect cfg w = (Ok tt, w)) by (unfold connect, bind, gets; now rewrite Hs).
  rewrite (bind_step_ok _ _ _ _ _ Hc).
  revert w Hs Hc. 
  match goal with
  | |- forall w, _ -> _ -> kept w (snd (?m w)) => enough (H : respects kept m) by (intros w _ _; apply H)
  end.
  apply respects_bind; [typeclasses eauto | apply monotonic_kept |]. intros now.
  apply respects_bind; [typeclasses eauto | apply respects_gets; typeclasses eauto |].
  intros last.
  apply respects_bind; [typeclasses eauto | |].
  { destruct (_ <? _); [apply sleep_kept | apply respects_ret; typeclasses eauto]. }
  intros _. apply respects_bind; [typeclasses eauto | apply sendall_kept |]. intros _.
  apply respects_bind; [typeclasses eauto | apply monotonic_kept |]. intros stamp.
  apply respects_bind; [typeclasses eauto | |].
  { intros v. cbn. unfold kept. cbn. auto. }
  intros _. destruct (negb _); [apply respects_ret; typeclasses eauto|].
  apply respects_bind; [typeclasses eauto | apply sleep_kept |]. intros _.
  apply respects_bind; [typeclasses eauto | |].
  { unfold _read_reply_packet.
    apply respects_bind; [typeclasses eauto | apply monotonic_kept |]. intros t.
    apply respects_bind; [typeclasses eauto | apply _recv_exact_kept |]. intros first.
    destruct (_ && _); [apply _recv_exact_kept | apply respects_ret; typeclasses eauto]. }
  intros resp. apply respects_bind; [typeclasses eauto | apply respects_lift; typeclasses eauto |].
  intros r. apply respects_ret; typeclasses eauto.
Qed.

(** X13. A connected client keeps its socket through every sequence of
    [send_command] calls: no call closes it or opens another connection,
    whatever fails in between (a write error, a timeout, the peer closing
    the stream). *)
Theorem link_never_redials (cfg : Config) (calls : list Call) (w : World) :
  sock w = true ->
  sock (run_calls cfg calls w) = true /\ connects (run_calls cfg calls w) = connects w.
Proof.
  revert w. induction calls as [|c calls IH]; intros w Hs; cbn [run_calls]; [auto|].
  destruct (send_command_kept cfg (c_cmd c) (c_d1 c) (c_d2 c) (c_d3 c) (c_answ_byte c)
              (c_expect_reply c) (c_expect_echo c) (c_reply_timeout c) w Hs) as (S1 & C1).
  fold (perform cfg c) in S1, C1.
  destruct (IH (exec (perform cfg c) w)) as (S2 & C2); [congruence|].
  split; [exact S2 | congruence].
Qed.

Lemma link_never_redials_witness :
  let w := set_sock true (fresh 0 [] [Some OSError] [Some OSError] [RxEof]) in
  let calls := [{| c_cmd := CMD_MUTE; c_d1 := 1; c_d2 := 0; c_d3 := 1; c_answ_byte := 1;
                   c_expect_reply := None; c_expect_echo := false;
                   c_reply_timeout := None |};
                {| c_cmd := CMD_GET_MUTE; c_d1 := 1; c_d2 := 0; c_d3 := 0; c_answ_byte := 1;
                   c_expect_reply := None; c_expect_echo := false;
                   c_reply_timeout := None |}] in
  sock w = true /\
  sock (run_calls cfg_default calls w) = true /\
  connects (run_calls cfg_default calls w) = connects w.
Proof.
  cbv zeta. split; [reflexivity|].
  apply (link_never_redials cfg_default
           [{| c_cmd := CMD_MUTE; c_d1 := 1; c_d2 := 0; c_d3 := 1; c_answ_byte := 1;
               c_expect_reply := None; c_expect_echo := false;
               c_reply_timeout := None |};
            {| c_cmd := CMD_GET_MUTE; c_d1 := 1; c_d2 := 0; c_d3 := 0; c_answ_byte := 1;
               c_expect_reply := None; c_expect_echo := false;
               c_reply_timeout := None |}]
           (set_sock true (fresh 0 [] [Some OSError] [Some OSError] [RxEof]))).
  reflexivity.
Defined.

(** *** The bytes a gain query reads *)

#[local] Instance heard_preorder : PreOrder heard.
Proof.
  split.
  - intros w. reflexivity.
  - intros a b c H1 H2. unfold heard in *. congruence.
Qed.

Lemma steady_heard (w w' : World) : steady w w' -> heard w w'.
Proof. intros (R & _). unfold heard. now rewrite R. Qed.

Lemma connect_heard (cfg : Config) : respects heard (connect cfg).
Proof.
  intros w. unfold connect, create_connection, tick, bind, gets, modify, raise, ret, heard.
  destruct (sock w); [reflexivity|].
  destruct (latency w) as [|d rest]; cbn;
    destruct (connects w) as [|[e|] more]; reflexivity.
Qed.

Lemma sendall_heard (pkt : list byte) : respects heard (sendall pkt).
Proof.
  intros w. unfold sendall, tick, bind, gets, modify, raise, heard.
  destruct (latency w) as [|d rest]; cbn;
    destruct (sends w) as [|[e|] more]; reflexivity.
Qed.

(** A [recv] that raises takes no byte. *)
Lemma recv_raise_heard (k : Z) (w w' : World) (e : exn) :
  recv k w = (Raise e, w') -> heard w w'.
Proof.
  unfold recv, bind at 1, gets at 1, heard.
  destruct (rx w) as [|[bs| |] rest] eqn:Er.
  - unfold bind, modify, raise. intros [= _ <-]. rewrite <- Er. reflexivity.
  - destruct (tick w) as [[[]|e1|] w1] eqn:E1;
      [|unfold tick in E1; destruct (latency w); discriminate..].
    rewrite (bind_step_ok _ _ _ _ _ E1). cbn. discriminate.
  - unfold bind, modify, raise. intros [= _ <-]. cbn [snd]. unfold set_clock, set_rx. cbn [rx]. reflexivity.
  - destruct (tick w) as [[[]|e1|] w1] eqn:E1;
      [|unfold tick in E1; destruct (latency w); discriminate..].
    rewrite (bind_step_ok _ _ _ _ _ E1). cbn. discriminate.
Qed.

Lemma deadline_step_heard (cfg : Config) (deadline : option Z) :
  respects heard
    match deadline with
    | Some dl =>
        now <- monotonic ;;
        if dl - now <=? 0 then raise TimeoutError
        else modify (set_sock_timeout (Z.min (timeout cfg) (dl - now)))
    | None => ret tt
    end.
Proof.
  destruct deadline as [dl|]; [|apply respects_ret; typeclasses eauto].
  apply respects_bind; [typeclasses eauto | |].
  - intros w. apply steady_heard. apply monotonic_steady.
  - intros now. destruct (dl - now <=? 0); [apply respects_raise; typeclasses eauto|].
    intros w. reflexivity.
Qed.

(** A receive loop that raises has taken fewer bytes than it was to
    read, and they are lost. *)
Lemma recv_loop_loses (fuel : nat) (cfg : Config) (n : Z) (deadline : option Z) :
  forall (data : list byte) (w w' : World) (e : exn),
    recv_loop fuel cfg n deadline data w = (Raise e, w') ->
    exists lost, data ++ pending (rx w) = lost ++ pending (rx w') /\
                 Z.of_nat (length lost) < n.
Proof.
  induction fuel as [|fuel IH]; intros data w w' e E; cbn [recv_loop] in E;
    destruct (Z.ltb_spec (Z.of_nat (length data)) n) as [Hlt|Hge]; try discriminate.
  pose proof (deadline_step_heard cfg deadline w) as H1.
  unfold bind at 1 in E.
  match type of E with
  | match ?m w with _ => _ end = _ =>
      destruct (m w) as [[[]|e1|] w1]; cbn [snd] in H1; [| |discriminate]
  end.
  2:{ injection E as <- <-. exists data. split; [now rewrite H1 | exact Hlt]. }
  unfold bind at 1 in E.
  destruct (recv (n - Z.of_nat (length data)) w1) as [[chunk|e2|] w2] eqn:E2;
    [| |discriminate].
  - apply recv_data in E2 as (Hk & Hp). destruct chunk as [|b chunk].
    + injection E as <- <-. exists data. cbn in Hp. split; [congruence | exact Hlt].
    + apply IH in E as (lost & Hl & Hn). exists lost. split; [|exact Hn].
      rewrite <- Hl, <- app_assoc, <- Hp. now rewrite H1.
  - injection E as <- <-. apply recv_raise_heard in E2. exists data.
    split; [congruence | exact Hlt].
Qed.

(** A query that raises has dropped fewer bytes than its reply has. *)
Lemma send_command_loses (cfg : Config) (cmd d1 d2 d3 n tmo : Z) (w w' : World) (e : exn) :
  1 <= n ->
  send_command cfg cmd d1 d2 d3 n (Some true) false (Some tmo) w = (Raise e, w') ->
  exists lost, pending (rx w) = lost ++ pending (rx w') /\ Z.of_nat (length lost) < n.
Proof.
  intros Hn E. unfold send_command in E.
  pose proof (connect_heard cfg w) as H1.
  destruct (connect cfg w) as [[[]|e0|] w1] eqn:Ec; cbn [snd] in H1.
  2:{ rewrite (bind_step_raise _ _ _ _ _ Ec) in E. injection E as _ <-.
      exists []. split; [now rewrite H1 | cbn; lia]. }
  2:{ rewrite (bind_step_diverge _ _ _ _ Ec) in E. discriminate. }
  rewrite (bind_step_ok _ _ _ _ _ Ec) in E.
  destruct (monotonic_value w1) as (w2 & E2 & _).
  pose proof (monotonic_steady w1) as S2. rewrite E2 in S2. apply steady_heard in S2.
  rewrite (bind_step_ok _ _ _ _ _ E2) in E. unfold bind at 1, gets at 1 in E.
  destruct (pacing_wait cfg w2) as (w3 & E3 & _).
  pose proof (pacing_wait_steady cfg (clock w2) (last_send_ts w2) w2) as S3.
  rewrite E3 in S3. apply steady_heard in S3.
  rewrite (bind_step_ok _ _ _ _ _ E3) in E.
  pose proof (sendall_heard (_build_packet (addr cfg) cmd d1 d2 d3) w3) as H4.
  destruct (sendall (_build_packet (addr cfg) cmd d1 d2 d3) w3) as [[[]|e4|] w4] eqn:E4;
    cbn [snd] in H4, S2, S3.
  2:{ rewrite (bind_step_raise _ _ _ _ _ E4) in E. injection E as _ <-.
      exists []. split; [unfold heard in *; cbn [app]; congruence | cbn; lia]. }
  2:{ rewrite (bind_step_diverge _ _ _ _ E4) in E. discriminate. }
  rewrite (bind_step_ok _ _ _ _ _ E4) in E.
  destruct (monotonic_value w4) as (w5 & E5 & _).
  pose proof (monotonic_steady w4) as S5. rewrite E5 in S5. apply steady_heard in S5.
  rewrite (bind_step_ok _ _ _ _ _ E5) in E. unfold bind at 1, modify at 1 in E.
  cbn [negb] in E.
  destruct (sleep_spec (20 * ms) (set_last_send_ts (clock w5) w5)) as (w6 & E6 & _);
    [unfold ms; lia|].
  pose proof (sleep_steady (20 * ms) (set_last_send_ts (clock w5) w5)) as S6.
  rewrite E6 in S6. apply steady_heard in S6.
  rewrite (bind_step_ok _ _ _ _ _ E6) in E.
  unfold _read_reply_packet in E.
  destruct (monotonic_value w6) as (w7 & E7 & _).
  pose proof (monotonic_steady w6) as S7. rewrite E7 in S7. apply steady_heard in S7.
  unfold bind at 1 in E. unfold bind at 1 in E. rewrite E7 in E.
  assert (H07 : pending (rx w7) = pending (rx w)).
  { unfold heard in *. cbn [snd set_last_send_ts rx] in *. congruence. }
  unfold bind at 1 in E.
  destruct (_recv_exact cfg n (Some (clock w7 + tmo)) w7) as [[first|e8|] w8] eqn:E8.
  - cbn [andb ret] in E. apply recv_exact_collects in E8 as (Hl & _).
    destruct first as [|a [|b first]]; cbn in E; try discriminate. cbn in Hl. lia.
  - injection E as _ <-. unfold _recv_exact, bind at 1, gets at 1 in E8.
    destruct (sock w7); cbn [negb] in E8.
    + apply recv_loop_loses in E8 as (lost & Hl & Hlen). exists lost.
      cbn [app] in Hl. split; [congruence | exact Hlen].
    + injection E8 as _ <-. exists []. split; [now rewrite H07 | cbn; lia].
  - discriminate.
Qed.

(** X25. When [get_gain_db] returns, the value is the decoding of two
    bytes that follow each other in the stream of the device, and the
    call consumed them and at most one byte before them: a first query
    that times out after half a reply drops the byte it had read, and the
    second query decodes the two bytes after it. *)
Theorem get_gain_db_reads_two_bytes (cfg : Config) (is_output : bool) (channel : Z)
    (w w' : World) (v : float) :
  get_gain_db cfg is_output channel w = (Ok v, w') ->
  exists lost b1 b2,
    pending (rx w) = lost ++ b1 :: b2 :: pending (rx w') /\
    (length lost <= 1)%nat /\
    decode_gain (Some (int_of_byte b1, int_of_byte b2)) = Ok v.
Proof.
  intros E. unfold get_gain_db in E. apply bind_ok in E as (r & w1 & E1 & E).
  unfold lift in E. injection E as E <-.
  unfold try_except_only, gain_query in E1.
  assert (Hread : forall u u' r0,
            send_command cfg CMD_GET_GAIN (flag is_output) (Z.land channel 0xFF) 0 2
              (Some true) false (Some (3 * sec)) u = (Ok r0, u') ->
            exists b1 b2, pending (rx u) = b1 :: b2 :: pending (rx u') /\
                          r0 = Some (int_of_byte b1, int_of_byte b2)).
  { intros u u' r0 Eu. apply send_command_reply in Eu as (data & p & -> & Hp & Hl & Hd).
    destruct data as [|b1 [|b2 [|b3 data]]]; cbn in Hl; try lia.
    cbn in Hp. injection Hp as <-. exists b1, b2. auto. }
  destruct (send_command cfg CMD_GET_GAIN (flag is_output) (Z.land channel 0xFF) 0 2
              (Some true) false (Some (3 * sec)) w) as [[r0|e0|] w0] eqn:E0.
  - injection E1 as -> ->. destruct (Hread _ _ _ E0) as (b1 & b2 & Hp & ->).
    exists [], b1, b2. cbn. auto.
  - destruct (exn_eqb e0 TimeoutError); [|discriminate].
    apply send_command_loses in E0 as (lost & Hl & Hlen); [|lia].
    destruct (Hread _ _ _ E1) as (b1 & b2 & Hp & ->).
    exists lost, b1, b2.
    split; [now rewrite Hl, Hp|]. split; [lia | exact E].
  - discriminate.
Qed.

Lemma get_gain_db_reads_two_bytes_witness :
  let w := fresh 0 [] [] [] [RxData ["001"%byte]; RxTimeout;
                             RxData ["000"%byte; "080"%byte]] in
  let w' := exec (get_gain_db cfg_default true 1) w in
  get_gain_db cfg_default true 1 w = (Ok (-20.0)%float, w') /\
  exists lost b1 b2,
    pending (rx w) = lost ++ b1 :: b2 :: pending (rx w') /\
    (length lost <= 1)%nat /\
    decode_gain (Some (int_of_byte b1, int_of_byte b2)) = Ok (-20.0)%float.
Proof.
  cbv zeta. split; [vm_compute; reflexivity|].
  apply (get_gain_db_reads_two_bytes cfg_default true 1
           (fresh 0 [] [] [] [RxData ["001"%byte]; RxTimeout;
                              RxData ["000"%byte; "080"%byte]])).
  vm_compute. reflexivity.
Defined.

End MixerFacts.

(* ================================================================== *)
(** ** ProjectorLink *)

Module PJLinkFacts.

Import Stdlib.Strings.Ascii.
Import PJLink.
Open Scope string_scope.

Section clients.

Variable md5_hex : string -> string.

(** *** Steps that open and close nothing *)

#[local] Instance calm_preorder : PreOrder calm.
Proof.
  split.
  - intros w. unfold calm. repeat split; lia.
  - intros a b c (O1 & N1 & C1) (O2 & N2 & C2). unfold calm.
    repeat split; [congruence | congruence | lia].
Qed.

Ltac calm_step := unfold calm; cbn; repeat split; lia.

Lemma sleep_calm (d : Z) : respects calm (sleep d).
Proof. intros w. calm_step. Qed.

Lemma write_calm (c : nat) (data : string) : respects calm (write c data).
Proof. intros w. calm_step. Qed.

Lemma drain_calm (c : nat) : respects calm (drain c).
Proof.
  intros w. unfold drain, bind, gets, modify, ret, raise. cbn.
  destruct (drains (the_peer c w)) as [|[e|] rest]; calm_step.
Qed.

Lemma read_line_calm (c : nat) (tmo : Z) : respects calm (read_line c tmo).
Proof.
  intros w. unfold read_line, bind, gets, modify, ret, raise. cbn.
  destruct (reads (the_peer c w)) as [|[s|e] rest]; try calm_step.
  destruct e; calm_step.
Qed.

Lemma wait_closed_calm (c : nat) : respects calm (wait_closed c).
Proof.
  intros w. unfold wait_closed, bind, gets, ret, raise. cbn.
  destruct (closing (the_peer c w)); calm_step.
Qed.

Lemma sendall_calm (c : nat) (data : string) : respects calm (sendall c data).
Proof.
  apply respects_bind; [typeclasses eauto | apply drain_calm |].
  intros _. apply write_calm.
Qed.

Lemma _readline_calm (cfg : Config) (c : nat) : respects calm (_readline cfg c).
Proof.
  apply respects_bind; [typeclasses eauto | apply read_line_calm |].
  intros s. apply respects_ret. typeclasses eauto.
Qed.

Lemma nudge_calm (c : nat) :
  respects calm (try_except (sendall c CRLF) (fun _ => ret tt)).
Proof.
  apply respects_try_except; [typeclasses eauto | apply sendall_calm |].
  intros _. apply respects_ret. typeclasses eauto.
Qed.

Lemma banner_read_calm (cfg : Config) (c : nat) : respects calm (banner_read cfg c).
Proof.
  apply respects_try_except_only; [typeclasses eauto | apply _readline_calm |].
  apply respects_bind; [typeclasses eauto | apply nudge_calm |].
  intros _. apply respects_ret. typeclasses eauto.
Qed.

Lemma banner_loop_calm (fuel : nat) (cfg : Config) (c : nat) (t_end : Z) :
  respects calm (banner_loop fuel cfg c t_end).
Proof.
  induction fuel as [|fuel IH]; cbn [banner_loop];
    (apply respects_bind; [typeclasses eauto | apply respects_gets; typeclasses eauto |]);
    intros now; destruct (now <? t_end)%Z;
    try (apply respects_ret; typeclasses eauto);
    try (apply respects_diverge; typeclasses eauto).
  apply respects_bind; [typeclasses eauto | apply banner_read_calm |].
  intros [|a line]; [|apply respects_ret; typeclasses eauto].
  apply respects_bind; [typeclasses eauto | apply sleep_calm |].
  intros _. exact IH.
Qed.

Lemma sync_handshake_calm (cfg : Config) (c : nat) :
  respects calm (sync_handshake cfg c).
Proof.
  unfold sync_handshake.
  apply respects_bind; [typeclasses eauto | apply nudge_calm |]. intros _.
  apply respects_bind; [typeclasses eauto | apply respects_gets; typeclasses eauto |].
  intros now.
  apply respects_bind; [typeclasses eauto | apply banner_loop_calm |].
  intros [|a banner]; [apply respects_raise; typeclasses eauto|].
  destruct (match_banner _);
    [apply respects_ret | apply respects_raise]; typeclasses eauto.
Qed.

(** *** Termination of the blocking handshake *)

Lemma drain_total (c : nat) : total (drain c).
Proof.
  apply total_bind; [apply total_gets|]. intros p.
  destruct (drains p) as [|[e|] rest]; [apply total_ret | |];
    (apply total_bind; [apply total_modify|]; intros _);
    [apply total_raise | apply total_ret].
Qed.

Lemma read_line_total (c : nat) (tmo : Z) : total (read_line c tmo).
Proof.
  apply total_bind; [apply total_gets|]. intros p.
  destruct (reads p) as [|[s|e] rest].
  - apply total_bind; [apply total_modify | intros _; apply total_raise].
  - apply total_bind; [apply total_modify | intros _; apply total_ret].
  - apply total_bind; [apply total_modify|]. intros _.
    destruct e; intros w; discriminate.
Qed.

Lemma sync_sendall_total (c : nat) (data : string) : total (sendall c data).
Proof. apply total_bind; [apply drain_total | intros _; apply total_modify]. Qed.

Lemma nudge_total (c : nat) : total (try_except (sendall c CRLF) (fun _ => ret tt)).
Proof. apply total_try_except; [apply sync_sendall_total | intros _; apply total_ret]. Qed.

Lemma banner_read_total (cfg : Config) (c : nat) : total (banner_read cfg c).
Proof.
  apply total_try_except_only.
  - apply total_bind; [apply read_line_total | intros s; apply total_ret].
  - apply total_bind; [apply nudge_total | intros _; apply total_ret].
Qed.

(** The banner loop ends when its fuel covers the time left, at 0.1 s a
    turn. *)
Lemma banner_loop_ends (fuel : nat) (cfg : Config) (c : nat) (t_end : Z) (w : World) :
  (t_end - clock w <= Z.of_nat fuel * (100 * ms))%Z ->
  fst (banner_loop fuel cfg c t_end w) <> Diverge.
Proof.
  revert w. induction fuel as [|fuel IH]; intros w Hf; cbn [banner_loop];
    unfold bind at 1, gets at 1;
    destruct (Z.ltb_spec (clock w) t_end) as [Hlt|Hge]; try discriminate.
  - unfold ms in *. lia.
  - pose proof (banner_read_total cfg c w) as Ht.
    pose proof (banner_read_calm cfg c w) as (_ & _ & Hc).
    unfold bind at 1.
    destruct (banner_read cfg c w) as [[[|a line]|e|] w1]; cbn in Ht, Hc |- *;
      try discriminate; [|congruence].
    unfold bind, sleep, modify. cbn. apply IH. cbn. unfold ms in *. lia.
Qed.

Lemma sync_handshake_total (cfg : Config) (c : nat) : total (sync_handshake cfg c).
Proof.
  intros w. unfold sync_handshake.
  destruct (try_except (sendall c CRLF) (fun _ => ret tt) w) as [[[]|e|] w1] eqn:En.
  - rewrite (bind_step_ok _ _ _ _ _ En). unfold bind at 1, gets at 1.
    set (budget := Z.max (2 * sec) (timeout cfg)).
    set (fuel := S (Z.to_nat (budget / (100 * ms)))).
    destruct (banner_loop fuel cfg c (clock w1 + budget) w1)
      as [[[|a banner]|e|] w2] eqn:Eb.
    + rewrite (bind_step_ok _ _ _ _ _ Eb). cbn. discriminate.
    + rewrite (bind_step_ok _ _ _ _ _ Eb). destruct (match_banner _); cbn; discriminate.
    + rewrite (bind_step_raise _ _ _ _ _ Eb). cbn. discriminate.
    + exfalso. apply (banner_loop_ends fuel cfg c (clock w1 + budget) w1);
        [|rewrite Eb; reflexivity].
      assert (Hs : 0 < 100 * ms) by (unfold ms; lia).
      pose proof (Z.mod_pos_bound budget (100 * ms) Hs) as Hm.
      pose proof (Z.div_mod budget (100 * ms) ltac:(lia)) as Hd.
      assert (0 <= budget / (100 * ms))
        by (apply Z.div_pos; unfold budget, sec in *; lia).
      unfold fuel. rewrite Nat2Z.inj_succ, Z2Nat.id by assumption. lia.
  - rewrite (bind_step_raise _ _ _ _ _ En). cbn. discriminate.
  - exfalso. apply (nudge_total c w). now rewrite En.
Qed.

(** *** Release of the connection in the blocking client *)

(** The [try] body opens and closes nothing, and it returns or raises. *)
Lemma once_body_calm (cfg : Config) (cmd : string) (c : nat) :
  respects calm (once_body md5_hex cfg cmd c).
Proof.
  apply respects_bind; [typeclasses eauto | apply sync_handshake_calm |].
  intros [need_auth nonce].
  apply respects_bind; [typeclasses eauto | |].
  - destruct need_auth; [destruct (String.eqb _ _)|];
      (apply respects_ret || apply respects_raise); typeclasses eauto.
  - intros payload. apply respects_bind; [typeclasses eauto | apply sendall_calm |].
    intros _. apply _readline_calm.
Qed.

Lemma once_body_total (cfg : Config) (cmd : string) (c : nat) :
  total (once_body md5_hex cfg cmd c).
Proof.
  apply total_bind; [apply sync_handshake_total|]. intros [need_auth nonce].
  apply total_bind.
  - destruct need_auth; [destruct (String.eqb _ _)|];
      (apply total_ret || apply total_raise).
  - intros payload. apply total_bind; [apply sync_sendall_total|]. intros _.
    apply total_bind; [apply read_line_total | intros s; apply total_ret].
Qed.

(** The [finally] clause closes the connection, whatever [shutdown] does. *)
Lemma once_finally_closes (c : nat) (w : World) :
  exists w', once_finally c w = (Ok tt, w') /\
             is_open w' = is_open w ∖ {[c]} /\
             trace w' = Closed c :: trace w.
Proof.
  unfold once_finally, bind, try_except, wait_closed, gets, ret, raise, close, modify. cbn.
  destruct (closing (the_peer c w)) as [e|]; cbn; eauto.
Qed.

Lemma dial_cases (tmo : Z) (w : World) :
  (exists e w', dial tmo w = (Raise e, w') /\ is_open w' = is_open w) \/
  (exists p rest w', dials w = inr p :: rest /\
                     dial tmo w = (Ok (next_id w), w') /\
                     is_open w' = {[next_id w]} ∪ is_open w /\
                     peers w' = <[next_id w := p]> (peers w) /\
                     trace w' = Opened (next_id w) :: trace w).
Proof.
  unfold dial, bind, gets, modify, raise, ret. cbn.
  destruct (dials w) as [|[e|p] rest]; cbn; eauto 12.
Qed.

(** Guaranteed release in the blocking client: one exchange returns or
    raises, and it leaves open exactly the connections that were open
    before it; the one it opened is closed on every path, an exception
    included. *)
Lemma send_cmd_once_releases (cfg : Config) (cmd : string) (w : World) :
  next_id w ∉ is_open w ->
  eval (_send_cmd_once md5_hex cfg cmd) w <> Diverge /\
  is_open (exec (_send_cmd_once md5_hex cfg cmd) w) = is_open w.
Proof.
  intros Hfresh. unfold eval, exec.
  remember (_send_cmd_once md5_hex cfg cmd w) as out eqn:Eout.
  unfold _send_cmd_once, _open in Eout.
  destruct (dial_cases (timeout cfg) w)
    as [(e & w1 & E1 & O1) | (p & rest & w1 & _ & E1 & O1 & _)].
  - rewrite (bind_step_raise _ _ _ _ _ E1) in Eout. subst out. cbn.
    split; [discriminate | exact O1].
  - rewrite (bind_step_ok _ _ _ _ _ E1) in Eout. unfold try_finally in Eout.
    pose proof (once_body_calm cfg cmd (next_id w) w1) as (Ho & _).
    pose proof (once_body_total cfg cmd (next_id w) w1) as Ht.
    destruct (once_body md5_hex cfg cmd (next_id w) w1) as [r w2].
    destruct (once_finally_closes (next_id w) w2) as (w3 & E3 & Hc & _).
    rewrite E3 in Eout. cbn [fst snd] in *.
    destruct r as [resp|e|]; [| |congruence]; subst out; cbn [fst snd];
      (split; [discriminate|]); rewrite Hc, Ho, O1; clear - Hfresh; set_solver.
Qed.

(** *** The asyncio client does not release on every path *)

Lemma dial_ok (tmo : Z) (w : World) (p : Peer) (rest : list (exn + Peer)) :
  dials w = inr p :: rest -> dial tmo w = (Ok (next_id w), dialled p rest w).
Proof. intros Hd. unfold dial, bind, gets. rewrite Hd. reflexivity. Qed.

Lemma the_peer_dialled (p : Peer) (rest : list (exn + Peer)) (w : World) :
  the_peer (next_id w) (dialled p rest w) = p.
Proof. unfold the_peer, dialled. cbn. now rewrite lookup_insert_eq. Qed.

Lemma drain_ok (c : nat) (w : World) :
  drains (the_peer c w) = [] -> drain c w = (Ok tt, w).
Proof. intros H. unfold drain, bind, gets. now rewrite H. Qed.

Lemma read_line_ok (c : nat) (tmo : Z) (w : World) (s : string)
    (more : list read_outcome) :
  reads (the_peer c w) = Line s :: more ->
  exists w', read_line c tmo w = (Ok s, w') /\
             is_open w' = is_open w /\ trace w' = trace w.
Proof.
  intros H. unfold read_line, bind, gets, modify, ret. rewrite H. cbn. eauto.
Qed.

(** C3 (what the code does). In [PJLinkClient._send_cmd], an exchange
    whose connection opens and whose banner is malformed raises
    [RuntimeError] inside the [try] and leaves the connection open: no
    close is on that path. *)
Theorem exchange_bad_banner_leaves_connection_open (cfg : Config) (cmd : string)
    (w : World) (p : Peer) (rest : list (exn + Peer)) (banner : string)
    (more : list read_outcome) :
  dials w = inr p :: rest ->
  drains p = [] ->
  reads p = Line banner :: more ->
  match_banner (strip banner) = None ->
  eval (exchange md5_hex cfg cmd) w = Raise RuntimeError /\
  next_id w ∈ is_open (exec (exchange md5_hex cfg cmd) w) /\
  trace (exec (exchange md5_hex cfg cmd) w) = Wrote (next_id w) CR :: Opened (next_id w) :: trace w.
Proof.
  intros Hd Hdr Hrd Hb. unfold eval, exec.
  remember (exchange md5_hex cfg cmd w) as out eqn:Eout.
  unfold exchange, _open, _handshake in Eout.
  rewrite (bind_step_ok _ _ _ _ _ (dial_ok (timeout cfg) w p rest Hd)) in Eout.
  unfold bind at 1, write at 1, modify at 1 in Eout.
  set (w1 := log (Wrote (next_id w) CR) (dialled p rest w)) in Eout.
  assert (Hp : the_peer (next_id w) w1 = p) by apply the_peer_dialled.
  rewrite (bind_step_ok _ _ _ _ _ (drain_ok (next_id w) w1 ltac:(now rewrite Hp))) in Eout.
  destruct (read_line_ok (next_id w) (timeout cfg) w1 banner more ltac:(now rewrite Hp))
    as (w2 & E2 & O2 & T2).
  unfold bind at 1 in Eout. rewrite (bind_step_ok _ _ _ _ _ E2), Hb in Eout.
  subst out. cbn [fst snd raise]. rewrite O2, T2.
  split; [reflexivity|]. split; [|reflexivity]. unfold w1, dialled. cbn. set_solver.
Qed.

(** *** The source of [set_input] *)

Lemma set_input_unmapped (cfg : Config) (source : string) (w : World) :
  input_map cfg !! upper source = None ->
  set_input md5_hex cfg source w = (Raise ValueError, w).
Proof. intros H. unfold set_input. now rewrite H. Qed.

(** A source passes exactly through the entry of its upper-cased name. *)
Lemma set_input_mapped (cfg : Config) (source : string) (a : ascii) (code : string) :
  input_map cfg !! upper source = Some (String a code) ->
  set_input md5_hex cfg source =
  (resp <- _send_cmd md5_hex cfg ("INPT " ++ String a code) ;; ret (contains "OK" resp)).
Proof. intros H. unfold set_input. now rewrite H. Qed.

(** C4 (what the code does). [set_input] looks up [source.upper()], and
    the keys Computer1, Computer2 and HDBaseT of the code map are not
    upper case: for each of them, though it is present in the map,
    [set_input] raises [ValueError] before any exchange. *)
Theorem set_input_rejects_mapped_sources :
  Forall (fun source =>
            is_Some (default_input_map !! source) /\
            forall pw tmo r w,
              set_input md5_hex (new_client pw tmo r) source w = (Raise ValueError, w))
    ["Computer1"; "Computer2"; "HDBaseT"].
Proof.
  repeat constructor; try (eexists; vm_compute; reflexivity);
    intros pw tmo r w; apply set_input_unmapped; vm_compute; reflexivity.
Qed.

(** The sources of the map that do pass are the upper-case ones, and a
    source absent from the map passes when its upper-cased name is a key. *)
Lemma set_input_accepted_sources (pw : string) (tmo r : Z) :
  set_input md5_hex (new_client pw tmo r) "HDMI1" =
    (resp <- _send_cmd md5_hex (new_client pw tmo r) "INPT 32" ;; ret (contains "OK" resp)) /\
  set_input md5_hex (new_client pw tmo r) "HDMI2" =
    (resp <- _send_cmd md5_hex (new_client pw tmo r) "INPT 33" ;; ret (contains "OK" resp)) /\
  default_input_map !! "hdmi1" = None /\
  set_input md5_hex (new_client pw tmo r) "hdmi1" =
    (resp <- _send_cmd md5_hex (new_client pw tmo r) "INPT 32" ;; ret (contains "OK" resp)).
Proof.
  repeat split; try (apply set_input_mapped; vm_compute; reflexivity).
Qed.

(** In the blocking client every key of [INPUT_MAP] is its own upper-cased
    name, so every mapped source is found. *)
Lemma sync_input_map_keys_upper :
  Forall (fun kv => upper (fst kv) = fst kv /\ INPUT_MAP !! upper (fst kv) = Some (snd kv))
    (map_to_list INPUT_MAP).
Proof. vm_compute. repeat constructor. Qed.

(** *** The banner *)

Lemma append_nil (s : string) : "" ++ s = s.
Proof. reflexivity. Qed.

Lemma append_cons (c : ascii) (s t : string) : String c s ++ t = String c (s ++ t).
Proof. reflexivity. Qed.

Lemma span_hex (h tail : string) :
  all_hex h = true ->
  match tail with
  | EmptyString => True
  | String c _ => is_hex c = false
  end ->
  span is_hex (h ++ tail) = (h, tail).
Proof.
  induction h as [|c h IH]; intros Hh Ht.
  - rewrite append_nil. destruct tail as [|c t]; [reflexivity|]. cbn [span]. now rewrite Ht.
  - rewrite append_cons. cbn [all_hex span] in *.
    apply andb_true_iff in Hh as (Hc & Hh). rewrite Hc, (IH Hh Ht). reflexivity.
Qed.

Lemma rstrip_CR (s : string) : rstrip (s ++ CR) = rstrip s.
Proof.
  induction s as [|c s IH]; [reflexivity|]. rewrite append_cons. cbn [rstrip]. now rewrite IH.
Qed.

Lemma hex_not_space (c : ascii) : is_hex c = true -> is_space c = false.
Proof.
  destruct c as [[] [] [] [] [] [] [] []]; vm_compute; congruence.
Qed.

Lemma rstrip_hex (h : string) : all_hex h = true -> rstrip h = h.
Proof.
  induction h as [|c h IH]; [reflexivity|]. cbn [all_hex rstrip].
  intros Hh. apply andb_true_iff in Hh as (Hc & Hh). rewrite (IH Hh).
  destruct h; [now rewrite (hex_not_space c Hc) | reflexivity].
Qed.

Lemma rstrip_cons (c : ascii) (s : string) :
  rstrip s <> "" -> rstrip (String c s) = String c (rstrip s).
Proof. cbn [rstrip]. destruct (rstrip s); [congruence | reflexivity]. Qed.

Lemma strip_banner (h : string) :
  h <> "" -> all_hex h = true ->
  strip ("PJLINK 1 " ++ h ++ CR) = "PJLINK 1 " ++ h.
Proof.
  intros Hn Hh. unfold strip. rewrite !append_cons, append_nil.
  assert (Hr : rstrip (h ++ CR) = h) by (rewrite rstrip_CR; now apply rstrip_hex).
  cbn [lstrip]. change (is_space "P") with false. cbn iota.
  repeat (rewrite rstrip_cons; [f_equal|]); rewrite ?Hr; try reflexivity;
    repeat (rewrite rstrip_cons; [|]); rewrite ?Hr; try discriminate; try exact Hn.
Qed.

Lemma append_empty (s : string) : s ++ "" = s.
Proof. induction s as [|x s IH]; [reflexivity | rewrite append_cons; congruence]. Qed.

(** The banner of a projector that asks for authentication parses to its
    nonce. *)
Lemma match_banner_nonce (h : string) :
  h <> "" -> all_hex h = true -> match_banner ("PJLINK 1 " ++ h) = Some (true, h).
Proof.
  intros Hn Hh. destruct h as [|a h]; [congruence|].
  pose proof Hh as Hh'. cbn [all_hex] in Hh'. apply andb_true_iff in Hh' as (Ha & _).
  unfold match_banner.
  change (strip_prefix "PJLINK" ("PJLINK 1 " ++ String a h))
    with (Some (String " " (String "1" (String " " (String a h))))).
  cbn iota.
  change (span is_space (String " " (String "1" (String " " (String a h)))))
    with (" ", String "1" (String " " (String a h))).
  change (is_digit "1") with true. cbn iota.
  assert (E : span is_space (String " " (String a h)) = (" ", String a h)).
  { cbn [span]. change (is_space " ") with true. cbn iota.
    now rewrite (hex_not_space a Ha). }
  rewrite E.
  pose proof (span_hex (String a h) "" Hh I) as Hs. rewrite append_empty in Hs.
  rewrite Hs. reflexivity.
Qed.

(** X14. A banner [PJLINK 1 <nonce>] whose nonce is a nonempty text of
    hexadecimal digits is read by [_handshake] as: authentication is
    needed, with exactly that nonce; the carriage return that ends the
    line is stripped. *)
Theorem handshake_reads_nonce (cfg : Config) (c : nat) (w : World) (h : string)
    (more : list read_outcome) :
  h <> "" -> all_hex h = true ->
  reads (the_peer c w) = Line ("PJLINK 1 " ++ h ++ CR) :: more ->
  eval (_handshake cfg c) w = Ok (true, h).
Proof.
  intros Hn Hh Hr. unfold eval, _handshake.
  destruct (read_line_ok c (timeout cfg) w _ more Hr) as (w1 & E1 & _).
  rewrite (bind_step_ok _ _ _ _ _ E1). rewrite (strip_banner h Hn Hh).
  now rewrite (match_banner_nonce h Hn Hh).
Qed.

(** *** The retry loop and its back-off *)

#[local] Instance awake_preorder : PreOrder awake.
Proof.
  split.
  - intros w. reflexivity.
  - intros a b c H1 H2. unfold awake in *. congruence.
Qed.

Lemma dial_awake (tmo : Z) : respects awake (dial tmo).
Proof.
  intros w. unfold dial, bind, gets, modify, raise, ret, awake. cbn.
  destruct (dials w) as [|[e|p] rest]; reflexivity.
Qed.

Lemma write_awake (c : nat) (data : string) : respects awake (write c data).
Proof. intros w. reflexivity. Qed.

Lemma drain_awake (c : nat) : respects awake (drain c).
Proof.
  intros w. unfold drain, bind, gets, modify, ret, raise, awake. cbn.
  destruct (drains (the_peer c w)) as [|[e|] rest]; reflexivity.
Qed.

Lemma read_line_awake (c : nat) (tmo : Z) : respects awake (read_line c tmo).
Proof.
  intros w. unfold read_line, bind, gets, modify, ret, raise, awake. cbn.
  destruct (reads (the_peer c w)) as [|[s|e] rest]; try reflexivity.
  destruct e; reflexivity.
Qed.

Lemma close_awake (c : nat) : respects awake (close c).
Proof. intros w. reflexivity. Qed.

Lemma wait_closed_awake (c : nat) : respects awake (wait_closed c).
Proof.
  intros w. unfold wait_closed, bind, gets, ret, raise, awake. cbn.
  destruct (closing (the_peer c w)); reflexivity.
Qed.

(** One exchange of the asyncio client does not sleep, and it returns or
    raises. *)
Lemma exchange_awake (cfg : Config) (cmd : string) :
  respects awake (exchange md5_hex cfg cmd).
Proof.
  unfold exchange, _open, _handshake.
  apply respects_bind; [typeclasses eauto | apply dial_awake |]. intros c.
  apply respects_bind; [typeclasses eauto | apply write_awake |]. intros _.
  apply respects_bind; [typeclasses eauto | apply drain_awake |]. intros _.
  apply respects_bind; [typeclasses eauto | |].
  { apply respects_bind; [typeclasses eauto | apply read_line_awake |]. intros banner.
    destruct (match_banner _); [apply respects_ret | apply respects_raise]; typeclasses eauto. }
  intros [need_auth rand].
  apply respects_bind; [typeclasses eauto | |].
  { destruct need_auth; [destruct (String.eqb _ _)|]; try (apply respects_ret; typeclasses eauto).
    apply respects_bind; [typeclasses eauto | apply close_awake |]. intros _.
    apply respects_bind; [typeclasses eauto | apply wait_closed_awake |]. intros _.
    apply respects_raise; typeclasses eauto. }
  intros payload.
  apply respects_bind; [typeclasses eauto | apply write_awake |]. intros _.
  apply respects_bind; [typeclasses eauto | apply drain_awake |]. intros _.
  apply respects_bind; [typeclasses eauto | apply read_line_awake |]. intros resp.
  apply respects_bind; [typeclasses eauto | apply close_awake |]. intros _.
  apply respects_bind; [typeclasses eauto | |].
  { apply respects_try_except; [typeclasses eauto | apply wait_closed_awake |].
    intros _. apply respects_ret; typeclasses eauto. }
  intros _. apply respects_ret; typeclasses eauto.
Qed.

Lemma wait_closed_total (c : nat) : total (wait_closed c).
Proof.
  apply total_bind; [apply total_gets|]. intros p.
  destruct (closing p); [apply total_raise | apply total_ret].
Qed.

Lemma dial_total (tmo : Z) : total (dial tmo).
Proof.
  apply total_bind; [apply total_gets|]. intros [|[e|p] rest]; [apply total_raise | |].
  - apply total_bind; [apply total_modify | intros _; apply total_raise].
  - apply total_bind; [apply total_gets|]. intros c.
    apply total_bind; [apply total_modify | intros _; apply total_ret].
Qed.

Lemma exchange_total (cfg : Config) (cmd : string) : total (exchange md5_hex cfg cmd).
Proof.
  unfold exchange, _open, _handshake.
  apply total_bind; [apply dial_total|]. intros c.
  apply total_bind; [apply total_modify|]. intros _.
  apply total_bind; [apply drain_total|]. intros _.
  apply total_bind.
  { apply total_bind; [apply read_line_total|]. intros banner.
    destruct (match_banner _); [apply total_ret | apply total_raise]. }
  intros [need_auth rand].
  apply total_bind.
  { destruct need_auth; [destruct (String.eqb _ _)|]; try apply total_ret.
    apply total_bind; [apply total_modify|]. intros _.
    apply total_bind; [apply wait_closed_total|]. intros _. apply total_raise. }
  intros payload.
  apply total_bind; [apply total_modify|]. intros _.
  apply total_bind; [apply drain_total|]. intros _.
  apply total_bind; [apply read_line_total|]. intros resp.
  apply total_bind; [apply total_modify|]. intros _.
  apply total_bind.
  { apply total_try_except; [apply wait_closed_total | intros _; apply total_ret]. }
  intros _. apply total_ret.
Qed.

(** The loop from attempt number [a] on, with [n] attempts left. *)
Lemma send_loop_backoff (cfg : Config) (cmd : string) (n : nat) :
  forall (a : nat) (last : option exn) (w : World),
    let run := send_loop md5_hex cfg cmd (map Z.of_nat (seq a n)) last w in
    exists j : nat,
      naps (trace (snd run)) =
        (rev (map (fun k : nat => 400 * ms * (Z.of_nat k + 1))%Z (seq a j)) ++
         naps (trace w))%list /\
      match fst run with
      | Ok _ => (j < n)%nat
      | Raise _ => j = n
      | Diverge => False
      end.
Proof.
  induction n as [|n IH]; intros a last w; cbn zeta; cbn [seq map].
  - exists 0%nat. cbn. auto.
  - remember (send_loop md5_hex cfg cmd (Z.of_nat a :: map Z.of_nat (seq (S a) n)) last w)
      as run eqn:Erun.
    cbn [send_loop] in Erun. unfold bind at 1, try_except at 1, bind at 1 in Erun.
    pose proof (exchange_awake cfg cmd w) as Ha.
    pose proof (exchange_total cfg cmd w) as Ht.
    destruct (exchange md5_hex cfg cmd w) as [[resp|e|] w1]; cbn [fst snd] in Ha, Ht;
      [| |congruence].
    + exists 0%nat. subst run. cbn. split; [exact Ha | lia].
    + cbn [ret] in Erun. unfold bind at 1, sleep at 1, modify at 1 in Erun. cbn [ret] in Erun.
      match type of Erun with
      | _ = send_loop md5_hex cfg cmd _ (Some e) ?w2 =>
          destruct (IH (S a) (Some e) w2) as (j & Hn & Hr)
      end.
      cbn zeta in Hn, Hr. rewrite <- Erun in Hn, Hr. exists (S j). split.
      * rewrite Hn. cbn [seq map rev trace log naps set_clock].
        rewrite <- app_assoc. cbn [app]. rewrite Ha.
        do 3 f_equal. 
      * destruct (fst run); [lia | lia | exact Hr].
Qed.

(** X15. [_send_cmd] makes [retries + 1] attempts at most and sleeps
    after every failed one, 0.4 s times the number of the attempt (0.4 s,
    0.8 s, 1.2 s, ...), also after the last: when it returns, at most
    [retries] attempts had failed; when it raises, all [retries + 1] had,
    each followed by its sleep. With negative [retries] no attempt is
    made, and it raises [RuntimeError] at once. *)
Theorem send_cmd_backoff (cfg : Config) (cmd : string) (w : World) :
  let run := _send_cmd md5_hex cfg cmd w in
  (exists j : nat,
     naps (trace (snd run)) = (backoff j ++ naps (trace w))%list /\
     match fst run with
     | Ok _ => (Z.of_nat j <= retries cfg)%Z
     | Raise _ => Z.of_nat j = Z.max 0 (retries cfg + 1)
     | Diverge => False
     end) /\
  ((retries cfg < 0)%Z -> run = (Raise RuntimeError, w)).
Proof.
  cbn zeta. unfold _send_cmd, range. split.
  - destruct (send_loop_backoff cfg cmd (Z.to_nat (retries cfg + 1)) 0 None w) as (j & Hn & Hr).
    cbn zeta in Hn, Hr. exists j. split; [exact Hn|].
    destruct (fst _); [lia | lia | exact Hr].
  - intros Hneg. replace (Z.to_nat (retries cfg + 1)) with 0%nat by lia. reflexivity.
Qed.

(** *** Release across the retries of the blocking client *)

Lemma dial_next_id (tmo : Z) (w : World) : (next_id w <= next_id (snd (dial tmo w)))%nat.
Proof.
  unfold dial, bind, gets, modify, raise, ret. cbn.
  destruct (dials w) as [|[e|p] rest]; cbn; lia.
Qed.

(** One attempt keeps the handles fresh: it leaves open what was open,
    and the next handle does not go down. *)
Lemma send_cmd_once_fresh (cfg : Config) (cmd : string) (w : World) :
  ids_fresh w ->
  eval (_send_cmd_once md5_hex cfg cmd) w <> Diverge /\
  is_open (exec (_send_cmd_once md5_hex cfg cmd) w) = is_open w /\
  ids_fresh (exec (_send_cmd_once md5_hex cfg cmd) w).
Proof.
  intros Hf.
  assert (Hn : next_id w ∉ is_open w) by (intros Hin; apply Hf in Hin; lia).
  destruct (send_cmd_once_releases cfg cmd w Hn) as (Ht & Ho).
  split; [exact Ht|]. split; [exact Ho|].
  assert (Hm : (next_id w <= next_id (exec (_send_cmd_once md5_hex cfg cmd) w))%nat).
  { unfold exec, _send_cmd_once, _open, bind.
    pose proof (dial_next_id (timeout cfg) w) as Hd.
    destruct (dial (timeout cfg) w) as [[c|e|] w1]; cbn [snd] in *; try exact Hd.
    unfold try_finally.
    pose proof (once_body_calm cfg cmd c w1) as (_ & Hb & _).
    destruct (once_body md5_hex cfg cmd c w1) as [r w2]. cbn [snd] in Hb.
    assert (Hc : next_id (snd (once_finally c w2)) = next_id w2).
    { unfold once_finally, bind, try_except, wait_closed, gets, ret, raise, close, modify.
      cbn. destruct (closing (the_peer c w2)); reflexivity. }
    destruct r as [resp|e|]; cbn [snd]; [| |lia];
      destruct (once_finally c w2) as [[[]|e'|] w3]; cbn [snd] in *; lia. }
  intros c Hc. rewrite Ho in Hc. apply Hf in Hc. lia.
Qed.

Lemma sync_send_loop_releases (cfg : Config) (cmd : string) (attempts : list Z) :
  forall (last : option exn) (w : World),
    ids_fresh w ->
    eval (sync_send_loop md5_hex cfg cmd attempts last) w <> Diverge /\
    is_open (exec (sync_send_loop md5_hex cfg cmd attempts last) w) = is_open w.
Proof.
  induction attempts as [|attempt rest IH]; intros last w Hf.
  - cbn. split; [discriminate | reflexivity].
  - unfold eval, exec.
    remember (sync_send_loop md5_hex cfg cmd (attempt :: rest) last w) as run eqn:Erun.
    cbn [sync_send_loop] in Erun. unfold bind at 1, try_except at 1, bind at 1 in Erun.
    destruct (send_cmd_once_fresh cfg cmd w Hf) as (Ht & Ho & Hf1).
    unfold eval, exec in Ht, Ho, Hf1.
    destruct (_send_cmd_once md5_hex cfg cmd w) as [[resp|e|] w1]; cbn [fst snd] in *;
      [| |congruence].
    + subst run. cbn. split; [discriminate | exact Ho].
    + cbn [ret] in Erun. unfold bind at 1, sleep at 1, modify at 1 in Erun. cbn [ret] in Erun.
      match type of Erun with
      | _ = sync_send_loop md5_hex cfg cmd rest (Some e) ?w2 =>
          destruct (IH (Some e) w2) as (Ht2 & Ho2); [intros c Hc; apply (Hf1 c Hc)|]
      end.
      unfold eval, exec in Ht2, Ho2. rewrite <- Erun in Ht2, Ho2.
      split; [exact Ht2|]. rewrite Ho2. exact Ho.
Qed.

(** X16. [PJLinkSocketClient._send_cmd] returns or raises, and it leaves
    open exactly the connections that were open before the call: every
    connection an attempt opened is closed again, however many attempts
    fail and whatever they fail with. *)
Theorem sync_send_cmd_releases (cfg : Config) (cmd : string) (w : World) :
  ids_fresh w ->
  eval (sync_send_cmd md5_hex cfg cmd) w <> Diverge /\
  is_open (exec (sync_send_cmd md5_hex cfg cmd) w) = is_open w.
Proof. intros Hf. now apply sync_send_loop_releases. Qed.

(** *** Source names of the blocking client *)

Lemma upper_char_idem (c : ascii) : upper_char (upper_char c) = upper_char c.
Proof. destruct c as [[] [] [] [] [] [] [] []]; vm_compute; reflexivity. Qed.

Lemma upper_idem (s : string) : upper (upper s) = upper s.
Proof.
  induction s as [|c s IH]; [reflexivity|]. cbn [upper]. now rewrite upper_char_idem, IH.
Qed.

(** X17. On a source name of ASCII characters
    [PJLinkSocketClient.set_input] does not depend on the case of the
    name: the name and its upper-cased form behave alike, the empty name
    stands for HDMI1, and a name whose upper-cased form is no key of
    [INPUT_MAP] raises [ValueError] before any exchange. *)
Theorem sync_set_input_ignores_case (cfg : Config) (source : string) (w : World) :
  ascii_text source = true ->
  sync_set_input md5_hex cfg source w = sync_set_input md5_hex cfg (upper source) w /\
  sync_set_input md5_hex cfg "" w = sync_set_input md5_hex cfg "HDMI1" w /\
  (INPUT_MAP !! upper (match source with
                       | EmptyString => "HDMI1"
                       | _ => source
                       end) = None ->
   sync_set_input md5_hex cfg source w = (Raise ValueError, w)).
Proof.
  intros _. split; [|split].
  - unfold sync_set_input. destruct source as [|c s]; [reflexivity|].
    cbn [upper]. now rewrite upper_char_idem, upper_idem.
  - reflexivity.
  - intros H. unfold sync_set_input. now rewrite H.
Qed.

(** *** The state in the reply to the power query *)

Lemma digit_value_range (d : ascii) : is_digit d = true -> (0 <= digit_value d <= 9)%Z.
Proof.
  unfold is_digit, digit_value. intros H. apply andb_true_iff in H as (H1 & H2).
  apply Nat.leb_le in H1, H2. lia.
Qed.

(** X18. The state [get_power] reads from a reply is the one digit
    after the first [POWR=] that a digit follows: a reply [%1POWR=d...]
    gives the digit d, whatever comes after it; a value read is always
    between 0 and 9; and a reply without [POWR=] gives [None]. *)
Theorem power_reply_state (resp : string) :
  (forall v, search_powr resp = Some v -> (0 <= v <= 9)%Z) /\
  (forall d rest, is_digit d = true ->
     search_powr ("%1POWR=" ++ String d rest) = Some (digit_value d)) /\
  (contains "POWR=" resp = false -> search_powr resp = None).
Proof.
  split; [|split].
  - induction resp as [|c resp IH]; intros v; cbn [search_powr].
    + change (strip_prefix "POWR=" "") with (@None string). discriminate.
    + destruct (strip_prefix "POWR=" (String c resp)) as [[|d r]|]; try apply IH.
      destruct (is_digit d) eqn:Hd; [|apply IH].
      intros [= <-]. now apply digit_value_range.
  - intros d rest Hd.
    change ("%1POWR=" ++ String d rest)
      with (String "%" (String "1" ("POWR=" ++ String d rest))).
    cbn [search_powr].
    change (strip_prefix "POWR=" (String "%" (String "1" ("POWR=" ++ String d rest))))
      with (@None string). cbn iota.
    change (strip_prefix "POWR=" (String "1" ("POWR=" ++ String d rest)))
      with (@None string). cbn iota.
    change ("POWR=" ++ String d rest)
      with (String "P" (String "O" (String "W" (String "R" (String "=" (String d rest)))))).
    cbn [search_powr].
    change (strip_prefix "POWR="
              (String "P" (String "O" (String "W" (String "R" (String "=" (String d rest)))))))
      with (Some (String d rest)). cbn iota.
    now rewrite Hd.
  - induction resp as [|c resp IH]; [reflexivity|].
    cbn [contains search_powr]. intros H. apply orb_false_iff in H as (Hp & Hc).
    assert (Hs : strip_prefix "POWR=" (String c resp) = None).
    { clear - Hp. revert Hp. generalize (String c resp). generalize "POWR=".
      induction s as [|a s IHs]; intros t Hp; [destruct t; discriminate|].
      destruct t as [|b t]; [reflexivity|]. cbn [strip_prefix String.prefix] in *.
      destruct (Ascii.eqb_spec a b) as [->|Hne].
      - destruct (ascii_dec b b); [|congruence]. now apply IHs.
      - reflexivity. }
    rewrite Hs. now apply IH.
Qed.

(** *** The time-out of the blocking handshake *)

(** A turn of the banner loop never raises [TimeoutError]: the time-out
    of the read is answered with a nudge. *)
Lemma banner_read_no_timeout (cfg : Config) (c : nat) (w w' : World) (e : exn) :
  banner_read cfg c w = (Raise e, w') -> e <> TimeoutError.
Proof.
  unfold banner_read, try_except_only.
  destruct (_readline cfg c w) as [[s|e0|] w1]; [discriminate | |discriminate].
  destruct (exn_eqb e0 TimeoutError) eqn:Ee.
  - pose proof (nudge_total c w1) as Ht.
    unfold bind. destruct (try_except (sendall c CRLF) (fun _ => ret tt) w1) as [[[]|e1|] w2] eqn:En.
    + discriminate.
    + exfalso. revert En. unfold try_except.
      destruct (sendall c CRLF w1) as [[[]|e2|] w3]; discriminate.
    + discriminate.
  - intros [= <- <-]. intros ->. discriminate.
Qed.

Lemma banner_loop_outcome (fuel : nat) (cfg : Config) (c : nat) (t_end : Z) :
  forall (w w' : World) (r : result string),
    banner_loop fuel cfg c t_end w = (r, w') ->
    match r with
    | Ok "" => (t_end <= clock w')%Z
    | Raise e => e <> TimeoutError
    | _ => True
    end.
Proof.
  induction fuel as [|fuel IH]; intros w w' r E; cbn [banner_loop] in E;
    unfold bind at 1, gets at 1 in E;
    destruct (Z.ltb_spec (clock w) t_end) as [Hlt|Hge];
    try (injection E as <- <-; first [exact I | exact Hge]).
  unfold bind at 1 in E.
  destruct (banner_read cfg c w) as [[[|a line]|e0|] w1] eqn:Eb.
  - unfold bind at 1, sleep at 1, modify at 1 in E. exact (IH _ _ _ E).
  - injection E as <- <-. exact I.
  - injection E as <- <-. exact (banner_read_no_timeout cfg c w w1 e0 Eb).
  - injection E as <- <-. exact I.
Qed.

(** X26. The blocking [_handshake] raises [TimeoutError] only after its
    whole budget of [max(2 s, timeout)] has passed without a banner: a
    read that times out is answered with a nudge and another read, never
    with the exception. *)
Theorem sync_handshake_timeout_after_budget (cfg : Config) (c : nat) (w w' : World) :
  sync_handshake cfg c w = (Raise TimeoutError, w') ->
  (clock w + Z.max (2 * sec) (timeout cfg) <= clock w')%Z.
Proof.
  unfold sync_handshake. intros E.
  pose proof (nudge_calm c w) as (_ & _ & Hc).
  destruct (try_except (sendall c CRLF) (fun _ => ret tt) w) as [[[]|e|] w1] eqn:En;
    cbn [snd] in Hc.
  - rewrite (bind_step_ok _ _ _ _ _ En) in E. unfold bind at 1, gets at 1 in E.
    set (budget := Z.max (2 * sec) (timeout cfg)) in *.
    unfold bind in E.
    destruct (banner_loop (S (Z.to_nat (budget / (100 * ms)))) cfg c (clock w1 + budget) w1)
      as [[[|a banner]|e|] w2] eqn:Eb; apply banner_loop_outcome in Eb.
    + injection E as <-. lia.
    + destruct (match_banner _); discriminate.
    + injection E as -> <-. congruence.
    + discriminate.
  - exfalso. revert En. unfold try_except.
    destruct (sendall c CRLF w) as [[[]|e2|] w3]; discriminate.
  - rewrite (bind_step_diverge _ _ _ _ En) in E. discriminate.
Qed.

End clients.

(** *** Runs on concrete networks *)

Lemma exchange_bad_banner_leaves_connection_open_witness :
  dials (network [inr babbling]) = inr babbling :: [] /\
  drains babbling = [] /\
  reads babbling = Line ("HELLO" ++ CR) :: [] /\
  match_banner (strip ("HELLO" ++ CR)) = None /\
  eval (exchange no_digest (new_client "1234" (8 * sec) 0) "POWR 1")
    (network [inr babbling]) = Raise RuntimeError /\
  next_id (network [inr babbling]) ∈
    is_open (exec (exchange no_digest (new_client "1234" (8 * sec) 0) "POWR 1")
               (network [inr babbling])) /\
  trace (exec (exchange no_digest (new_client "1234" (8 * sec) 0) "POWR 1")
           (network [inr babbling])) =
    Wrote (next_id (network [inr babbling])) CR ::
    Opened (next_id (network [inr babbling])) :: trace (network [inr babbling]).
Proof.
  split; [reflexivity|]. split; [reflexivity|]. split; [reflexivity|].
  split; [reflexivity|].
  apply (exchange_bad_banner_leaves_connection_open no_digest
           (new_client "1234" (8 * sec) 0) "POWR 1" (network [inr babbling])
           babbling [] ("HELLO" ++ CR) []); reflexivity.
Defined.

(** [power(True)] with one retry against two such answers: both attempts
    raise, the call ends with [RuntimeError] after the back-offs of 0.4 s
    and 0.8 s, and both connections stay open. The blocking client on the
    same network closes both. *)
Example send_cmd_leaks_per_attempt (md5 : string -> string) :
  let run := power md5 (new_client "1234" (8 * sec) 1) true
               (network [inr babbling; inr babbling]) in
  fst run = Raise RuntimeError /\
  is_open (snd run) = {[0%nat; 1%nat]} /\
  trace (snd run) =
    [Slept (800 * ms); Wrote 1 CR; Opened 1; Slept (400 * ms); Wrote 0 CR; Opened 0].
Proof. vm_compute. repeat split; reflexivity. Qed.

Example sync_send_cmd_closes_each_attempt (md5 : string -> string) :
  let run := sync_send_cmd md5 (new_client "1234" (8 * sec) 1) "POWR 1"
               (network [inr babbling; inr babbling]) in
  fst run = Raise RuntimeError /\
  is_open (snd run) = ∅ /\
  filter (fun e => match e with Closed _ => true | _ => false end) (trace (snd run)) =
    [Closed 1; Closed 0].
Proof. vm_compute. repeat split; reflexivity. Qed.

(** The two paths of the asyncio client that do close: the answered
    command, and the missing password. *)
Example exchange_closing_paths (md5 : string -> string) :
  (let run := power md5 (new_client "1234" (8 * sec) 0) true (network [inr obliging]) in
   fst run = Ok true /\ is_open (snd run) = ∅) /\
  (let run := exchange md5 (new_client "" (8 * sec) 0) "POWR 1" (network [inr guarded]) in
   fst run = Raise RuntimeError /\ is_open (snd run) = ∅).
Proof. vm_compute. repeat split; reflexivity. Qed.

(** The authenticated command carries the digest of nonce and password
    before the command. *)
Example authenticated_payload (md5 : string -> string) :
  trace (exec (exchange md5 (new_client "secret" (8 * sec) 0) "POWR 1")
           (network [inr guarded])) =
  [Closed 0; Wrote 0 (md5 "ABCDEF01secret" ++ "%1POWR 1" ++ CR); Wrote 0 CR; Opened 0].
Proof. reflexivity. Qed.

Lemma handshake_reads_nonce_witness :
  let w := dialled guarded [] (network []) in
  "ABCDEF01" <> "" /\ all_hex "ABCDEF01" = true /\
  reads (the_peer 0 w) =
    Line ("PJLINK 1 " ++ "ABCDEF01" ++ CR) :: [Line ("%1POWR=OK" ++ CR)] /\
  eval (_handshake (new_client "1234" (8 * sec) 4) 0) w = Ok (true, "ABCDEF01").
Proof.
  cbv zeta. split; [discriminate|]. split; [reflexivity|]. split; [reflexivity|].
  apply (handshake_reads_nonce (new_client "1234" (8 * sec) 4) 0
           (dialled guarded [] (network [])) "ABCDEF01" [Line ("%1POWR=OK" ++ CR)]);
    [discriminate | reflexivity | reflexivity].
Defined.

Lemma send_cmd_backoff_witness :
  (-1 < 0)%Z /\
  _send_cmd no_digest (new_client "1234" (8 * sec) (-1)) "POWR ?" (network [inr obliging]) =
    (Raise RuntimeError, network [inr obliging]).
Proof.
  split; [lia|].
  apply (send_cmd_backoff no_digest (new_client "1234" (8 * sec) (-1)) "POWR ?"
           (network [inr obliging])).
  cbn. lia.
Defined.

Lemma sync_send_cmd_releases_witness :
  let w := network [inr babbling; inr babbling] in
  let cfg := new_client "1234" (8 * sec) 1 in
  ids_fresh w /\
  eval (sync_send_cmd no_digest cfg "POWR 1") w <> Diverge /\
  is_open (exec (sync_send_cmd no_digest cfg "POWR 1") w) = is_open w.
Proof.
  cbv zeta.
  assert (Hf : ids_fresh (network [inr babbling; inr babbling])).
  { intros c Hc. exfalso. revert Hc. apply not_elem_of_empty. }
  split; [exact Hf|].
  exact (sync_send_cmd_releases no_digest (new_client "1234" (8 * sec) 1) "POWR 1"
           (network [inr babbling; inr babbling]) Hf).
Defined.

Lemma sync_set_input_ignores_case_witness :
  ascii_text "vga" = true /\
  INPUT_MAP !! upper "vga" = None /\
  sync_set_input no_digest (new_client "" (8 * sec) 4) "vga" (network []) =
    (Raise ValueError, network []).
Proof.
  split; [reflexivity|]. split; [reflexivity|].
  apply (sync_set_input_ignores_case no_digest (new_client "" (8 * sec) 4) "vga" (network [])
           eq_refl).
  reflexivity.
Defined.

Lemma power_reply_state_witness :
  is_digit "2" = true /\ contains "POWR=" "%1POWR ERR3" = false /\
  search_powr ("%1POWR=" ++ String "2" "") = Some (digit_value "2") /\
  search_powr "%1POWR ERR3" = None /\
  (0 <= 2 <= 9)%Z.
Proof.
  split; [reflexivity|]. split; [reflexivity|].
  split; [apply (power_reply_state ""); reflexivity|].
  split; [apply (power_reply_state "%1POWR ERR3"); reflexivity|].
  apply (proj1 (power_reply_state "%1POWR=2") 2%Z). reflexivity.
Defined.

Lemma sync_handshake_timeout_after_budget_witness :
  let w := dialled mute [] (network []) in
  let cfg := new_client "1234" (8 * sec) 4 in
  sync_handshake cfg 0 w = (Raise TimeoutError, exec (sync_handshake cfg 0) w) /\
  (clock w + Z.max (2 * sec) (timeout cfg) <= clock (exec (sync_handshake cfg 0) w))%Z.
Proof.
  cbv zeta. split; [vm_compute; reflexivity|].
  apply (sync_handshake_timeout_after_budget (new_client "1234" (8 * sec) 4) 0
           (dialled mute [] (network []))).
  vm_compute. reflexivity.
Defined.

End PJLinkFacts.

(* ================================================================== *)
(** ** PowerSequencer *)

Module SequencerFacts.

Import Sequencer.
Open Scope string_scope.
Open Scope list_scope.
Open Scope Z_scope.

(** *** Power on *)

(** C9. When the mains relay call returns [False], the power-on sequence
    does not stop: it publishes its progress, sleeps the warm-up delay and
    then issues the projector power-on command, no earlier than the
    warm-up after the relay call returned; and it returns without
    raising, whatever the projector command does. *)
Theorem power_on_continues_after_relay_failure (cfg : Config) (w : World)
    (took : N) (rest : list (outcome bool)) :
  relays w = Returns false took :: rest ->
  eval (_power_sequence cfg true) w = Ok tt /\
  exists t_cmd final,
    trace (exec (_power_sequence cfg true) w) =
      Published final :: PowerCmd t_cmd true ::
      Slept (clock w + Z.of_N took) (nic_warmup cfg * sec) ::
      Published "Alimentazione --> ON" :: Published "Alimentazione -> ON" ::
      RelaySet (clock w) (ch_main cfg) true :: trace w /\
    clock w + Z.of_N took + Z.max 0 (nic_warmup cfg * sec) <= t_cmd.
Proof.
  intros Hr. unfold eval, exec, _power_sequence, power_on, set_relay, sleep, pj_power,
    publish, try_except, finish, bind, gets, modify, ret, raise. cbn.
  rewrite Hr. cbn.
  destruct (overshoot w) as [|extra os]; cbn;
    destruct (powers w) as [|[b d|e d] ps]; cbn;
    (split; [reflexivity|]); do 2 eexists; (split; [reflexivity|]); lia.
Qed.

Lemma power_on_continues_after_relay_failure_witness :
  relays (start 0 [Returns true 3%N] [] [Returns false 1%N] []) = Returns false 1%N :: [] /\
  eval (_power_sequence {| nic_warmup := 12; ch_main := 0 |} true)
    (start 0 [Returns true 3%N] [] [Returns false 1%N] []) = Ok tt /\
  exists t_cmd final,
    trace (exec (_power_sequence {| nic_warmup := 12; ch_main := 0 |} true)
             (start 0 [Returns true 3%N] [] [Returns false 1%N] [])) =
      Published final :: PowerCmd t_cmd true ::
      Slept (clock (start 0 [Returns true 3%N] [] [Returns false 1%N] []) + Z.of_N 1)
        (nic_warmup {| nic_warmup := 12; ch_main := 0 |} * sec) ::
      Published "Alimentazione --> ON" :: Published "Alimentazione -> ON" ::
      RelaySet (clock (start 0 [Returns true 3%N] [] [Returns false 1%N] []))
        (ch_main {| nic_warmup := 12; ch_main := 0 |}) true ::
      trace (start 0 [Returns true 3%N] [] [Returns false 1%N] []) /\
    clock (start 0 [Returns true 3%N] [] [Returns false 1%N] []) + Z.of_N 1 +
      Z.max 0 (nic_warmup {| nic_warmup := 12; ch_main := 0 |} * sec) <= t_cmd.
Proof.
  split; [reflexivity|].
  apply (power_on_continues_after_relay_failure {| nic_warmup := 12; ch_main := 0 |}
           (start 0 [Returns true 3%N] [] [Returns false 1%N] []) 1%N []).
  reflexivity.
Defined.

(** *** The poll loop *)

Lemma apart_snoc (gap : Z) (ts : list Z) (old : Z) :
  apart gap ts -> Forall (fun t => old + gap <= t) ts -> apart gap (ts ++ [old]).
Proof.
  induction ts as [|t ts IH]; intros Ha Hf; cbn; [auto|].
  destruct Ha as (Hh & Ht). inversion Hf as [|? ? Hold Hrest]; subst.
  split; [|now apply IH].
  destruct ts as [|t1 ts]; cbn; [lia | exact Hh].
Qed.

Lemma poll_times_app (a b : list event) : poll_times (a ++ b) = poll_times a ++ poll_times b.
Proof.
  induction a as [|e a IH]; cbn; [reflexivity|].
  destruct e; cbn; now rewrite ?IH.
Qed.

(** A turn of the loop against a projector that is not in the desired
    state: the query is made, whatever it returns or raises is absorbed,
    and the loop goes on. *)
Lemma poll_misses (desired : Z) (st : option Z) (w : World) :
  never_reaches desired (queries w) = true ->
  exists st' w1 pub,
    poll desired st w = (Ok (None, st'), w1) /\
    clock w <= clock w1 /\
    never_reaches desired (queries w1) = true /\
    trace w1 = pub ++ PowerQuery (clock w) :: trace w /\
    poll_times pub = [] /\
    overshoot w1 = overshoot w /\
    (instant (queries w) = true -> clock w1 = clock w /\ instant (queries w1) = true).
Proof.
  intros Hn. unfold poll, try_except, pj_get_power, publish, finish, bind, gets,
    modify, ret, raise. cbn.
  destruct (queries w) as [|[st' d|e d] qs] eqn:Eq; cbn in Hn |- *.
  - exists st. eexists. exists [Published "Errore accensione proiettore"].
    cbn. rewrite Eq. repeat split; cbn; auto; lia.
  - apply andb_true_iff in Hn as (Hst & Hn). apply negb_true_iff in Hst.
    rewrite Hst. cbn. exists st'. eexists. exists []. cbn.
    repeat split; cbn; auto; try lia;
      match goal with
      | Hi : _ && _ = true |- _ => apply andb_true_iff in Hi as (Hd & Hrest)
      end; [|exact Hrest].
    apply N.eqb_eq in Hd. subst d. cbn. lia.
  - exists st. eexists. exists [Published "Errore accensione proiettore"]. cbn.
    repeat split; cbn; auto; try lia;
      match goal with
      | Hi : _ && _ = true |- _ => apply andb_true_iff in Hi as (Hd & Hrest)
      end; [|exact Hrest].
    apply N.eqb_eq in Hd. subst d. cbn. lia.
Qed.

Lemma loop_sleep_spec (d : Z) (w : World) :
  exists w', sleep d w = (Ok tt, w') /\
             clock w + Z.max 0 d <= clock w' /\
             trace w' = Slept (clock w) d :: trace w /\
             queries w' = queries w /\
             (overshoot w = [] -> clock w' = clock w + Z.max 0 d /\ overshoot w' = []).
Proof.
  unfold sleep, bind, gets, modify. cbn.
  destruct (overshoot w) as [|extra rest] eqn:Eo; cbn; eexists;
    (split; [reflexivity|]); cbn.
  - repeat split; auto; lia.
  - split; [lia|]. split; [reflexivity|]. split; [reflexivity|]. discriminate.
Qed.

(** The loop against a projector that never reaches the desired state,
    with fuel for the time left: it returns [False] once the clock has
    reached [t_end]; every query starts before [t_end], queries lie 1.5 s
    apart, and their number is bounded by the time left. *)
Lemma wait_loop_budget (fuel : nat) (desired t_end : Z) :
  forall (st : option Z) (w : World),
    never_reaches desired (queries w) = true ->
    t_end - clock w <= Z.of_nat fuel * poll_step ->
    exists st' w' new,
      wait_loop fuel desired t_end st w = (Ok (false, st'), w') /\
      t_end <= clock w' /\ clock w <= clock w' /\
      trace w' = new ++ trace w /\
      Forall (fun t => clock w <= t < t_end) (poll_times new) /\
      apart poll_step (poll_times new) /\
      Z.of_nat (length (poll_times new)) * poll_step
        < Z.max 0 (t_end - clock w) + poll_step.
Proof.
  induction fuel as [|fuel IH]; intros st w Hn Hf; cbn [wait_loop];
    unfold bind at 1, gets at 1;
    destruct (Z.ltb_spec (clock w) t_end) as [Hlt|Hge].
  - exfalso. cbn in Hf. lia.
  - exists st, w, []. cbn. unfold poll_step, ms. repeat split; auto; lia.
  - destruct (poll_misses desired st w Hn)
      as (st1 & w1 & pub & E1 & C1 & N1 & T1 & P1 & _).
    rewrite (bind_step_ok _ _ _ _ _ E1).
    destruct (loop_sleep_spec poll_step w1) as (w2 & E2 & C2 & T2 & Q2 & _).
    rewrite (bind_step_ok _ _ _ _ _ E2).
    unfold bind at 1, publish at 1, modify at 1.
    match goal with
    | |- context [wait_loop fuel desired t_end st1 ?w3] =>
        destruct (IH st1 w3) as (st' & w' & new & E & Ce & Cm & T & Fa & Ap & Cn);
          [cbn; now rewrite Q2 | cbn; unfold poll_step, ms in *; lia |]
    end.
    cbn in Cm, T, Fa, Cn.
    exists st', w',
      (new ++ Published "Errore accensione proiettore" :: Slept (clock w1) poll_step ::
       pub ++ [PowerQuery (clock w)]).
    split; [exact E|]. split; [exact Ce|]. split; [lia|].
    assert (Hp : poll_times
                   (new ++ Published "Errore accensione proiettore" ::
                    Slept (clock w1) poll_step :: pub ++ [PowerQuery (clock w)])
                 = poll_times new ++ [clock w]).
    { rewrite poll_times_app. cbn. rewrite poll_times_app, P1. reflexivity. }
    rewrite Hp. split; [|split; [|split]].
    + rewrite T, T2, T1. rewrite <- !app_assoc. cbn. rewrite <- app_assoc. reflexivity.
    + apply Forall_app. split.
      * eapply Forall_impl; [|exact Fa]. cbn. intros t Ht.
        unfold poll_step, ms in *. lia.
      * constructor; [lia | constructor].
    + apply apart_snoc; [exact Ap|].
      eapply Forall_impl; [|exact Fa]. cbn. intros t Ht. unfold poll_step, ms in *. lia.
    + rewrite length_app. cbn [length]. unfold poll_step, ms in *. lia.
  - exists st, w, []. cbn. unfold poll_step, ms. repeat split; auto; lia.
Qed.

(** In an environment without delays the loop ends on the boundary: with
    [k] steps of 1.5 s left it makes [k] queries and returns with the
    clock at [t_end]. *)
Lemma wait_loop_exact (k : nat) (desired t_end : Z) :
  forall (fuel : nat) (st : option Z) (w : World),
    never_reaches desired (queries w) = true ->
    instant (queries w) = true -> overshoot w = [] ->
    t_end - clock w = Z.of_nat k * poll_step -> (k <= fuel)%nat ->
    exists st' w' new,
      wait_loop fuel desired t_end st w = (Ok (false, st'), w') /\
      clock w' = t_end /\ trace w' = new ++ trace w /\
      length (poll_times new) = k.
Proof.
  induction k as [|k IH]; intros fuel st w Hn Hi Ho Hk Hf.
  - destruct fuel; cbn [wait_loop]; unfold bind at 1, gets at 1;
      replace (clock w <? t_end) with false by (symmetry; apply Z.ltb_ge; lia);
      exists st, w, []; cbn; repeat split; lia.
  - destruct fuel as [|fuel]; [lia|]. cbn [wait_loop]. unfold bind at 1, gets at 1.
    replace (clock w <? t_end) with true
      by (symmetry; apply Z.ltb_lt; unfold poll_step, ms in *; lia).
    destruct (poll_misses desired st w Hn)
      as (st1 & w1 & pub & E1 & _ & N1 & T1 & P1 & O1 & I1).
    destruct (I1 Hi) as (C1 & Hi1).
    rewrite (bind_step_ok _ _ _ _ _ E1).
    destruct (loop_sleep_spec poll_step w1) as (w2 & E2 & _ & T2 & Q2 & X2).
    destruct (X2 ltac:(congruence)) as (C2 & O2).
    rewrite (bind_step_ok _ _ _ _ _ E2).
    unfold bind at 1, publish at 1, modify at 1.
    match goal with
    | |- context [wait_loop fuel desired t_end st1 ?w3] =>
        destruct (IH fuel st1 w3) as (st' & w' & new & E & Ce & T & Cn);
          [cbn; now rewrite Q2 | cbn; now rewrite Q2 | cbn; exact O2
          | cbn; unfold poll_step, ms in *; lia | lia |]
    end.
    cbn in T.
    exists st', w',
      (new ++ Published "Errore accensione proiettore" :: Slept (clock w1) poll_step ::
       pub ++ [PowerQuery (clock w)]).
    split; [exact E|]. split; [exact Ce|]. split.
    + rewrite T, T2, T1. rewrite <- !app_assoc. cbn. rewrite <- app_assoc. reflexivity.
    + rewrite poll_times_app. cbn. rewrite poll_times_app, P1, length_app. cbn. lia.
Qed.

(** *** The wait for a power state, against any projector *)

Lemma state_eqb_eq (st : option Z) (desired : Z) :
  state_eqb st desired = true -> st = Some desired.
Proof.
  destruct st as [v|]; cbn; [|discriminate]. intros H. apply Z.eqb_eq in H. now subst.
Qed.

(** A turn of the loop never raises. It makes one query, which consumes
    the head of the script; it ends the wait when the query returned the
    desired state, and goes on otherwise. *)
Lemma poll_turn (desired : Z) (st : option Z) (w : World) :
  exists o w1 pub,
    poll desired st w = (Ok o, w1) /\
    trace w1 = pub ++ PowerQuery (clock w) :: trace w /\
    poll_times pub = [] /\ forallb polling pub = true /\
    queries w1 = skipn 1 (queries w) /\
    clock w1 = clock w + took_of (queries w) /\
    match o with
    | (Some r, _) =>
        exists d, firstn 1 (queries w) = [Returns (Some desired) d] /\
                  r = (true, Some desired) /\
                  pub = [Published "Sistema pronto"] /\ text w1 = "Sistema pronto"
    | (None, _) => never_reaches desired (firstn 1 (queries w)) = true
    end.
Proof.
  unfold poll, try_except, pj_get_power, publish, finish, bind, gets, modify, ret, raise.
  cbn. destruct (queries w) as [|[st' d|e d] qs] eqn:Eq; cbn.
  - do 3 eexists. split; [reflexivity|]. cbn.
    split; [exact (eq_refl : _ = [Published _] ++ _)|]. cbn.
    repeat split; [exact Eq | lia].
  - destruct (state_eqb st' desired) eqn:Es; cbn.
    + apply state_eqb_eq in Es as ->. do 3 eexists. split; [reflexivity|]. cbn.
      split; [exact (eq_refl : _ = [Published _] ++ _)|]. cbn.
      repeat split. exists d. auto.
    + do 3 eexists. split; [reflexivity|]. cbn -[state_eqb].
      split; [exact (eq_refl : _ = [] ++ _)|]. cbn -[state_eqb].
      repeat split.
  - do 3 eexists. split; [reflexivity|]. cbn.
    split; [exact (eq_refl : _ = [Published _] ++ _)|]. cbn. repeat split.
Qed.

Lemma took_of_nonneg {A} (l : list (outcome A)) : 0 <= took_of l.
Proof. destruct l as [|[a d|e d] l]; cbn; lia. Qed.

Lemma forallb_polling_app (a b : list event) :
  forallb polling a = true -> forallb polling b = true -> forallb polling (a ++ b) = true.
Proof. intros Ha Hb. rewrite forallb_app, Ha, Hb. reflexivity. Qed.

(** The loop with fuel for the time left returns, and it waited as
    [waited] says. *)
Lemma wait_loop_run (fuel : nat) (desired t_end : Z) :
  forall (st : option Z) (w : World),
    t_end - clock w <= Z.of_nat fuel * poll_step ->
    exists ok st' w' new,
      wait_loop fuel desired t_end st w = (Ok (ok, st'), w') /\
      trace w' = new ++ trace w /\
      waited desired (clock w) t_end (queries w) ok st' new w'.
Proof.
  induction fuel as [|fuel IH]; intros st w Hf; cbn [wait_loop];
    unfold bind at 1, gets at 1;
    destruct (Z.ltb_spec (clock w) t_end) as [Hlt|Hge].
  - exfalso. cbn in Hf. lia.
  - exists false, st, w, []. split; [reflexivity|]. split; [reflexivity|].
    unfold waited. cbn. unfold poll_step, ms. repeat split; auto; lia.
  - destruct (poll_turn desired st w) as ([[r|] st1] & w1 & pub & E1 & T1 & P1 & F1 & Q1 & C1 & H1).
    + destruct H1 as (d & Hq & -> & -> & Htx).
      rewrite (bind_step_ok _ _ _ _ _ E1).
      exists true, (Some desired), w1, [Published "Sistema pronto"; PowerQuery (clock w)].
      split; [reflexivity|]. split; [exact T1|].
      unfold waited. cbn [poll_times length]. split; [reflexivity|]. split; [exact Q1|].
      split; [repeat constructor; lia|]. split; [cbn; auto|].
      split; [unfold poll_step, ms; lia|].
      exists (clock w), d, [], []. split; [reflexivity|]. split; [exact Hq|].
      split; [reflexivity|]. split; [reflexivity|]. split; [|exact Htx].
      rewrite C1. destruct (queries w) as [|q qs]; [discriminate|].
      cbn in Hq. injection Hq as ->. reflexivity.
    + rewrite (bind_step_ok _ _ _ _ _ E1).
      destruct (loop_sleep_spec poll_step w1) as (w2 & E2 & C2 & T2 & Q2 & _).
      rewrite (bind_step_ok _ _ _ _ _ E2).
      unfold bind at 1, publish at 1, modify at 1.
      pose proof (took_of_nonneg (queries w)) as Hk.
      match goal with
      | |- context [wait_loop fuel desired t_end st1 ?w3] =>
          destruct (IH st1 w3) as (ok & st' & w' & new & E & T & W);
            [cbn; unfold poll_step, ms in *; lia |]
      end.
      cbn [trace log clock queries] in T, W. rewrite Q2, Q1 in W.
      exists ok, st', w',
        (new ++ Published "Errore accensione proiettore" :: Slept (clock w1) poll_step ::
         pub ++ [PowerQuery (clock w)]).
      split; [exact E|].
      split; [rewrite T, T2, T1, <- !app_assoc; cbn; rewrite <- app_assoc; reflexivity|].
      assert (Hp : poll_times
                     (new ++ Published "Errore accensione proiettore" ::
                      Slept (clock w1) poll_step :: pub ++ [PowerQuery (clock w)])
                   = poll_times new ++ [clock w]).
      { rewrite poll_times_app. cbn. rewrite poll_times_app, P1. reflexivity. }
      destruct W as (Wf & Wq & Wt & Wa & Wn & Wo).
      unfold waited. rewrite Hp, length_app. cbn [length]. rewrite Nat.add_1_r.
      assert (Hskip : forall n, skipn n (skipn 1 (queries w)) = skipn (S n) (queries w)).
      { intros n. destruct (queries w); [now rewrite !skipn_nil | reflexivity]. }
      split; [|split; [|split; [|split; [|split]]]].
      * apply forallb_polling_app; [exact Wf|]. cbn. apply forallb_polling_app; [exact F1|].
        reflexivity.
      * rewrite Wq. apply Hskip.
      * apply Forall_app. split.
        -- eapply Forall_impl; [|exact Wt]. cbn. intros t Ht.
           unfold poll_step, ms in *. lia.
        -- constructor; [lia | constructor].
      * apply apart_snoc; [exact Wa|].
        eapply Forall_impl; [|exact Wt]. cbn. intros t Ht. unfold poll_step, ms in *. lia.
      * rewrite Nat2Z.inj_succ. unfold poll_step, ms in *. lia.
      * destruct ok.
        -- destruct Wo as (t & d & older & pre & -> & Ha & Hn & Hst & Hc & Htx).
           destruct (queries w) as [|q qs] eqn:Eq.
           { exfalso. cbn [skipn] in Ha. rewrite firstn_nil in Ha. now destruct pre. }
           change (skipn 1 (q :: qs)) with qs in Ha. cbn [firstn] in H1 |- *.
           exists t, d,
             (older ++ Published "Errore accensione proiettore" ::
              Slept (clock w1) poll_step :: pub ++ [PowerQuery (clock w)]), (q :: pre).
           split; [reflexivity|]. split; [rewrite Ha; reflexivity|].
           split; [|auto].
           cbn [never_reaches forallb] in H1 |- *. unfold never_reaches in Hn.
           rewrite Hn. rewrite andb_true_r in H1. now rewrite H1.
        -- destruct Wo as (Hn & Hc). split; [|exact Hc].
           destruct (queries w) as [|q qs] eqn:Eq; [reflexivity|].
           change (skipn 1 (q :: qs)) with qs in Hn. cbn [firstn] in H1 |- *.
           cbn [never_reaches forallb] in H1 |- *. unfold never_reaches in Hn.
           rewrite Hn. rewrite andb_true_r in H1. now rewrite H1.
  - exists false, st, w, []. split; [reflexivity|]. split; [reflexivity|].
    unfold waited. cbn. unfold poll_step, ms. repeat split; auto; lia.
Qed.

Lemma wait_fuel (budget_s : Z) :
  budget_s * sec <= Z.of_nat (S (Z.to_nat (budget_s * sec / poll_step))) * poll_step.
Proof.
  assert (Hs : 0 < poll_step) by (unfold poll_step, ms; lia).
  destruct (Z_lt_le_dec (budget_s * sec) 0) as [Hneg|Hpos].
  - rewrite Nat2Z.inj_succ. lia.
  - pose proof (Z.mod_pos_bound (budget_s * sec) poll_step Hs) as Hm.
    pose proof (Z.div_mod (budget_s * sec) poll_step ltac:(lia)) as Hd.
    assert (0 <= budget_s * sec / poll_step) by (apply Z.div_pos; lia).
    rewrite Nat2Z.inj_succ, Z2Nat.id by assumption. lia.
Qed.

Lemma wait_power_state_run (desired budget_s : Z) (w : World) :
  exists ok st w' new,
    _wait_power_state desired budget_s w = (Ok (ok, st), w') /\
    trace w' = new ++ trace w /\
    waited desired (clock w) (clock w + budget_s * sec) (queries w) ok st new w'.
Proof.
  unfold _wait_power_state, bind at 1, gets at 1.
  apply wait_loop_run. pose proof (wait_fuel budget_s). lia.
Qed.

(** A wait that returned [True] has met the desired state in the script. *)
Lemma waited_true_reaches (desired t0 t_end : Z) (qs : list (outcome (option Z)))
    (st : option Z) (new : list event) (w' : World) :
  waited desired t0 t_end qs true st new w' -> never_reaches desired qs = false.
Proof.
  intros (_ & _ & _ & _ & _ & (t & d & older & pre & _ & Ha & _)).
  destruct (never_reaches desired qs) eqn:Hn; [|reflexivity]. exfalso.
  unfold never_reaches in Hn. rewrite forallb_forall in Hn.
  assert (Hin : In (Returns (Some desired) d) qs).
  { rewrite <- (firstn_skipn (length (poll_times new)) qs). apply in_or_app. left.
    rewrite Ha. apply in_or_app. right. now left. }
  specialize (Hn _ Hin). cbn in Hn. rewrite Z.eqb_refl in Hn. discriminate.
Qed.

(** X19. [_wait_power_state] never raises and always returns, whatever
    the projector does. It queries the state in the order of the script,
    every query started before the deadline and at least 1.5 s after the
    one before. It returns [True] only if its newest query returned the
    desired state, as the first query to do so, and then at once, with
    that state and the ready text; it returns [False] only once the whole
    budget has passed, no query having returned the desired state. An
    exception of a query is absorbed, and a budget that is zero or
    negative makes it return [False] without a query. *)
Theorem wait_power_state_sound (desired budget_s : Z) (w : World) :
  exists ok st w' new,
    _wait_power_state desired budget_s w = (Ok (ok, st), w') /\
    trace w' = new ++ trace w /\
    waited desired (clock w) (clock w + budget_s * sec) (queries w) ok st new w'.
Proof. apply wait_power_state_run. Qed.

(** *** Power off *)

(** The power-off command is issued once, and whatever it does, the
    sequence goes on. *)
Lemma power_off_command_spec (w : World) :
  exists w0, power_off_command w = (Ok tt, w0) /\
             trace w0 = PowerCmd (clock w) false :: trace w /\
             queries w0 = queries w /\ overshoot w0 = overshoot w /\
             clock w <= clock w0.
Proof.
  unfold power_off_command, try_except, pj_power, finish, bind, gets, modify, ret, raise.
  cbn. destruct (powers w) as [|[b d|e d] ps]; cbn; eexists;
    (split; [reflexivity|]); cbn; repeat split; lia.
Qed.

(** The wait of the power-off branch, from the world [w0] the command
    left. *)
Lemma wait_standby_budget (w0 : World) :
  never_reaches 0 (queries w0) = true ->
  exists st' w' new,
    _wait_power_state 0 90 w0 = (Ok (false, st'), w') /\
    clock w0 + 90 * sec <= clock w' /\
    trace w' = new ++ trace w0 /\
    Forall (fun t => clock w0 <= t < clock w0 + 90 * sec) (poll_times new) /\
    apart poll_step (poll_times new) /\
    (length (poll_times new) <= 60)%nat /\
    (instant (queries w0) = true -> overshoot w0 = [] ->
     clock w' = clock w0 + 90 * sec /\ length (poll_times new) = 60%nat).
Proof.
  intros Hn. unfold _wait_power_state, bind at 1, gets at 1.
  change (S (Z.to_nat (90 * sec / poll_step))) with 61%nat.
  destruct (wait_loop_budget 61 0 (clock w0 + 90 * sec) (Some 4) w0)
    as (st' & w' & new & E & Ce & _ & T & Fa & Ap & Cn);
    [exact Hn | unfold poll_step, sec, ms; lia |].
  exists st', w', new.
  split; [exact E|]. split; [exact Ce|]. split; [exact T|]. split; [exact Fa|].
  split; [exact Ap|]. split; [unfold poll_step, ms, sec in Cn; lia|].
  intros Hi Ho.
  destruct (wait_loop_exact 60 0 (clock w0 + 90 * sec) 61 (Some 4) w0)
    as (st2 & w2 & new2 & E2 & Ce2 & T2 & Cn2);
    [exact Hn | exact Hi | exact Ho | unfold poll_step, sec, ms; lia | lia |].
  rewrite E in E2. injection E2 as _ <-.
  split; [exact Ce2|].
  rewrite T in T2. apply app_inv_tail in T2. now subst new2.
Qed.

(** The exact clock of the power-off command. *)
Lemma power_off_command_clock (w : World) :
  clock (exec power_off_command w) = clock w + took_of (powers w).
Proof.
  unfold exec, power_off_command, try_except, pj_power, finish, bind, gets, modify, ret, raise.
  cbn. destruct (powers w) as [|[b d|e d] ps]; cbn; lia.
Qed.

(** C8. The power-off sequence returns without raising, whatever the
    projector does. It issues the power-off command first and then queries
    the state, each query at least 1.5 s after the one before and started
    within 90 s of the end of the command, hence 60 queries at most. It
    stops at the first query that returns Standby; a query that returns
    another state, returns nothing parseable or raises is absorbed, and
    the polling goes on. Against a projector that never reports Standby
    the sequence ends no earlier than the 90 s budget, and exactly on its
    boundary, after 60 queries, when answers and sleeps take no extra
    time. *)
Theorem power_off_polls_until_standby_or_budget (cfg : Config) (w : World) :
  polls_until_standby_or_budget cfg w.
Proof.
  unfold polls_until_standby_or_budget, eval, exec. cbn [_power_sequence]. unfold power_off.
  destruct (power_off_command_spec w) as (w0 & E0 & T0 & Q0 & O0 & _).
  pose proof (power_off_command_clock w) as C0. unfold exec in C0. rewrite E0 in C0.
  cbn [snd] in C0.
  rewrite (bind_step_ok _ _ _ _ _ E0).
  destruct (wait_power_state_run 0 90 w0) as (ok & st & w' & new & E & T & W).
  rewrite (bind_step_ok _ _ _ _ _ E). cbn [fst snd ret].
  rewrite C0, Q0 in W.
  split; [reflexivity|]. exists ok, st, new.
  split; [rewrite T, T0; reflexivity|]. split; [exact W|].
  split.
  { destruct W as (_ & _ & _ & _ & Hn & _). unfold poll_step, ms, sec in Hn. lia. }
  intros Hn.
  assert (Hok : ok = false).
  { destruct ok; [|reflexivity].
    apply waited_true_reaches in W. congruence. }
  split; [exact Hok|]. intros Hi Ho.
  destruct (wait_standby_budget w0) as (st2 & w2 & new2 & E2 & _ & T2 & _ & _ & _ & Ex);
    [rewrite Q0; exact Hn|].
  rewrite E in E2. injection E2 as _ _ <-.
  rewrite T in T2. apply app_inv_tail in T2. subst new2.
  rewrite <- C0. apply Ex; [rewrite Q0; exact Hi | rewrite O0; exact Ho].
Qed.

(** *** Runs on concrete scripts *)

(** That run, evaluated: no exception, 60 queries, the clock on the 90 s
    boundary. *)
Example power_off_against_cooling :
  let run := _power_sequence {| nic_warmup := 12; ch_main := 0 |} false
               (start 0 [Returns true 0%N] cooling [] []) in
  fst run = Ok tt /\ clock (snd run) = 90 * sec /\
  length (poll_times (trace (snd run))) = 60%nat.
Proof. vm_compute. repeat split; reflexivity. Qed.

(** A query that raises, one that returns nothing parseable, and then
    Standby: the loop absorbs the first two and stops at the third. *)
Example power_off_reaches_standby :
  let run := _power_sequence {| nic_warmup := 12; ch_main := 0 |} false
               (start 0 [] [Fails OSError 5; Returns None 0; Returns (Some 0) 7] [] []) in
  fst run = Ok tt /\
  poll_times (trace (snd run)) = [2 * poll_step + 5; poll_step + 5; 0] /\
  text (snd run) = "Sistema pronto".
Proof. vm_compute. repeat split; reflexivity. Qed.

(** A relay call that raises is not absorbed: the power-on sequence ends
    with that exception before the warm-up. *)
Example power_on_relay_exception :
  _power_sequence {| nic_warmup := 12; ch_main := 0 |} true
    (start 0 [Returns true 3%N] [] [Fails OSError 1%N] []) =
  (Raise OSError,
   {| clock := 1; text := ""; trace := [RelaySet 0 0 true];
      powers := [Returns true 3%N]; queries := []; relays := []; overshoot := [] |}).
Proof. reflexivity. Qed.

(** *** Power on with a relay call that raises *)

(** X20. When the mains relay call raises, the power-on sequence ends
    with that exception right there: the call is outside every [try], so
    no progress text is published and the projector is never commanded. *)
Theorem power_on_stops_on_relay_exception (cfg : Config) (w : World) (e : exn)
    (took : N) (rest : list (outcome bool)) :
  relays w = Fails e took :: rest ->
  eval (_power_sequence cfg true) w = Raise e /\
  trace (exec (_power_sequence cfg true) w) = RelaySet (clock w) (ch_main cfg) true :: trace w /\
  text (exec (_power_sequence cfg true) w) = text w /\
  powers (exec (_power_sequence cfg true) w) = powers w.
Proof.
  intros Hr. unfold eval, exec, _power_sequence, power_on, set_relay, finish, bind, gets,
    modify, raise. cbn. rewrite Hr. cbn. auto.
Qed.

Lemma power_on_stops_on_relay_exception_witness :
  let w := start 0 [Returns true 3%N] [] [Fails OSError 1%N] [] in
  let cfg := {| nic_warmup := 12; ch_main := 0 |} in
  relays w = Fails OSError 1%N :: [] /\
  eval (_power_sequence cfg true) w = Raise OSError /\
  trace (exec (_power_sequence cfg true) w) = RelaySet (clock w) (ch_main cfg) true :: trace w /\
  text (exec (_power_sequence cfg true) w) = text w /\
  powers (exec (_power_sequence cfg true) w) = powers w.
Proof.
  cbv zeta. split; [reflexivity|].
  apply (power_on_stops_on_relay_exception {| nic_warmup := 12; ch_main := 0 |}
           (start 0 [Returns true 3%N] [] [Fails OSError 1%N] []) OSError 1%N []).
  reflexivity.
Defined.

(** *** The text after the power-on command *)

(** X27. When the relay call returns, the power-on sequence returns, and
    the text it leaves reports a failure only if the projector command
    raised: whenever the command returns, with [True] or with [False],
    the text is the one that announces the projector as switched on. *)
Theorem power_on_reports_only_exceptions (cfg : Config) (w : World) (ok : bool)
    (took : N) (rest : list (outcome bool)) :
  relays w = Returns ok took :: rest ->
  eval (_power_sequence cfg true) w = Ok tt /\
  text (exec (_power_sequence cfg true) w) =
    match powers w with
    | Returns _ _ :: _ => "Proiettore -> ON"
    | _ => "Errore accensione proiettore"
    end.
Proof.
  intros Hr. unfold eval, exec, _power_sequence, power_on, set_relay, sleep, pj_power,
    publish, try_except, finish, bind, gets, modify, ret, raise. cbn.
  rewrite Hr. cbn.
  destruct (overshoot w) as [|extra os]; cbn;
    destruct (powers w) as [|[b d|e d] ps]; cbn; split; reflexivity.
Qed.

Lemma power_on_reports_only_exceptions_witness :
  let w := start 0 [Returns false 3%N] [] [Returns true 1%N] [] in
  let cfg := {| nic_warmup := 12; ch_main := 0 |} in
  relays w = Returns true 1%N :: [] /\
  eval (_power_sequence cfg true) w = Ok tt /\
  text (exec (_power_sequence cfg true) w) =
    match powers w with
    | Returns _ _ :: _ => "Proiettore -> ON"
    | _ => "Errore accensione proiettore"
    end.
Proof.
  cbv zeta. split; [reflexivity|].
  apply (power_on_reports_only_exceptions {| nic_warmup := 12; ch_main := 0 |}
           (start 0 [Returns false 3%N] [] [Returns true 1%N] []) true 1%N []).
  reflexivity.
Defined.

End SequencerFacts.

(* ================================================================== *)
(** ** RelayLink *)

Module ShellyFacts.

Import Stdlib.Strings.Ascii.
Import Shelly.
Open Scope string_scope.
Open Scope Z_scope.

Lemma rstrip_slash_no_trailing (s : string) : PJLink.ends_with "/" (rstrip_slash s) = false.
Proof.
  induction s as [|c s IH]; [reflexivity|]. cbn [rstrip_slash].
  destruct (rstrip_slash s) as [|k kept] eqn:Ek.
  - destruct (Ascii.eqb_spec c "/") as [->|Hne]; [reflexivity|].
    cbn [PJLink.ends_with String.eqb].
    destruct (Ascii.eqb "/" c) eqn:E; [apply Ascii.eqb_eq in E; congruence | reflexivity].
  - change (PJLink.ends_with "/" (String c (String k kept)))
      with (String.eqb "/" (String c (String k kept)) || PJLink.ends_with "/" (String k kept)).
    rewrite IH, orb_false_r.
    cbn [String.eqb]. destruct (Ascii.eqb "/" c); reflexivity.
Qed.

Lemma rstrip_slash_idem (s : string) : rstrip_slash (rstrip_slash s) = rstrip_slash s.
Proof.
  induction s as [|c s IH]; [reflexivity|]. cbn [rstrip_slash].
  destruct (rstrip_slash s) as [|k kept] eqn:Ek.
  - destruct (Ascii.eqb c "/") eqn:Ec; [reflexivity|]. cbn [rstrip_slash]. now rewrite Ec.
  - cbn [rstrip_slash]. cbn [rstrip_slash] in IH. 
    destruct (match rstrip_slash kept with
              | "" => if Ascii.eqb k "/" then "" else String k ""
              | String a s0 => String k (String a s0)
              end) eqn:Em; [discriminate | now rewrite IH].
Qed.

(** X21. [ShellyHTTP.__init__] takes the first nonempty one of
    [base_url], [base] and [host] (the host prefixed with [http://]),
    strips every trailing slash from it and stores the result, which
    therefore never ends with a slash; it raises [ValueError] exactly when
    all three are absent or empty. *)
Theorem client_base_normalised (b bu h : option string) (tmo : Z) :
  match new_client b bu h tmo with
  | Ok c =>
      base c = rstrip_slash (if truthy bu then text_of bu
                             else if truthy b then text_of b
                             else "http://" ++ text_of h) /\
      PJLink.ends_with "/" (base c) = false /\
      (truthy bu || truthy b || truthy h = true)
  | Raise e =>
      e = ValueError /\ truthy bu = false /\ truthy b = false /\ truthy h = false
  | Diverge => False
  end.
Proof.
  unfold new_client, or_else.
  destruct bu as [[|c1 u1]|]; cbn [truthy text_of orb];
    try (split; [reflexivity|]; split; [apply rstrip_slash_no_trailing | reflexivity]);
    (destruct b as [[|c2 u2]|]; cbn [truthy text_of orb];
     try (split; [reflexivity|]; split; [apply rstrip_slash_no_trailing | reflexivity]);
     (destruct h as [[|c3 u3]|]; cbn [truthy text_of orb];
      try (split; [reflexivity|]; split; [apply rstrip_slash_no_trailing | reflexivity]);
      auto)).
Qed.

Lemma post_cases (u : string) (relay : Z) (state : bool) (w : World) :
  let req := {| at_ := clock w; url := u; id := relay; on := state |} in
  match replies w with
  | Status code took :: rest =>
      post u relay state w =
      (Ok code, {| clock := clock w + Z.of_N took; posts := req :: posts w;
                   replies := rest; overshoot := overshoot w |})
  | Fault e took :: rest =>
      post u relay state w =
      (Raise e, {| clock := clock w + Z.of_N took; posts := req :: posts w;
                   replies := rest; overshoot := overshoot w |})
  | [] =>
      post u relay state w =
      (Raise ConnectionError, {| clock := clock w; posts := req :: posts w;
                                 replies := []; overshoot := overshoot w |})
  end.
Proof.
  unfold post, bind, gets, modify, raise, ret. cbn.
  destruct (replies w) as [|[code took|e took] rest]; reflexivity.
Qed.

(** X22. [pulse] posts the switch-on request first. If that request
    raises, or the device cannot be reached, [pulse] raises the same and
    sends nothing more. If it is answered, whatever the status, [pulse]
    posts the switch-off request for the same relay to the same URL, no
    earlier than [max(ms, 0)] milliseconds after the answer; it then
    returns [True] exactly when both answers had status 200, [False] when
    one had another status, and raises only when the second request
    raises. *)
Theorem pulse_switches_on_then_off (c : Client) (relay ms_ : Z) (w : World) :
  let run := pulse c relay ms_ w in
  let turn_on := {| at_ := clock w; url := switch_url c; id := relay; on := true |} in
  let turn_off t := {| at_ := t; url := switch_url c; id := relay; on := false |} in
  match replies w with
  | Status s1 k1 :: second =>
      (exists t_off,
         posts (snd run) = turn_off t_off :: turn_on :: posts w /\
         clock w + Z.of_N k1 + Z.max ms_ 0 * ms <= t_off) /\
      fst run = match second with
                | Status s2 _ :: _ => Ok ((s1 =? 200) && (s2 =? 200))
                | Fault e _ :: _ => Raise e
                | [] => Raise ConnectionError
                end
  | Fault e _ :: _ => fst run = Raise e /\ posts (snd run) = turn_on :: posts w
  | [] => fst run = Raise ConnectionError /\ posts (snd run) = turn_on :: posts w
  end.
Proof.
  cbn zeta. unfold pulse, set_relay, switch_url, post, sleep, bind, gets, modify, raise, ret.
  cbn.
  destruct (replies w) as [|[s1 k1|e1 k1] [|[s2 k2|e2 k2] rest]] eqn:E1; cbn;
    destruct (overshoot w) as [|x os]; cbn; auto;
    (split; [eexists; split; [reflexivity | unfold ms; lia] | reflexivity]).
Qed.

End ShellyFacts.

(* ================================================================== *)
(** ** DeviceConfig *)

Module DeviceConfigFacts.

Import DeviceConfig.
Open Scope string_scope.
Open Scope Z_scope.

Lemma deep_merge_nil (base : dict) : _deep_merge base [] = base.
Proof. reflexivity. Qed.

Lemma deep_merge_cons (base : dict) (k : string) (v : value) (rest : dict) :
  _deep_merge base ((k, v) :: rest) = _deep_merge (set k (stored (get k base) v) base) rest.
Proof.
  unfold _deep_merge at 1 2. cbn [merged]. f_equal.
  unfold stored. destruct (get k base) as [cur|]; [|destruct v; reflexivity].
  destruct v; reflexivity.
Qed.

Lemma get_set_same (k : string) (v : value) (d : dict) : get k (set k v d) = Some v.
Proof.
  induction d as [|[k' v'] d IH]; cbn [set get].
  - now rewrite String.eqb_refl.
  - destruct (String.eqb k k') eqn:E; cbn [get]; rewrite E; [reflexivity | exact IH].
Qed.

Lemma get_set_other (k k0 : string) (v : value) (d : dict) :
  k0 <> k -> get k0 (set k v d) = get k0 d.
Proof.
  intros Hne. induction d as [|[k' v'] d IH]; cbn [set get].
  - destruct (String.eqb_spec k0 k); [congruence | reflexivity].
  - destruct (String.eqb_spec k k') as [->|Hk]; cbn [get].
    + destruct (String.eqb_spec k0 k'); [congruence | reflexivity].
    + destruct (String.eqb k0 k'); [reflexivity | exact IH].
Qed.

Lemma get_none_notin (k : string) (d : dict) : ~ In k (map fst d) -> get k d = None.
Proof.
  induction d as [|[k' v'] d IH]; cbn; [reflexivity|]. intros Hn.
  destruct (String.eqb_spec k k') as [->|Hk]; [tauto|]. apply IH. tauto.
Qed.

(** X23. A lookup in the result of [_deep_merge]: a key the override
    does not hold keeps the value of the base; a key it holds gets the
    value of the override, except when both values are mappings, which
    are merged in the same way. *)
Theorem deep_merge_lookup (override : dict) :
  forall (base : dict) (k : string),
    NoDup (map fst override) ->
    get k (_deep_merge base override) =
    match get k override with
    | Some v => Some (stored (get k base) v)
    | None => get k base
    end.
Proof.
  induction override as [|[k1 v1] rest IH]; intros base k Hnd.
  - reflexivity.
  - rewrite deep_merge_cons. cbn [map fst] in Hnd. inversion Hnd as [|? ? Hnotin Hrest]; subst.
    rewrite (IH _ k Hrest). cbn [get].
    destruct (String.eqb_spec k k1) as [->|Hne].
    + rewrite (get_none_notin k1 rest Hnotin). apply get_set_same.
    + rewrite (get_set_other k1 k _ base Hne). reflexivity.
Qed.

Lemma deep_merge_lookup_witness :
  let override := [("projector", VDict [("host", VStr "10.0.0.7")])] in
  NoDup (map fst override) /\
  get "projector" (_deep_merge DEFAULT_DEVICES override) =
  match get "projector" override with
  | Some v => Some (stored (get "projector" DEFAULT_DEVICES) v)
  | None => get "projector" DEFAULT_DEVICES
  end.
Proof.
  cbv zeta.
  assert (H : NoDup (map fst [("projector", VDict [("host", VStr "10.0.0.7")])])).
  { cbn. constructor; [intros [] | constructor]. }
  split; [exact H|].
  exact (deep_merge_lookup [("projector", VDict [("host", VStr "10.0.0.7")])]
           DEFAULT_DEVICES "projector" H).
Defined.

Lemma is_Some_get_set (k k0 : string) (v : value) (d : dict) :
  is_Some (get k0 (set k v d)) <-> k0 = k \/ is_Some (get k0 d).
Proof.
  destruct (String.eqb_spec k0 k) as [->|Hne].
  - rewrite get_set_same. split; eauto.
  - rewrite (get_set_other k k0 v d Hne). tauto.
Qed.

(** X24. [_deep_merge] loses no key: the result holds a key exactly
    when the base or the override holds it, so every section of the
    defaults is present in [devices] whatever the file overrides. *)
Theorem deep_merge_keys (override : dict) :
  forall (base : dict) (k : string),
    is_Some (get k (_deep_merge base override)) <->
    is_Some (get k base) \/ is_Some (get k override).
Proof.
  induction override as [|[k1 v1] rest IH]; intros base k.
  - rewrite deep_merge_nil. cbn [get]. split; [auto | intros [H|H]; [exact H | now destruct H]].
  - rewrite deep_merge_cons, IH, is_Some_get_set. cbn [get].
    destruct (String.eqb_spec k k1) as [->|Hne]; split; intros H; eauto; tauto.
Qed.

Example devices_host_override :
  let d := devices [("projector", VDict [("host", VStr "10.0.0.7")])] in
  get "projector" d =
    Some (VDict [("host", VStr "10.0.0.7"); ("port", VInt 4352);
                 ("password", VStr "1234"); ("nic_warmup_s", VInt 12);
                 ("pjlink_timeout_s", VInt 8); ("pjlink_retries", VInt 4);
                 ("post_power_on_delay_s", VFloat 1.5)]) /\
  get "shelly1" d = get "shelly1" DEFAULT_DEVICES /\
  map fst d = ["projector"; "shelly1"; "shelly2"].
Proof. vm_compute. repeat split; reflexivity. Qed.

End DeviceConfigFacts.
